(** * KEF Connect: the speaker client, the model registry and the device
      lifecycle, embedded in Rocq.

    The development follows the TypeScript sources:
    - [JS]            the fragment of JavaScript values and operators the
                      sources rely on (truthiness, property access,
                      [Math.round], [===], ...);
    - [Async]         asynchronous methods as state-passing computations
                      that either return or throw;
    - [Transport]     [KEFSpeaker.request] against a speaker seen as an
                      oracle over the requests sent so far;
    - [KEFModels]     lib/KEFModels.ts;
    - [KEFSpeaker]    lib/KEFSpeaker.ts;
    - [Playback]      the playback controls of lib/KEFSpeaker.ts, on a
                      speaker that also receives control activations;
    - [KEFBaseDevice] lib/KEFBaseDevice.ts;
    - [App]           the flow action "set_source" of app.ts;
    - [Spec], [Trace], [Examples]
                      the vocabulary of the specification, sequences of
                      calls, and concrete speakers and devices;
    - [SpeakerSpec], [PlaybackSpec], [DeviceSpec]
                      the vocabulary of the further properties.

    The properties follow: volume and mute, power and source, the
    snapshot, playback metadata, the set-source handler, album art and
    polling; then the model registry, volume steps and subwoofer gain,
    speaker information, playback control, the timer, settings, and the
    remaining capability handlers.

    Strings are byte strings; [toLowerCase] is the ASCII one. *)

From Stdlib Require Import String Ascii List Bool ZArith QArith Qround Qabs Lia Lqa.
Import ListNotations.
Local Open Scope string_scope.

(* ===================================================================== *)
(** ** JavaScript values *)
(* ===================================================================== *)

Module JS.

(** A parsed JSON document.  An object is the list of its properties; the
    first binding of a key is the property's value. *)
#[warnings="-register-all"]
Inductive json : Type :=
| JNull
| JBool (b : bool)
| JNum (q : Q)
| JStr (s : string)
| JArr (items : list json)
| JObj (fields : list (string * json)).

(** A JavaScript value: [None] is [undefined]. *)
Definition jsval : Type := option json.

(** ToBoolean. *)
Definition truthy (v : json) : bool :=
  match v with
  | JNull => false
  | JBool b => b
  | JNum q => negb (Qeq_bool q 0)
  | JStr s => negb (s =? "")
  | JArr _ | JObj _ => true
  end.

Definition truthy_val (v : jsval) : bool :=
  match v with
  | Some j => truthy j
  | None => false
  end.

(** [a && b]: the first operand when it is falsy, the second otherwise. *)
Definition js_and (a b : jsval) : jsval := if truthy_val a then b else a.

(** [a || b]. *)
Definition js_or (a b : jsval) : jsval := if truthy_val a then a else b.

Fixpoint assoc (k : string) (l : list (string * json)) : jsval :=
  match l with
  | [] => None
  | (k', v) :: l' => if k =? k' then Some v else assoc k l'
  end.

(** [v.k] for the property names the sources read ([state], [title],
    [i32_], ...): none of them is a property of a string, a number, a
    boolean or an array, so only objects answer.  The sources guard every
    access by the truthiness of [v]; on [undefined] and [null], where
    JavaScript throws, the model answers [undefined]. *)
Definition get (v : jsval) (k : string) : jsval :=
  match v with
  | Some (JObj l) => assoc k l
  | _ => None
  end.

(** [v[0]]: the head of an array, the first character of a string, the
    property ["0"] of an object. *)
Definition index0 (v : json) : jsval :=
  match v with
  | JArr (x :: _) => Some x
  | JStr (String c _) => Some (JStr (String c ""))
  | JObj l => assoc "0" l
  | _ => None
  end.

Definition isArray (v : json) : bool :=
  match v with
  | JArr _ => true
  | _ => false
  end.

(** [a === b] for values that come from different responses or literals:
    primitives compare by value, arrays and objects by identity, so two
    of them are never equal. *)
Definition strict_eq (a b : jsval) : bool :=
  match a, b with
  | None, None => true
  | Some JNull, Some JNull => true
  | Some (JBool x), Some (JBool y) => Bool.eqb x y
  | Some (JNum x), Some (JNum y) => Qeq_bool x y
  | Some (JStr x), Some (JStr y) => (x =? y)
  | _, _ => false
  end.

(** [String.prototype.toLowerCase] on strings of ASCII characters: the
    letters A to Z are lowered and every other character is kept.  The
    case mapping of the runtime for other characters is not modelled; a
    property that states the lower case of a string the speaker reports
    assumes that the string is ASCII ([Spec.ascii_sources]). *)
Definition lower_ascii (c : ascii) : ascii :=
  let n := nat_of_ascii c in
  if (65 <=? n)%nat && (n <=? 90)%nat then ascii_of_nat (n + 32) else c.

Fixpoint toLowerCase (s : string) : string :=
  match s with
  | EmptyString => EmptyString
  | String c s' => String (lower_ascii c) (toLowerCase s')
  end.

(** A JavaScript number. *)
Inductive number : Type :=
| Fin (q : Q)
| NaN
| PosInf
| NegInf.

(** [a <= b]; false as soon as one side is [NaN]. *)
Definition num_leb (a b : number) : bool :=
  match a, b with
  | NaN, _ | _, NaN => false
  | NegInf, _ => true
  | _, PosInf => true
  | PosInf, _ => false
  | _, NegInf => false
  | Fin x, Fin y => Qle_bool x y
  end.

(** [a > b]. *)
Definition num_gtb (a b : number) : bool :=
  match a, b with
  | NaN, _ | _, NaN => false
  | _, _ => negb (num_leb a b)
  end.

(** [Math.round]: the nearest integer, ties towards +infinity. *)
Definition Math_round (x : number) : number :=
  match x with
  | Fin q => Fin (inject_Z (Qfloor (q + (1 # 2))))
  | _ => x
  end.

Definition Math_max (a b : number) : number :=
  match a, b with
  | NaN, _ | _, NaN => NaN
  | _, _ => if num_leb a b then b else a
  end.

Definition Math_min (a b : number) : number :=
  match a, b with
  | NaN, _ | _, NaN => NaN
  | _, _ => if num_leb a b then a else b
  end.

(** How [JSON.stringify] writes a number: [NaN] and the infinities become
    [null]. *)
Definition number_to_json (x : number) : json :=
  match x with
  | Fin q => JNum q
  | _ => JNull
  end.

Section Coercion.

  (** ToNumber on strings, arrays and objects (numeric-string parsing and
      ToPrimitive) belongs to the JavaScript runtime. *)
Variable coerce : json -> number.

Definition ToNumber (v : json) : number :=
    match v with
    | JNull => Fin 0
    | JBool true => Fin 1
    | JBool false => Fin 0
    | JNum q => Fin q
    | JStr _ | JArr _ | JObj _ => coerce v
    end.

End Coercion.

(** An exception value and its rendering inside a template string. *)
Inductive exn : Type :=
| Error (message : string)
| TypeError (message : string).

Definition exn_to_string (e : exn) : string :=
  match e with
  | Error m => "Error: " ++ m
  | TypeError m => "TypeError: " ++ m
  end.

(** [error.message] *)
Definition exn_message (e : exn) : string :=
  match e with
  | Error m => m
  | TypeError m => m
  end.

(** [String.prototype.toUpperCase], likewise on ASCII characters. *)
Definition upper_ascii (c : ascii) : ascii :=
  let n := nat_of_ascii c in
  if (97 <=? n)%nat && (n <=? 122)%nat then ascii_of_nat (n - 32) else c.

Fixpoint toUpperCase (s : string) : string :=
  match s with
  | EmptyString => EmptyString
  | String c s' => String (upper_ascii c) (toUpperCase s')
  end.

(** [s.startsWith(p)] *)
Definition startsWith (s p : string) : bool := String.prefix p s.

(** [s.includes(t)]: [t] starts at some position of [s]. *)
Fixpoint str_includes (s t : string) : bool :=
  String.prefix t s ||
  match s with
  | EmptyString => false
  | String _ s' => str_includes s' t
  end.

End JS.
Import JS.

(* ===================================================================== *)
(** ** Asynchronous methods *)
(* ===================================================================== *)

Module Async.

(** How a call ends. *)
Inductive outcome (A : Type) : Type :=
| Return (a : A)
| Throw (e : exn).
Arguments Return {A} a.
Arguments Throw {A} e.

(** A method over the mutable state [St].  What was written before a
    [throw] stays written. *)
Definition js (St A : Type) : Type := St -> outcome A * St.

Definition ret {St A} (a : A) : js St A := fun s => (Return a, s).

Definition throw {St A} (e : exn) : js St A := fun s => (Throw e, s).

Definition bind {St A B} (m : js St A) (k : A -> js St B) : js St B :=
  fun s =>
    match m s with
    | (Return a, s') => k a s'
    | (Throw e, s') => (Throw e, s')
    end.

(** [try { m } catch (error) { h error }]. *)
Definition try_catch {St A} (m : js St A) (h : exn -> js St A) : js St A :=
  fun s =>
    match m s with
    | (Return a, s') => (Return a, s')
    | (Throw e, s') => h e s'
    end.

Definition gets {St A} (f : St -> A) : js St A := fun s => (Return (f s), s).

Definition modify {St} (f : St -> St) : js St unit := fun s => (Return tt, f s).

(** Run a method of a component inside the state of its owner. *)
Definition lift {St Sub A} (proj : St -> Sub) (inj : Sub -> St -> St)
    (m : js Sub A) : js St A :=
  fun s => let (r, sub) := m (proj s) in (r, inj sub s).

Definition when {St} (c : bool) (m : js St unit) : js St unit :=
  if c then m else ret tt.

End Async.
Import Async.

Declare Scope js_scope.
Delimit Scope js_scope with js.
Notation "x <- m ;; k" := (bind m (fun x => k))
  (at level 61, m at next level, right associativity) : js_scope.
Notation "m ;;; k" := (bind m (fun _ => k))
  (at level 61, right associativity) : js_scope.
Local Open Scope js_scope.

(* ===================================================================== *)
(** ** Transport *)
(* ===================================================================== *)

Module Transport.

(** The two accessors of the speaker's key-value tree.
    - [GetData p]:   GET /api/getData?path=p&roles=value
    - [SetData p v]: GET /api/setData?path=p&roles=value&value=v, where the
      text of [v] is written by [JSON.stringify]; the request carries the
      document that text encodes. *)
Inductive request : Type :=
| GetData (path : string)
| SetData (path : string) (value : json).

(** What [request] settles to: the parsed body (a body that is not JSON
    is a [JStr], an empty body is [JNull]), or a rejection on a socket
    error or a timeout. *)
Inductive reply : Type :=
| Replied (body : json)
| Failed (message : string).

(** The speaker, as seen from the client: what it answers to a request,
    given the requests it has received so far (oldest first). *)
Definition device : Type := list request -> request -> reply.

Record transport : Type := mkTransport {
  speaker_at : device;
  sent : list request
}.

Definition send (r : request) (t : transport) : transport :=
  mkTransport (speaker_at t) (sent t ++ [r]).

End Transport.
Import Transport.

(* ===================================================================== *)
(** ** lib/KEFModels.ts *)
(* ===================================================================== *)

Module KEFModels.

(** The table below is the revision with the entries "kef-ls50" and
    "auto-detect".  The other revisions of the file differ in the
    capabilities, in the fallback of [getModelConfig] and in those two
    entries; the source lists of the entries they share are the same. *)

Record KEFModelConfig : Type := mkModel {
  name : string;
  sources : list string;
  capabilities : list string;
  energyUsage : option (Z * Z)   (* usageOn, usageOff *)
}.

Definition basic_capabilities : list string :=
  ["onoff"; "volume_set"; "volume_mute"; "source_input"].

Definition dsp_capabilities : list string :=
  ["onoff"; "volume_set"; "volume_mute"; "source_input";
   "bass_extension"; "desk_mode"; "wall_mode"; "speaker_balance"].

(** The entry "auto-detect". *)
Definition auto_detect : KEFModelConfig :=
  mkModel "Auto-detected KEF Speaker"
    ["wifi"; "bluetooth"; "tv"; "optical"; "coaxial"; "analog"; "usb"]
    dsp_capabilities (Some (150, 5)%Z).

Definition KEF_MODELS : list (string * KEFModelConfig) :=
  [ ("kef-lsx2",
     mkModel "KEF LSX II"
       ["wifi"; "bluetooth"; "tv"; "optical"; "analog"; "usb"]
       basic_capabilities (Some (100, 5)%Z));
    ("kef-lsx2lt",
     mkModel "KEF LSX II LT"
       ["wifi"; "bluetooth"; "tv"; "optical"; "usb"]
       basic_capabilities (Some (100, 5)%Z));
    ("kef-ls50w2",
     mkModel "KEF LS50 Wireless II"
       ["wifi"; "bluetooth"; "tv"; "optical"; "coaxial"; "analog"]
       dsp_capabilities (Some (190, 5)%Z));
    ("kef-ls60",
     mkModel "KEF LS60 Wireless"
       ["wifi"; "bluetooth"; "tv"; "optical"; "coaxial"; "analog"]
       dsp_capabilities (Some (450, 2)%Z));
    ("kef-lsx",
     mkModel "KEF LSX"
       ["wifi"; "bluetooth"; "tv"; "optical"; "analog"]
       basic_capabilities (Some (100, 5)%Z));
    ("kef-ls50",
     mkModel "KEF LS50 Wireless"
       ["wifi"; "bluetooth"; "tv"; "optical"; "analog"]
       basic_capabilities (Some (115, 5)%Z));
    ("kef-xio",
     mkModel "KEF XIO Soundbar"
       ["wifi"; "bluetooth"; "tv"; "optical"]
       basic_capabilities (Some (200, 5)%Z));
    ("auto-detect", auto_detect) ].

Fixpoint lookup (k : string) (l : list (string * KEFModelConfig))
  : option KEFModelConfig :=
  match l with
  | [] => None
  | (k', c) :: l' => if k =? k' then Some c else lookup k l'
  end.

(** [KEF_MODELS[modelId] || KEF_MODELS["auto-detect"]]; the table has the
    entry "auto-detect", so the second lookup succeeds.  The lookup is
    that of the table's own entries: an id that names a member of
    [Object.prototype] is outside the model, and no id that the program
    assigns ([getModelId], [detectModelFromSpeaker]) is one. *)
Definition getModelConfig (modelId : string) : KEFModelConfig :=
  match lookup modelId KEF_MODELS with
  | Some c => c
  | None =>
      match lookup "auto-detect" KEF_MODELS with
      | Some c => c
      | None => auto_detect
      end
  end.

(** [Array.prototype.includes] on strings. *)
Definition includes (l : list string) (s : string) : bool :=
  existsb (fun x => x =? s) l.

Definition isSourceSupported (modelId source : string) : bool :=
  let config := getModelConfig modelId in
  includes (sources config) (toLowerCase source).

Definition getAvailableSources (modelId : string) : list string :=
  sources (getModelConfig modelId).

(** The branches of [detectModelFromSpeaker], on the lower-cased model
    string and the upper-cased serial number. *)
Definition detect (model serial : string) : string :=
  if str_includes model "lsx ii lt" || str_includes model "lsx2lt"
     || str_includes model "lsx 2 lt" || startsWith serial "LSX2LT"
  then "kef-lsx2lt"
  else if str_includes model "lsx ii" || str_includes model "lsx2"
          || str_includes model "lsx 2" || startsWith serial "LSX2"
  then "kef-lsx2"
  else if (str_includes model "lsx" && negb (str_includes model "ii")
             && negb (str_includes model "2"))
          || (startsWith serial "LSX" && negb (startsWith serial "LSX2"))
  then "kef-lsx"
  else if str_includes model "ls50 wireless ii" || str_includes model "ls50w2"
          || str_includes model "ls50 wireless 2" || startsWith serial "LS50W2"
  then "kef-ls50w2"
  else if (str_includes model "ls50 wireless" && negb (str_includes model "ii")
             && negb (str_includes model "2"))
          || startsWith serial "LSW"
  then "kef-ls50"
  else if str_includes model "ls60" || startsWith serial "LS60" then "kef-ls60"
  else if str_includes model "xio" || startsWith serial "XIO" then "kef-xio"
  else "auto-detect".

(** [speakerInfo?.model || ""] and [speakerInfo?.serialNumber || ""] are
    values of any type; only a string has [toLowerCase] and
    [toUpperCase]. *)
Definition detectModelFromSpeaker (speakerInfo : jsval) : outcome string :=
  match js_or (get speakerInfo "model") (Some (JStr "")) with
  | Some (JStr rawModel) =>
      match js_or (get speakerInfo "serialNumber") (Some (JStr "")) with
      | Some (JStr rawSerial) =>
          Return (detect (toLowerCase rawModel) (toUpperCase rawSerial))
      | _ => Throw (TypeError "toUpperCase is not a function")
      end
  | _ => Throw (TypeError "toLowerCase is not a function")
  end.

End KEFModels.

(* ===================================================================== *)
(** ** lib/KEFSpeaker.ts *)
(* ===================================================================== *)

Module KEFSpeaker.

(** The private fields of a [KEFSpeaker] that outlive a call. *)
Record fields : Type := mkFields {
  lastActiveSource : string;
  previousVolume : json;
  isMuted : bool;
  repeatMode : string;
  shuffleMode : string
}.

(** [new KEFSpeaker(ip, port, logger)] *)
Definition new : fields := mkFields "wifi" (JNum 50) false "none" "none".

(** A client together with the connection it talks through. *)
Record client : Type := mkClient {
  this : fields;
  http : transport
}.

Definition method (A : Type) : Type := js client A.

Definition set_lastActiveSource (s : string) : method unit :=
  modify (fun c =>
    mkClient (mkFields s (previousVolume (this c)) (isMuted (this c))
                (repeatMode (this c)) (shuffleMode (this c))) (http c)).

Definition set_previousVolume (v : json) : method unit :=
  modify (fun c =>
    mkClient (mkFields (lastActiveSource (this c)) v (isMuted (this c))
                (repeatMode (this c)) (shuffleMode (this c))) (http c)).

Definition set_isMuted (b : bool) : method unit :=
  modify (fun c =>
    mkClient (mkFields (lastActiveSource (this c)) (previousVolume (this c)) b
                (repeatMode (this c)) (shuffleMode (this c))) (http c)).

Definition set_repeatMode (m : string) : method unit :=
  modify (fun c =>
    mkClient (mkFields (lastActiveSource (this c)) (previousVolume (this c))
                (isMuted (this c)) m (shuffleMode (this c))) (http c)).

Definition set_shuffleMode (m : string) : method unit :=
  modify (fun c =>
    mkClient (mkFields (lastActiveSource (this c)) (previousVolume (this c))
                (isMuted (this c)) (repeatMode (this c)) m) (http c)).

(** [request]: the request goes out, then the speaker's answer settles the
    promise. *)
Definition request (r : Transport.request) : method json :=
  fun c =>
    let c' := mkClient (this c) (send r (http c)) in
    match speaker_at (http c) (sent (http c)) r with
    | Replied body => (Return body, c')
    | Failed m => (Throw (Error m), c')
    end.

Definition getData (path : string) : method json :=
  response <- request (GetData path) ;;
  ret response.

Definition setData (path : string) (value : json) : method unit :=
  request (SetData path value) ;;;
  ret tt.

(** [v.toLowerCase()]: only a string has the method. *)
Definition call_toLowerCase (v : jsval) : method string :=
  match v with
  | Some (JStr s) => ret (toLowerCase s)
  | _ => throw (TypeError "toLowerCase is not a function")
  end.

Definition physicalSource : string := "settings:/kef/play/physicalSource".

(** { type: "kefPhysicalSource", kefPhysicalSource: source } *)
Definition source_payload (source : string) : json :=
  JObj [("type", JStr "kefPhysicalSource"); ("kefPhysicalSource", JStr source)].

(** { type: "i32_", i32_: vol } *)
Definition volume_payload (vol : number) : json :=
  JObj [("type", JStr "i32_"); ("i32_", number_to_json vol)].

(** [response && response[0] && response[0].k], as a value. *)
Definition first_field (response : json) (k : string) : jsval :=
  js_and (js_and (Some response) (index0 response)) (get (index0 response) k).

(* --- Power control ---------------------------------------------------- *)

Definition getPowerState : method bool :=
  try_catch
    (response <- getData physicalSource ;;
     if truthy_val (first_field response "kefPhysicalSource") then
       s <- call_toLowerCase (get (index0 response) "kefPhysicalSource") ;;
       ret (negb (s =? "standby"))
     else ret true)
    (fun _ => ret false).

(* --- Source management ------------------------------------------------ *)

Definition getSource : method string :=
  try_catch
    (response <- getData physicalSource ;;
     if truthy_val (first_field response "kefPhysicalSource") then
       source <- call_toLowerCase (get (index0 response) "kefPhysicalSource") ;;
       when (negb (source =? "standby")) (set_lastActiveSource source) ;;;
       ret source
     else ret "wifi")
    (fun error => throw (Error ("Failed to get source: " ++ exn_to_string error))).

Definition setSource (source : string) : method unit :=
  setData physicalSource (source_payload source).

Definition setPowerState (on : bool) : method unit :=
  if on then
    last <- gets (fun c => lastActiveSource (this c)) ;;
    setSource last
  else
    setData physicalSource (source_payload "standby").

(* --- Volume control --------------------------------------------------- *)

Definition getVolume : method json :=
  try_catch
    (response <- getData "player:volume" ;;
     if truthy_val (js_and (Some response) (index0 response)) then
       match get (index0 response) "i32_" with
       | Some v => ret v
       | None => ret (JNum 0)
       end
     else ret (JNum 0))
    (fun error => throw (Error ("Failed to get volume: " ++ exn_to_string error))).

Section Volume.

Variable coerce : json -> number.

Definition clamp_volume (volume : json) : number :=
    Math_min (Fin 100) (Math_max (Fin 0) (Math_round (ToNumber coerce volume))).

Definition setVolume (volume : json) : method unit :=
    let vol := clamp_volume volume in
    setData "player:volume" (volume_payload vol).

  (* --- Mute control --------------------------------------------------- *)

Definition getMuted : method bool :=
    volume <- getVolume ;;
    mutedFlag <- gets (fun c => isMuted (this c)) ;;
    ret (strict_eq (Some volume) (Some (JNum 0)) && mutedFlag).

Definition setMuted (muted : bool) : method unit :=
    if muted then
      currentVolume <- getVolume ;;
      when (num_gtb (ToNumber coerce currentVolume) (Fin 0))
           (set_previousVolume currentVolume) ;;;
      setVolume (JNum 0) ;;;
      set_isMuted true
    else
      previous <- gets (fun c => previousVolume (this c)) ;;
      setVolume previous ;;;
      set_isMuted false.

Definition toggleMute : method unit :=
    muted <- getMuted ;;
    setMuted (negb muted).

End Volume.

(* --- Playback --------------------------------------------------------- *)

Definition playerData : string := "player:player/data".

(** The value of [response && response[0] && response[0].state === "playing"],
    or [false] when the read throws. *)
Definition isPlaying : method jsval :=
  try_catch
    (response <- getData playerData ;;
     ret (js_and (js_and (Some response) (index0 response))
            (Some (JBool (strict_eq (get (index0 response) "state")
                                    (Some (JStr "playing")))))))
    (fun _ => ret (Some (JBool false))).

Definition index0_val (v : jsval) : jsval :=
  match v with
  | Some j => index0 j
  | None => None
  end.

(** The object the album art is looked up in: [None] stands for the
    [return null] exits, [Some playerData] for the value the lookup
    continues with ([playerData] itself may be [undefined]). *)
Definition albumArt_playerData (trackResponse : json) : option jsval :=
  if isArray trackResponse then
    match trackResponse with
    | JArr (x :: _) => Some (Some x)
    | _ => None
    end
  else if truthy_val (get (Some trackResponse) "error") then None
  else
    let data := get (Some trackResponse) "data" in
    if truthy_val data then
      match data with
      | Some (JArr (x :: _)) => Some (Some x)
      | Some (JArr []) => Some (Some JNull)
      | _ => Some data
      end
    else Some (Some trackResponse).

Definition albumArt_icon (playerData : jsval) : json :=
  let trackRoles := get playerData "trackRoles" in
  let player := get playerData "player" in
  if truthy_val (js_and trackRoles (get trackRoles "icon")) then
    match get trackRoles "icon" with Some u => u | None => JNull end
  else if truthy_val (get playerData "icon") then
    match get playerData "icon" with Some u => u | None => JNull end
  else if truthy_val (js_and (js_and player (get player "trackRoles"))
                             (get (get player "trackRoles") "icon")) then
    match get (get player "trackRoles") "icon" with
    | Some u => u
    | None => JNull
    end
  else JNull.

(** [JNull] is [null]. *)
Definition getAlbumArtUrl : method json :=
  try_catch
    (trackResponse <- getData playerData ;;
     if negb (truthy trackResponse) then ret JNull
     else
       match albumArt_playerData trackResponse with
       | None => ret JNull
       | Some playerData =>
           if negb (truthy_val playerData) then ret JNull
           else if strict_eq (get playerData "state") (Some (JStr "stopped"))
           then ret JNull
           else ret (albumArt_icon playerData)
       end)
    (fun _ => ret JNull).

Record KEFPlaybackInfo : Type := mkInfo {
  info_isPlaying : jsval;
  title : jsval;
  artist : jsval;
  album : jsval;
  duration : jsval;
  position : jsval;
  source : jsval;
  albumArtUrl : jsval
}.

Definition with_isPlaying (v : jsval) (i : KEFPlaybackInfo) : KEFPlaybackInfo :=
  mkInfo v (title i) (artist i) (album i) (duration i) (position i) (source i)
         (albumArtUrl i).
Definition with_title (v : jsval) (i : KEFPlaybackInfo) : KEFPlaybackInfo :=
  mkInfo (info_isPlaying i) v (artist i) (album i) (duration i) (position i)
         (source i) (albumArtUrl i).
Definition with_artist (v : jsval) (i : KEFPlaybackInfo) : KEFPlaybackInfo :=
  mkInfo (info_isPlaying i) (title i) v (album i) (duration i) (position i)
         (source i) (albumArtUrl i).
Definition with_album (v : jsval) (i : KEFPlaybackInfo) : KEFPlaybackInfo :=
  mkInfo (info_isPlaying i) (title i) (artist i) v (duration i) (position i)
         (source i) (albumArtUrl i).
Definition with_duration (v : jsval) (i : KEFPlaybackInfo) : KEFPlaybackInfo :=
  mkInfo (info_isPlaying i) (title i) (artist i) (album i) v (position i)
         (source i) (albumArtUrl i).
Definition with_position (v : jsval) (i : KEFPlaybackInfo) : KEFPlaybackInfo :=
  mkInfo (info_isPlaying i) (title i) (artist i) (album i) (duration i) v
         (source i) (albumArtUrl i).
Definition with_source (v : jsval) (i : KEFPlaybackInfo) : KEFPlaybackInfo :=
  mkInfo (info_isPlaying i) (title i) (artist i) (album i) (duration i)
         (position i) v (albumArtUrl i).
Definition with_albumArtUrl (v : jsval) (i : KEFPlaybackInfo) : KEFPlaybackInfo :=
  mkInfo (info_isPlaying i) (title i) (artist i) (album i) (duration i)
         (position i) (source i) v.

(** [if (c) info.f = v;] *)
Definition assign_if (c : bool) (setter : jsval -> KEFPlaybackInfo -> KEFPlaybackInfo)
    (v : jsval) (i : KEFPlaybackInfo) : KEFPlaybackInfo :=
  if c then setter v i else i.

(** The block guarded by [if (track.trackRoles)]. *)
Definition read_trackRoles (track : jsval) (i : KEFPlaybackInfo) : KEFPlaybackInfo :=
  let trackRoles := get track "trackRoles" in
  if truthy_val trackRoles then
    let mediaData := get trackRoles "mediaData" in
    let metaData := get mediaData "metaData" in
    let resources := get mediaData "resources" in
    let i := assign_if (truthy_val (get trackRoles "title"))
               with_title (get trackRoles "title") i in
    let i :=
      if truthy_val (js_and mediaData metaData) then
        let i := assign_if (truthy_val (get metaData "artist"))
                   with_artist (get metaData "artist") i in
        assign_if (truthy_val (get metaData "album"))
          with_album (get metaData "album") i
      else i in
    let i := assign_if
               (truthy_val (js_and (js_and (js_and mediaData resources)
                                      (index0_val resources))
                              (get (index0_val resources) "duration")))
               with_duration (get (index0_val resources) "duration") i in
    assign_if (truthy_val (get trackRoles "icon"))
      with_albumArtUrl (get trackRoles "icon") i
  else i.

(** Path 2: the fields of [track] itself. *)
Definition read_direct (track : jsval) (i : KEFPlaybackInfo) : KEFPlaybackInfo :=
  let i := assign_if (negb (truthy_val (title i)) && truthy_val (get track "title"))
             with_title (get track "title") i in
  let i := assign_if (negb (truthy_val (artist i)) && truthy_val (get track "artist"))
             with_artist (get track "artist") i in
  assign_if (negb (truthy_val (album i)) && truthy_val (get track "album"))
    with_album (get track "album") i.

(** Paths 3 and 4: the fields of [track.metadata], of [track.metaData]. *)
Definition read_nested (key : string) (track : jsval) (i : KEFPlaybackInfo)
  : KEFPlaybackInfo :=
  let m := get track key in
  if truthy_val m then
    let i := assign_if (negb (truthy_val (title i)) && truthy_val (get m "title"))
               with_title (get m "title") i in
    let i := assign_if (negb (truthy_val (artist i)) && truthy_val (get m "artist"))
               with_artist (get m "artist") i in
    assign_if (negb (truthy_val (album i)) && truthy_val (get m "album"))
      with_album (get m "album") i
  else i.

(** Everything [getPlaybackInfo] reads from a track that is not stopped. *)
Definition read_track (track : jsval) (i : KEFPlaybackInfo) : KEFPlaybackInfo :=
  let i := read_trackRoles track i in
  let i := read_direct track i in
  let i := read_nested "metadata" track i in
  let i := read_nested "metaData" track i in
  assign_if (truthy_val (get track "position")) with_position (get track "position") i.

Definition empty_info : KEFPlaybackInfo :=
  mkInfo (Some (JBool false)) None None None None None None None.

(** [info] is filled in place, so the [catch] returns what was assigned
    before the throw: each stage below carries its own handler. *)
Definition getPlaybackInfo : method KEFPlaybackInfo :=
  let info := empty_info in
  try_catch
    (playing <- isPlaying ;;
     let info := with_isPlaying playing info in
     try_catch
       (current <- getSource ;;
        let info := with_source (Some (JStr current)) info in
        try_catch
          (trackResponse <- getData playerData ;;
           if truthy_val (js_and (Some trackResponse) (index0 trackResponse)) then
             let track := index0 trackResponse in
             if strict_eq (get track "state") (Some (JStr "stopped")) then ret info
             else ret (read_track track info)
           else ret info)
          (fun _ => ret info))
       (fun _ => ret info))
    (fun _ => ret info).

(* --- DSP -------------------------------------------------------------- *)

Definition getSubwooferGain : method json :=
  try_catch
    (response <- getData "settings:/kef/dsp/subwooferGain" ;;
     if truthy_val (js_and (Some response) (index0 response)) then
       match get (index0 response) "subwooferGain" with
       | Some (JNum g) => ret (JNum g)
       | _ => ret (JNum 0)
       end
     else ret (JNum 0))
    (fun _ => ret (JNum 0)).

(* --- Snapshot --------------------------------------------------------- *)

Record KEFSettings : Type := mkSettings {
  volume : jsval;
  muted : option bool;
  settings_source : option string;
  standby : option bool;
  subwooferGain : jsval
}.

Definition no_settings : KEFSettings := mkSettings None None None None None.

Definition with_volume (v : json) (s : KEFSettings) : KEFSettings :=
  mkSettings (Some v) (muted s) (settings_source s) (standby s) (subwooferGain s).
Definition with_muted (b : bool) (s : KEFSettings) : KEFSettings :=
  mkSettings (volume s) (Some b) (settings_source s) (standby s) (subwooferGain s).
Definition with_settings_source (x : string) (s : KEFSettings) : KEFSettings :=
  mkSettings (volume s) (muted s) (Some x) (standby s) (subwooferGain s).
Definition with_standby (b : bool) (s : KEFSettings) : KEFSettings :=
  mkSettings (volume s) (muted s) (settings_source s) (Some b) (subwooferGain s).
Definition with_subwooferGain (g : json) (s : KEFSettings) : KEFSettings :=
  mkSettings (volume s) (muted s) (settings_source s) (standby s) (Some g).

(** The two inner [try] blocks; [settings] is filled in place, so a throw
    of [getMuted] keeps the volume already assigned. *)
Definition read_volume_mute (settings : KEFSettings) : method KEFSettings :=
  try_catch
    (v <- getVolume ;;
     let settings := with_volume v settings in
     try_catch
       (m <- getMuted ;;
        ret (with_muted m settings))
       (fun _ => ret settings))
    (fun _ => ret settings).

Definition read_dsp (settings : KEFSettings) : method KEFSettings :=
  try_catch
    (g <- getSubwooferGain ;;
     ret (with_subwooferGain g settings))
    (fun _ => ret settings).

Definition getAllSettings : method KEFSettings :=
  let settings := no_settings in
  try_catch
    (powerState <- getPowerState ;;
     let settings := with_standby (negb powerState) settings in
     try_catch
       (current <- getSource ;;
        let settings := with_settings_source current settings in
        if negb (negb powerState) && negb (current =? "standby") then
          settings <- read_volume_mute settings ;;
          settings <- read_dsp settings ;;
          ret settings
        else ret settings)
       (fun _ => ret (with_standby true settings)))
    (fun _ => ret (with_standby true settings)).

(* --- Repeat and shuffle: local state only ----------------------------- *)

Definition getRepeatMode : method string := gets (fun c => repeatMode (this c)).
Definition setRepeatMode (mode : string) : method unit := set_repeatMode mode.
Definition getShuffleMode : method string := gets (fun c => shuffleMode (this c)).
Definition setShuffleMode (mode : string) : method unit := set_shuffleMode mode.

(* --- Connection test -------------------------------------------------- *)

Definition testConnection : method bool :=
  try_catch (getSource ;;; ret true) (fun _ => ret false).

(* --- Volume steps ----------------------------------------------------- *)

(** [setVolume] on an argument that is a number already, as the callers
    inside the program pass it ([current + step], [value * 100]); such a
    number may be [NaN], which no JSON document denotes. *)
Definition setVolume_number (volume : number) : method unit :=
  let vol := Math_min (Fin 100) (Math_max (Fin 0) (Math_round volume)) in
  setData "player:volume" (volume_payload vol).

Section Steps.

  (** [a + b] and [a - b] for a number [b], as numbers: IEEE 754
      arithmetic, ToPrimitive and, for [+] on a string, concatenation
      belong to the JavaScript runtime. *)
Variable plus : json -> number -> number.
Variable minus : json -> number -> number.



End Steps.

(* --- Subwoofer gain (the revision with DSP setters) -------------------- *)

(** { type: "subwooferGain", subwooferGain: gainValue } *)
Definition gain_payload (gainValue : number) : json :=
  JObj [("type", JStr "subwooferGain"); ("subwooferGain", number_to_json gainValue)].

Section Gain.

Variable coerce : json -> number.

Definition setSubwooferGain (gain : json) : method unit :=
    let gainValue :=
      Math_min (Fin 10) (Math_max (Fin (-10)) (ToNumber coerce gain)) in
    setData "settings:/kef/dsp/subwooferGain" (gain_payload gainValue).

End Gain.

(* --- Speaker information ---------------------------------------------- *)

(** The names that [getModelFromWebInterface] gives to the model it reads
    in the page title ... *)
Definition model_of_title (modelFromTitle : string) : string :=
  if (modelFromTitle =? "LS50 Wireless II") || (modelFromTitle =? "LS50WII")
     || (modelFromTitle =? "LS50W2") then "LS50 Wireless II"
  else if (modelFromTitle =? "LS50 Wireless") || (modelFromTitle =? "LS50W")
  then "LS50 Wireless"
  else if (modelFromTitle =? "LSX II") || (modelFromTitle =? "LSX2")
          || (modelFromTitle =? "LSXII") then "LSX II"
  else if (modelFromTitle =? "LSX II LT") || (modelFromTitle =? "LSX2LT")
  then "LSX II LT"
  else if modelFromTitle =? "LSX" then "LSX"
  else if (modelFromTitle =? "LS60 Wireless") || (modelFromTitle =? "LS60")
  then "LS60 Wireless"
  else if modelFromTitle =? "XIO" then "XIO"
  else modelFromTitle.

(** ... and in the release status; [None] leaves [result.model] unset. *)
Definition model_of_release (modelPart : string) : option string :=
  if (modelPart =? "LS50WII") || (modelPart =? "LS50W2") then Some "LS50 Wireless II"
  else if modelPart =? "LS50W" then Some "LS50 Wireless"
  else if (modelPart =? "LSX2") || (modelPart =? "LSXII") then Some "LSX II"
  else if modelPart =? "LSX2LT" then Some "LSX II LT"
  else if modelPart =? "LSX" then Some "LSX"
  else if modelPart =? "LS60" then Some "LS60 Wireless"
  else if modelPart =? "XIO" then Some "XIO"
  else None.

(** What [getModelFromWebInterface] resolves to; the scrape of the page
    itself (redirects, the two regular expressions) is the work of the
    HTTP layer, and the promise never rejects. *)
Record page : Type := mkPage {
  page_model : option string;
  page_version : option string
}.

(** [ip] is the constant given to the constructor and is left out. *)
Record KEFSpeakerInfo : Type := mkSpeakerInfo {
  info_name : json;
  info_model : string;
  info_firmware : jsval;
  info_serialNumber : jsval
}.

(** [info] together with the local [nameFound]. *)
Record scan : Type := mkScan {
  info : KEFSpeakerInfo;
  nameFound : bool
}.

Definition set_info_name (v : json) : js scan unit :=
  modify (fun s => mkScan (mkSpeakerInfo v (info_model (info s)) (info_firmware (info s))
                             (info_serialNumber (info s))) (nameFound s)).
Definition set_info_model (m : string) : js scan unit :=
  modify (fun s => mkScan (mkSpeakerInfo (info_name (info s)) m (info_firmware (info s))
                             (info_serialNumber (info s))) (nameFound s)).
Definition set_info_firmware (v : jsval) : js scan unit :=
  modify (fun s => mkScan (mkSpeakerInfo (info_name (info s)) (info_model (info s)) v
                             (info_serialNumber (info s))) (nameFound s)).
Definition set_info_serialNumber (v : jsval) : js scan unit :=
  modify (fun s => mkScan (mkSpeakerInfo (info_name (info s)) (info_model (info s))
                             (info_firmware (info s)) v) (nameFound s)).
Definition set_nameFound (b : bool) : js scan unit :=
  modify (fun s => mkScan (info s) b).

(** [promise.then(res => ({type, data: res})).catch(err => ({type, error: err}))] *)
Definition settle {A} (m : method A) : method (outcome A) :=
  fun c => let (r, c') := m c in (Return r, c').

(** The element the API branches read: [result.data[0]] when
    [!result.error && result.data && result.data[0]] holds. *)
Definition first_element (result : outcome json) : option jsval :=
  match result with
  | Return data =>
      if truthy_val (js_and (Some data) (index0 data)) then Some (index0 data)
      else None
  | Throw _ => None
  end.

Definition modelMap : list (string * string) :=
  [("LSW", "LS50 Wireless"); ("LS50W2", "LS50 Wireless II"); ("LSX2", "LSX II");
   ("LSX", "LSX"); ("LS60", "LS60 Wireless")].

(** The loop over [Object.entries(modelMap)], which stops at the first
    prefix of [serial]. *)
Fixpoint model_of_serial (serial : string) (map : list (string * string))
  : option string :=
  match map with
  | [] => None
  | (prefix, model) :: map' =>
      if startsWith serial prefix then Some model else model_of_serial serial map'
  end.

Definition scan_web (web : page) : js scan unit :=
  match page_model web with
  | Some m => when (negb (m =? "")) (set_info_model m)
  | None => ret tt
  end ;;;
  match page_version web with
  | Some v => when (negb (v =? "")) (set_info_firmware (Some (JStr v)))
  | None => ret tt
  end.

Definition scan_serial (result : outcome json) : js scan unit :=
  match first_element result with
  | Some e =>
      let serialValue := js_or (get e "serialNumber") (get e "string_") in
      if truthy_val serialValue then
        set_info_serialNumber serialValue ;;;
        model <- gets (fun s => info_model (info s)) ;;
        if model =? "Unknown" then
          match serialValue with
          | Some (JStr s) =>
              match model_of_serial (toUpperCase s) modelMap with
              | Some m => set_info_model m
              | None => ret tt
              end
          | _ => throw (TypeError "toUpperCase is not a function")
          end
        else ret tt
      else ret tt
  | None => ret tt
  end.

Definition scan_firmware (result : outcome json) : js scan unit :=
  match first_element result with
  | Some e =>
      let fwValue := js_or (get e "firmwareVersion") (get e "string_") in
      firmware <- gets (fun s => info_firmware (info s)) ;;
      when (truthy_val fwValue && negb (truthy_val firmware))
        (set_info_firmware fwValue)
  | None => ret tt
  end.

Definition scan_name (result : outcome json) : js scan unit :=
  found <- gets nameFound ;;
  if negb found then
    match first_element result with
    | Some e =>
        let nameValue :=
          js_or (js_or (get e "speakerName") (get e "deviceName")) (get e "string_") in
        match nameValue with
        | Some v =>
            when (truthy v && negb (strict_eq (Some v) (Some (JStr "KEF Speaker"))))
              (set_info_name v ;;; set_nameFound true)
        | None => ret tt
        end
    | None => ret tt
    end
  else ret tt.

Definition unknown_info : KEFSpeakerInfo :=
  mkSpeakerInfo (JStr "KEF Speaker") "Unknown" None None.

(** The loop over [allResults].  [info] is filled in place, so the
    [catch] keeps what was assigned before a throw. *)
Definition scan_results (web : page) (serial firmware name1 name2 name3 : outcome json)
  : js scan unit :=
  try_catch
    (scan_web web ;;;
     scan_serial serial ;;;
     scan_firmware firmware ;;;
     scan_name name1 ;;;
     scan_name name2 ;;;
     scan_name name3)
    (fun _ => ret tt).

(** The six requests are launched together; the five reads of the API go
    out in the order of [apiPaths], and [Promise.all] keeps that order
    for the results. *)
Definition getSpeakerInfo (web : page) : method KEFSpeakerInfo :=
  serial <- settle (getData "settings:/kef/host/serialNumber") ;;
  firmware <- settle (getData "settings:/kef/host/firmwareVersion") ;;
  name1 <- settle (getData "settings:/kef/host/speakerName") ;;
  name2 <- settle (getData "settings:/deviceName") ;;
  name3 <- settle (getData "settings:/system/deviceName") ;;
  ret (info (snd (scan_results web serial firmware name1 name2 name3
                    (mkScan unknown_info false)))).

End KEFSpeaker.

(* ===================================================================== *)
(** ** lib/KEFSpeaker.ts: playback control *)
(* ===================================================================== *)

Module Playback.

(** What goes over the wire once the controls are counted in: an accessor
    of the key-value tree, or
    GET /api/setData?path=player:player/control&roles=activate&value={"control":c} *)
Inductive wire : Type :=
| Value (r : Transport.request)
| Activate (control : string).

(** The speaker, given everything it has received so far. *)
Definition player : Type := list wire -> wire -> reply.

Record session : Type := mkSession {
  fields_of : KEFSpeaker.fields;
  player_at : player;
  received : list wire
}.

Definition method (A : Type) : Type := js session A.

(** The client that the accessors of [KEFSpeaker] see in the middle of a
    session, and the session once they are done. *)
Definition accessors (s : session) : KEFSpeaker.client :=
  KEFSpeaker.mkClient (fields_of s)
    (mkTransport (fun h r => player_at s (received s ++ map Value h)%list (Value r)) []).

Definition absorb (c : KEFSpeaker.client) (s : session) : session :=
  mkSession (KEFSpeaker.this c) (player_at s)
    (received s ++ map Value (sent (KEFSpeaker.http c)))%list.

Definition on_client {A} (m : KEFSpeaker.method A) : method A :=
  lift accessors absorb m.

(** [request] on the URL of a control. *)
Definition activate (control : string) : method json :=
  fun s =>
    let s' := mkSession (fields_of s) (player_at s)
                (received s ++ [Activate control])%list in
    match player_at s (received s) (Activate control) with
    | Replied body => (Return body, s')
    | Failed m => (Throw (Error m), s')
    end.

Section Controls.

  (** [String(v)] for a value that is not a string belongs to the
      runtime. *)
Variable render : json -> string.

  (** The message of [new Error(errorMessage)]. *)
Definition message_of (errorMessage : jsval) : string :=
    match errorMessage with
    | Some (JStr s) => s
    | Some v => render v
    | None => ""
    end.

  (** The body shared by [sendPlayCommand], [sendPauseCommand],
      [nextTrack] and [previousTrack]. *)
Definition control_command (control : string) : method unit :=
    try_catch
      (response <- activate control ;;
       if truthy_val (js_and (Some response) (get (Some response) "error")) then
         let errorMessage :=
           js_or (get (get (Some response) "error") "message")
                 (Some (JStr "Operation failed")) in
         throw (Error (message_of errorMessage))
       else ret tt)
      (fun error => throw error).

Definition sendPlayCommand : method unit := control_command "play".
Definition sendPauseCommand : method unit := control_command "pause".
Definition nextTrack : method unit := control_command "next".
Definition previousTrack : method unit := control_command "previous".

Definition play : method unit :=
    try_catch
      (response <- on_client (KEFSpeaker.getData KEFSpeaker.playerData) ;;
       if truthy_val (js_and (Some response) (index0 response)) then
         let playerData := index0 response in
         if strict_eq (get playerData "state") (Some (JStr "paused"))
            || strict_eq (get playerData "state") (Some (JStr "stopped"))
         then sendPauseCommand
         else ret tt
       else ret tt)
      (fun _ => sendPauseCommand).

Definition pause : method unit := sendPauseCommand.

Definition togglePlayPause : method unit :=
    try_catch
      (isPlaying <- on_client KEFSpeaker.isPlaying ;;
       if truthy_val isPlaying then pause else play)
      (fun _ => ret tt).

  (** The listener of the capability "speaker_playing" that
      [KEFBaseDevice.registerCapabilities] installs; it touches nothing
      of the device but its speaker. *)
Definition speaker_playing (value : json) : method unit :=
    try_catch
      (if truthy value then play else pause)
      (fun error =>
         if negb (exn_message error =? "")
            && str_includes (exn_message error) "Operation not supported"
         then ret tt
         else throw error).

End Controls.

End Playback.

(* ===================================================================== *)
(** ** lib/KEFBaseDevice.ts *)
(* ===================================================================== *)

Module KEFBaseDevice.

Import KEFModels.

(** A value handed to [setCapabilityValue]: a value as it is, or
    [settings.volume / 100]. *)
Inductive capability_value : Type :=
| Plain (v : jsval)
| Percent (v : json).

(** The calls into the platform and the image helper that the device
    makes. *)
Inductive homey_call : Type :=
| setAvailable
| setUnavailable (message : string)
| setCapabilityValue (capability : string) (value : capability_value)
| ImageUtil_updateAlbumArt (url : json)
| setAlbumArtImage.

(** The platform side of a device: its capabilities, its settings, the
    calls received so far (oldest first), and which calls it rejects. *)
Record homey : Type := mkHomey {
  capabilities_of : list string;
  polling_interval : option Z;
  calls : list homey_call;
  rejects : list homey_call -> homey_call -> bool
}.

(** The variables of [startPolling] captured by [poll], in milliseconds. *)
Record polling : Type := mkPolling {
  normalInterval : Z;
  currentInterval : Z;
  failureCount : Z
}.

Record device : Type := mkDevice {
  speaker : KEFSpeaker.client;
  pollInterval : option Z;          (* the running timer and its period *)
  isAvailable : bool;
  modelId : string;
  albumArtImage : bool;             (* was the image created by onInit? *)
  currentAlbumArtUrl : json;        (* JNull is null *)
  platform : homey;
  closure : polling
}.

Definition method (A : Type) : Type := js device A.

Definition on_speaker {A} (m : KEFSpeaker.method A) : method A :=
  lift speaker
    (fun c d => mkDevice c (pollInterval d) (isAvailable d) (modelId d)
                  (albumArtImage d) (currentAlbumArtUrl d) (platform d) (closure d))
    m.

Definition set_pollInterval (t : option Z) : method unit :=
  modify (fun d => mkDevice (speaker d) t (isAvailable d) (modelId d)
                     (albumArtImage d) (currentAlbumArtUrl d) (platform d) (closure d)).

Definition set_isAvailable (b : bool) : method unit :=
  modify (fun d => mkDevice (speaker d) (pollInterval d) b (modelId d)
                     (albumArtImage d) (currentAlbumArtUrl d) (platform d) (closure d)).

Definition set_currentAlbumArtUrl (u : json) : method unit :=
  modify (fun d => mkDevice (speaker d) (pollInterval d) (isAvailable d) (modelId d)
                     (albumArtImage d) u (platform d) (closure d)).

Definition set_platform (h : homey) : method unit :=
  modify (fun d => mkDevice (speaker d) (pollInterval d) (isAvailable d) (modelId d)
                     (albumArtImage d) (currentAlbumArtUrl d) h (closure d)).

Definition set_closure (p : polling) : method unit :=
  modify (fun d => mkDevice (speaker d) (pollInterval d) (isAvailable d) (modelId d)
                     (albumArtImage d) (currentAlbumArtUrl d) (platform d) p).

Definition set_currentInterval (i : Z) : method unit :=
  p <- gets closure ;;
  set_closure (mkPolling (normalInterval p) i (failureCount p)).

Definition set_failureCount (n : Z) : method unit :=
  p <- gets closure ;;
  set_closure (mkPolling (normalInterval p) (currentInterval p) n).

(** An awaited platform call: it is received, then resolves or rejects. *)
Definition await (c : homey_call) : method unit :=
  h <- gets platform ;;
  set_platform (mkHomey (capabilities_of h) (polling_interval h)
                  (calls h ++ [c]) (rejects h)) ;;;
  if rejects h (calls h) c then throw (Error "rejected") else ret tt.

(** [promise.catch(this.error)] *)
Definition await_catch (c : homey_call) : method unit :=
  try_catch (await c) (fun _ => ret tt).

Definition hasCapability (capability : string) : method bool :=
  gets (fun d => includes (capabilities_of (platform d)) capability).

(* --- Capability handlers ---------------------------------------------- *)

Definition onCapabilitySource (value : string) : method unit :=
  try_catch
    (id <- gets modelId ;;
     (if negb (isSourceSupported id value) then
        throw (Error ("Source " ++ value ++ " is not supported by "
                        ++ name (getModelConfig id)))
      else ret tt) ;;;
     on_speaker (KEFSpeaker.setSource value) ;;;
     await_catch (setCapabilityValue "source_input" (Plain (Some (JStr value)))))
    (fun _ => throw (Error "Failed to set source")).

(* --- Snapshot to capabilities ----------------------------------------- *)

Definition updateCapabilities (settings : KEFSpeaker.KEFSettings) : method unit :=
  onoff <- hasCapability "onoff" ;;
  when onoff
    (let powerState :=
       match KEFSpeaker.standby settings with
       | Some b => negb b
       | None => true
       end in
     await_catch (setCapabilityValue "onoff" (Plain (Some (JBool powerState))))) ;;;
  volume_set <- hasCapability "volume_set" ;;
  match KEFSpeaker.volume settings with
  | Some v => when volume_set (await_catch (setCapabilityValue "volume_set" (Percent v)))
  | None => ret tt
  end ;;;
  source_input <- hasCapability "source_input" ;;
  id <- gets modelId ;;
  match KEFSpeaker.settings_source settings with
  | Some s =>
      when (source_input && (negb (s =? "standby") && isSourceSupported id s))
        (await_catch (setCapabilityValue "source_input" (Plain (Some (JStr s)))))
  | None => ret tt
  end.

(* --- Album art -------------------------------------------------------- *)

Definition is_streaming (currentSource : string) : bool :=
  (currentSource =? "wifi") || (currentSource =? "bluetooth").

Definition updateAlbumArt : method unit :=
  image <- gets albumArtImage ;;
  if negb image then ret tt
  else
    available <- gets isAvailable ;;
    if negb available then ret tt
    else
      try_catch
        (currentSource <- on_speaker KEFSpeaker.getSource ;;
         if is_streaming currentSource then
           albumArtUrl <- on_speaker KEFSpeaker.getAlbumArtUrl ;;
           shown <- gets currentAlbumArtUrl ;;
           if negb (strict_eq (Some albumArtUrl) (Some shown)) then
             set_currentAlbumArtUrl albumArtUrl ;;;
             try_catch
               (await (ImageUtil_updateAlbumArt albumArtUrl) ;;;
                await setAlbumArtImage)
               (fun _ => ret tt)
           else ret tt
         else
           shown <- gets currentAlbumArtUrl ;;
           if negb (strict_eq (Some shown) (Some JNull)) then
             set_currentAlbumArtUrl JNull ;;;
             try_catch
               (await (ImageUtil_updateAlbumArt JNull) ;;;
                await setAlbumArtImage)
               (fun _ => ret tt)
           else ret tt)
        (fun _ => ret tt).

(* --- Music metadata --------------------------------------------------- *)

Definition updateMusicMetadata : method unit :=
  try_catch
    (playbackInfo <- on_speaker KEFSpeaker.getPlaybackInfo ;;
     c <- hasCapability "speaker_playing" ;;
     when c (await_catch (setCapabilityValue "speaker_playing"
                            (Plain (KEFSpeaker.info_isPlaying playbackInfo)))) ;;;
     c <- hasCapability "speaker_artist" ;;
     when c (await_catch (setCapabilityValue "speaker_artist"
                            (Plain (js_or (KEFSpeaker.artist playbackInfo)
                                          (Some (JStr "")))))) ;;;
     c <- hasCapability "speaker_track" ;;
     when c (await_catch (setCapabilityValue "speaker_track"
                            (Plain (js_or (KEFSpeaker.title playbackInfo)
                                          (Some (JStr "")))))) ;;;
     c <- hasCapability "speaker_album" ;;
     when c (await_catch (setCapabilityValue "speaker_album"
                            (Plain (js_or (KEFSpeaker.album playbackInfo)
                                          (Some (JStr "")))))) ;;;
     c <- hasCapability "speaker_repeat" ;;
     when c (repeatMode <- on_speaker KEFSpeaker.getRepeatMode ;;
             await_catch (setCapabilityValue "speaker_repeat"
                            (Plain (Some (JStr repeatMode))))) ;;;
     c <- hasCapability "speaker_shuffle" ;;
     when c (shuffleMode <- on_speaker KEFSpeaker.getShuffleMode ;;
             await_catch (setCapabilityValue "speaker_shuffle"
                            (Plain (Some (JBool (shuffleMode =? "all")))))))
    (fun _ => ret tt).

(* --- Polling ---------------------------------------------------------- *)

Definition retryInterval : Z := 30000.
Definition maxFailures : Z := 3.

(** [clearInterval(this.pollInterval); this.pollInterval = setInterval(poll, i)] *)
Definition restart_timer (i : Z) : method unit := set_pollInterval (Some i).

(** The body of [try] in [poll]. *)
Definition poll_try : method unit :=
  deviceSettings <- on_speaker KEFSpeaker.getAllSettings ;;
  available <- gets isAvailable ;;
  when (negb available)
    (set_isAvailable true ;;;
     await setAvailable ;;;
     set_failureCount 0 ;;;
     p <- gets closure ;;
     when (negb (currentInterval p =? normalInterval p)%Z)
       (set_currentInterval (normalInterval p) ;;;
        restart_timer (normalInterval p))) ;;;
  updateCapabilities deviceSettings ;;;
  updateMusicMetadata ;;;
  updateAlbumArt ;;;
  set_failureCount 0.

(** The body of [catch] in [poll]. *)
Definition poll_catch : method unit :=
  p <- gets closure ;;
  set_failureCount (failureCount p + 1) ;;;
  p <- gets closure ;;
  available <- gets isAvailable ;;
  if (maxFailures <=? failureCount p)%Z && available then
    set_isAvailable false ;;;
    await_catch (setUnavailable
      "Device is not responding. Check if it's powered on and connected to the network.") ;;;
    when (negb (currentInterval p =? retryInterval)%Z)
      (set_currentInterval retryInterval ;;;
       restart_timer retryInterval)
  else ret tt.

Definition poll : method unit :=
  try_catch poll_try (fun _ => poll_catch).

(** [(settings.polling_interval || 5) * 1000] *)
Definition normal_interval_of (setting : option Z) : Z :=
  match setting with
  | Some 0%Z | None => 5 * 1000
  | Some n => n * 1000
  end.

Definition startPolling : method unit :=
  setting <- gets (fun d => polling_interval (platform d)) ;;
  available <- gets isAvailable ;;
  let normal := normal_interval_of setting in
  let current := if available then normal else retryInterval in
  set_closure (mkPolling normal current 0) ;;;
  set_pollInterval (Some current).

(* --- Capability handlers, continued ----------------------------------- *)

Definition onCapabilityOnoff (value : bool) : method unit :=
  try_catch
    (on_speaker (KEFSpeaker.setPowerState value))
    (fun _ => throw (Error "Failed to set power state")).

Section Handlers.

Variable coerce : json -> number.

  (** [value * 100], as a number: IEEE 754 multiplication belongs to the
      runtime. *)
Variable times : json -> number -> number.


  (** The handler of "volume_mute", in the revision that has it. *)
Definition onCapabilityMute (value : bool) : method unit :=
    try_catch
      (on_speaker (KEFSpeaker.setMuted coerce value))
      (fun _ => throw (Error "Failed to set mute state")).

End Handlers.

(** The speaker is constructed by [onInit] before the listeners are
    registered, so [!this.speaker] is false. *)
Definition onCapabilityShuffle (value : jsval) : method unit :=
  try_catch
    (match value with
     | Some (JBool b) =>
         let shuffleMode := if b then "all" else "none" in
         on_speaker (KEFSpeaker.setShuffleMode shuffleMode)
     | _ => ret tt
     end)
    (fun _ => throw (Error "Failed to set shuffle")).

Definition validModes : list string := ["none"; "track"; "playlist"].

Definition onCapabilityRepeat (value : jsval) : method unit :=
  try_catch
    (match value with
     | Some (JStr mode) =>
         if mode =? "" then ret tt
         else if negb (includes validModes mode) then ret tt
         else on_speaker (KEFSpeaker.setRepeatMode mode)
     | _ => ret tt
     end)
    (fun _ => throw (Error "Failed to set repeat")).

Definition getCurrentSource : method string :=
  try_catch (on_speaker KEFSpeaker.getSource) (fun _ => ret "unknown").

(* --- State refresh and settings --------------------------------------- *)

Definition updateDeviceState : method unit :=
  try_catch
    (settings <- on_speaker KEFSpeaker.getAllSettings ;;
     updateCapabilities settings ;;;
     updateMusicMetadata ;;;
     updateAlbumArt)
    (fun _ => ret tt).

(** [if (this.pollInterval) { clearInterval(this.pollInterval);
    this.pollInterval = undefined; }] *)
Definition stop_polling : method unit := set_pollInterval None.

Definition set_speaker (c : KEFSpeaker.client) : method unit :=
  modify (fun d => mkDevice c (pollInterval d) (isAvailable d) (modelId d)
                     (albumArtImage d) (currentAlbumArtUrl d) (platform d) (closure d)).

(** [endpoint] is the speaker at [newSettings.ip], [newSettings.port];
    [web] is what the scrape of its page resolves to. *)
Definition onSettings (changedKeys : list string) (endpoint : Transport.device)
    (web : KEFSpeaker.page) : method unit :=
  if includes changedKeys "ip" || includes changedKeys "port" then
    stop_polling ;;;
    set_speaker (KEFSpeaker.mkClient KEFSpeaker.new (mkTransport endpoint [])) ;;;
    try_catch
      (connected <- on_speaker KEFSpeaker.testConnection ;;
       if connected then
         set_isAvailable true ;;;
         await setAvailable ;;;
         try_catch
           (on_speaker (KEFSpeaker.getSpeakerInfo web) ;;; ret tt)
           (fun _ => ret tt) ;;;
         updateDeviceState ;;;
         startPolling
       else throw (Error "Connection test failed"))
      (fun _ =>
         set_isAvailable false ;;;
         await_catch (setUnavailable "Cannot connect to speaker with new settings") ;;;
         startPolling)
  else if includes changedKeys "polling_interval" then
    stop_polling ;;;
    startPolling
  else ret tt.

End KEFBaseDevice.

(* ===================================================================== *)
(** ** app.ts: the flow action "set_source" *)
(* ===================================================================== *)

Module App.

Import KEFBaseDevice.

(** [labels[source] || source], for the own properties of [labels]. *)
Definition getSourceLabel (source : string) : string :=
  if source =? "wifi" then "WiFi"
  else if source =? "bluetooth" then "Bluetooth"
  else if source =? "optical" then "Optical"
  else if source =? "coaxial" then "Coaxial"
  else if source =? "analog" then "Analog"
  else if source =? "tv" then "TV"
  else if source =? "usb" then "USB"
  else source.

Section Flow.

  (** [this.homey.__(key)] and [text.replace(pattern, by)] belong to the
      platform and to the runtime. *)
Variable translate : string -> string.
Variable replace : string -> string -> string -> string.

  (** The run listener of the action card, on [args.source.id]. *)
Definition set_source (id : string) : method bool :=
    try_catch
      (onCapabilitySource id ;;;
       await (setCapabilityValue "source_input" (Plain (Some (JStr id)))) ;;;
       ret true)
      (fun error =>
         if negb (exn_message error =? "")
            && str_includes (exn_message error) "not supported"
         then
           let sourceLabel := getSourceLabel id in
           throw (Error (replace (translate "errors.source_not_supported")
                           "__source__" sourceLabel))
         else throw (Error (translate "errors.source_change_failed"))).

End Flow.

End App.

(* ===================================================================== *)
(** ** Vocabulary of the specification *)
(* ===================================================================== *)

Module Spec.

(** The value a response carries for field [k]: field [k] of its first
    element. *)
Definition reported (k : string) (body : json) : jsval :=
  match index0 body with
  | Some e => get (Some e) k
  | None => None
  end.

(** Rounding to the nearest integer and clamping into an interval. *)
Definition round_half_up (v : Q) : Z := Qfloor (v + (1 # 2)).
Definition clamp (lo hi z : Z) : Z := Z.max lo (Z.min hi z).

(** The value most recently written at [path]. *)
Fixpoint last_write (path : string) (h : list request) : option json :=
  match h with
  | [] => None
  | r :: h' =>
      match last_write path h' with
      | Some v => Some v
      | None =>
          match r with
          | SetData p v => if p =? path then Some v else None
          | GetData _ => None
          end
      end
  end.

(** A speaker that answers every request. *)
Definition reachable (d : Transport.device) : Prop :=
  forall h r, exists body, d h r = Replied body.

(** A speaker that returns, for a path that was written, the document
    written last. *)
Definition faithful (d : Transport.device) : Prop :=
  forall h path v, last_write path h = Some v ->
    d h (GetData path) = Replied (JArr [v]).

(** A speaker whose volume is an integer whenever it reports one. *)
Definition integer_volume (d : Transport.device) : Prop :=
  forall h body v,
    d h (GetData "player:volume") = Replied body ->
    reported "i32_" body = Some v ->
    exists z : Z, v = JNum (inject_Z z).

(** A value that JavaScript finds strictly greater than 0. *)
Definition positive (coerce : json -> number) (v : json) : Prop :=
  num_gtb (ToNumber coerce v) (Fin 0) = true.

(** An integer that is at least 1. *)
Definition positive_integer (v : json) : Prop :=
  exists z : Z, v = JNum (inject_Z z) /\ (1 <= z)%Z.

(** The power state that an answer stands for. *)
Definition power_of (answer : reply) : bool :=
  match answer with
  | Failed _ => false
  | Replied body =>
      let field := reported "kefPhysicalSource" body in
      if truthy_val field then
        match field with
        | Some (JStr s) => negb (toLowerCase s =? "standby")
        | _ => false
        end
      else true
  end.

(** The reads that a standby snapshot leaves out. *)
Definition volume_or_dsp (r : request) : Prop :=
  r = GetData "player:volume" \/ r = GetData "settings:/kef/dsp/subwooferGain".

(** Containment up to letter case. *)
Definition contains_ci (l : list string) (s : string) : Prop :=
  exists x, In x l /\ toLowerCase x = toLowerCase s.

(** The value that wins a field: a value that is present and not empty. *)
Definition non_empty (v : jsval) : jsval := if truthy_val v then v else None.

(** The first non-empty value of a list of candidates. *)
Fixpoint first_non_empty (candidates : list jsval) : jsval :=
  match candidates with
  | [] => None
  | v :: rest => if truthy_val v then v else first_non_empty rest
  end.

(** The four shapes in which player data carries title, artist and
    album. *)
Inductive shape : Type :=
| Flat              (* { title, artist, album } *)
| TrackRoles        (* { trackRoles: { title, mediaData: { metaData: { artist, album } } } } *)
| Metadata          (* { metadata: { title, artist, album } } *)
| MetaData.         (* { metaData: { title, artist, album } } *)

Definition tags (t a b : json) : list (string * json) :=
  [("title", t); ("artist", a); ("album", b)].

(** A track of the given shape; [others] are its remaining fields. *)
Definition track_of (s : shape) (others : list (string * json)) (t a b : json) : json :=
  match s with
  | Flat => JObj (others ++ tags t a b)
  | TrackRoles =>
      JObj (others ++
            [("trackRoles",
              JObj [("title", t);
                    ("mediaData",
                     JObj [("metaData", JObj [("artist", a); ("album", b)])])])])
  | Metadata => JObj (others ++ [("metadata", JObj (tags t a b))])
  | MetaData => JObj (others ++ [("metaData", JObj (tags t a b))])
  end.

(** The remaining fields say nothing about title, artist or album. *)
Definition silent (others : list (string * json)) : Prop :=
  Forall (fun k => assoc k others = None)
    ["trackRoles"; "title"; "artist"; "album"; "metadata"; "metaData"].



(** The platform after it has received the calls [l]. *)
Definition with_calls (l : list KEFBaseDevice.homey_call) (h : KEFBaseDevice.homey)
  : KEFBaseDevice.homey :=
  KEFBaseDevice.mkHomey (KEFBaseDevice.capabilities_of h)
    (KEFBaseDevice.polling_interval h) (KEFBaseDevice.calls h ++ l)
    (KEFBaseDevice.rejects h).



(** What a poll leaves as it is while the device is available. *)
Definition steady (t : option Z) (normal current : Z) (d : KEFBaseDevice.device) : Prop :=
  KEFBaseDevice.isAvailable d = true /\ KEFBaseDevice.pollInterval d = t /\
  KEFBaseDevice.normalInterval (KEFBaseDevice.closure d) = normal /\
  KEFBaseDevice.currentInterval (KEFBaseDevice.closure d) = current.

(** The device after [n] polls in a row. *)
Fixpoint polls (n : nat) (d : KEFBaseDevice.device) : KEFBaseDevice.device :=
  match n with
  | O => d
  | S n' => polls n' (snd (KEFBaseDevice.poll d))
  end.

(** A string of ASCII characters; on such a string the lower-casing of
    the model is that of the runtime. *)
Definition is_ascii (s : string) : bool :=
  forallb (fun a => (nat_of_ascii a <? 128)%nat) (list_ascii_of_string s).

(** A speaker whose source names are ASCII strings. *)
Definition ascii_sources (d : Transport.device) : Prop :=
  forall h body s,
    d h (GetData KEFSpeaker.physicalSource) = Replied body ->
    Spec.reported "kefPhysicalSource" body = Some (JStr s) ->
    is_ascii s = true.

End Spec.

(* ===================================================================== *)
(** ** Sequences of calls on a client *)
(* ===================================================================== *)

Module Trace.

Import KEFSpeaker.

Inductive op : Type :=
| OpGetPowerState
| OpSetPowerState (on : bool)
| OpGetSource
| OpSetSource (source : string)
| OpGetVolume
| OpSetVolume (volume : json)
| OpGetMuted
| OpSetMuted (muted : bool)
| OpToggleMute
| OpIsPlaying
| OpGetAlbumArtUrl
| OpGetPlaybackInfo
| OpGetSubwooferGain
| OpGetAllSettings
| OpTestConnection.

Section Run.

Variable coerce : json -> number.

  (** The client after a call, whether it returned or threw. *)
Definition step (o : op) (c : client) : client :=
    match o with
    | OpGetPowerState => snd (getPowerState c)
    | OpSetPowerState on => snd (setPowerState on c)
    | OpGetSource => snd (getSource c)
    | OpSetSource s => snd (setSource s c)
    | OpGetVolume => snd (getVolume c)
    | OpSetVolume v => snd (setVolume coerce v c)
    | OpGetMuted => snd (getMuted c)
    | OpSetMuted m => snd (setMuted coerce m c)
    | OpToggleMute => snd (toggleMute coerce c)
    | OpIsPlaying => snd (isPlaying c)
    | OpGetAlbumArtUrl => snd (getAlbumArtUrl c)
    | OpGetPlaybackInfo => snd (getPlaybackInfo c)
    | OpGetSubwooferGain => snd (getSubwooferGain c)
    | OpGetAllSettings => snd (getAllSettings c)
    | OpTestConnection => snd (testConnection c)
    end.

Definition run (ops : list op) (c : client) : client :=
    fold_left (fun c o => step o c) ops c.

  (** The volume a call of [setMuted(true)] made on [c] reads first. *)
Definition observed (c : client) : option json :=
    match fst (getVolume c) with
    | Return v => Some v
    | Throw _ => None
    end.

  (** A strictly positive observation replaces what is remembered. *)
Definition remember (obs : option json) (remembered : json) : json :=
    match obs with
    | Some v => if num_gtb (ToNumber coerce v) (Fin 0) then v else remembered
    | None => remembered
    end.

  (** The most recent strictly positive volume that a mute has observed
      during [ops], or [remembered] when there is none. *)
Fixpoint last_positive (ops : list op) (c : client) (remembered : json) : json :=
    match ops with
    | [] => remembered
    | o :: ops' =>
        let remembered' :=
          match o with
          | OpSetMuted true => remember (observed c) remembered
          | OpToggleMute =>
              match getMuted c with
              | (Return false, c') => remember (observed c') remembered
              | _ => remembered
              end
          | _ => remembered
          end in
        last_positive ops' (step o c) remembered'
    end.

  (** The source that a call of [getSource] made on [c] observes: the one
      the speaker's answer carries, in lower case, when it is not empty
      and not "standby". *)
Definition source_read (c : client) : option string :=
    match speaker_at (http c) (sent (http c)) (GetData physicalSource) with
    | Replied body =>
        match Spec.reported "kefPhysicalSource" body with
        | Some (JStr s) =>
            if (s =? "") || (toLowerCase s =? "standby") then None
            else Some (toLowerCase s)
        | _ => None
        end
    | Failed _ => None
    end.

  (** An observed source replaces what is remembered. *)
Definition recall (obs : option string) (remembered : string) : string :=
    match obs with
    | Some s => s
    | None => remembered
    end.

  (** The source most recently observed during [ops], or [remembered]
      when there is none.  [getAllSettings] reads the source after the
      power state, [getPlaybackInfo] after the player state. *)
Fixpoint last_source (ops : list op) (c : client) (remembered : string) : string :=
    match ops with
    | [] => remembered
    | o :: ops' =>
        let remembered' :=
          match o with
          | OpGetSource | OpTestConnection => recall (source_read c) remembered
          | OpGetAllSettings => recall (source_read (snd (getPowerState c))) remembered
          | OpGetPlaybackInfo => recall (source_read (snd (isPlaying c))) remembered
          | _ => remembered
          end in
        last_source ops' (step o c) remembered'
    end.

End Run.

End Trace.

(* ===================================================================== *)
(** ** Speakers and devices used as examples *)
(* ===================================================================== *)

Module Examples.

Import KEFBaseDevice.

(** A speaker that keeps what is written and starts at volume [v0]. *)
Definition storing_speaker (v0 : Z) : Transport.device :=
  fun h r =>
    match r with
    | GetData path =>
        match Spec.last_write path h with
        | Some v => Replied (JArr [v])
        | None =>
            if path =? "player:volume"
            then Replied (JArr [KEFSpeaker.volume_payload (Fin (inject_Z v0))])
            else Replied (JArr [])
        end
    | SetData _ _ => Replied JNull
    end.

(** A speaker that answers every request with the same body. *)
Definition constant_speaker (body : json) : Transport.device :=
  fun _ _ => Replied body.

(** A speaker that is switched off or unplugged. *)
Definition unreachable_speaker : Transport.device :=
  fun _ _ => Failed "connect EHOSTUNREACH".

Definition client_of (d : Transport.device) : KEFSpeaker.client :=
  KEFSpeaker.mkClient KEFSpeaker.new (mkTransport d []).

(** The runtime coercion is never consulted on numbers. *)
Definition no_coercion : json -> number := fun _ => NaN.

(** A platform that accepts every call. *)
Definition accepting (capabilities : list string) (interval : option Z) : homey :=
  mkHomey capabilities interval [] (fun _ _ => false).

Definition player_capabilities : list string :=
  ["onoff"; "volume_set"; "source_input"; "speaker_playing"; "speaker_next";
   "speaker_prev"; "speaker_track"; "speaker_artist"; "speaker_album";
   "speaker_shuffle"; "speaker_repeat"].

(** A paired device of model [id] before [startPolling]. *)
Definition paired (id : string) (d : Transport.device) (available : bool)
    (shown : json) : device :=
  mkDevice (client_of d) None available id true shown
    (accepting player_capabilities (Some 5%Z)) (mkPolling 0 0 0).

(** A speaker that always reports the given physical source. *)
Definition reporting (source : string) : Transport.device :=
  constant_speaker (JArr [JObj [("kefPhysicalSource", JStr source)]]).

(** One track, in a given shape. *)
Definition so_what (sh : Spec.shape) : json :=
  Spec.track_of sh [("state", JStr "playing")]
    (JStr "So What") (JStr "Miles Davis") (JStr "Kind of Blue").


Definition mute_twice : list Trace.op := [Trace.OpSetMuted true; Trace.OpSetMuted true].

Definition mute_unmute : list Trace.op := [Trace.OpSetMuted true; Trace.OpSetMuted false].

(** A paired LSX II whose speaker cannot be reached, once polling has
    started with the default interval of 5 s. *)
Definition unplugged (available : bool) : device :=
  snd (startPolling (paired "kef-lsx2" unreachable_speaker available JNull)).

(** A speaker on "TV" whose later answers carry no source. *)
Definition tv_then_nothing : Transport.device :=
  fun h r =>
    match r, h with
    | GetData _, [] => Replied (JArr [JObj [("kefPhysicalSource", JStr "TV")]])
    | GetData _, _ :: _ => Replied (JArr [])
    | SetData _ _, _ => Replied JNull
    end.

(** A speaker at volume 30 that reports volume 0 once a volume has been
    written. *)
Definition falls_silent : Transport.device :=
  fun h r =>
    match r with
    | GetData _ =>
        match Spec.last_write "player:volume" h with
        | Some _ => Replied (JArr [KEFSpeaker.volume_payload (Fin (inject_Z 0))])
        | None => Replied (JArr [KEFSpeaker.volume_payload (Fin (inject_Z 30))])
        end
    | SetData _ _ => Replied JNull
    end.

End Examples.

(* ===================================================================== *)
(** ** Vocabulary of the further properties *)
(* ===================================================================== *)

Module SpeakerSpec.


(** The mute flag of the client is off. *)
Definition unmuted (c : KEFSpeaker.client) : Prop :=
  KEFSpeaker.isMuted (KEFSpeaker.this c) = false.

(** The ways in which a response carries the player data [p]. *)
Inductive carries : json -> json -> Prop :=
| carries_bare p rest : carries (JArr (p :: rest)) p
| carries_data_array l p rest :
    truthy_val (assoc "error" l) = false ->
    assoc "data" l = Some (JArr (p :: rest)) ->
    carries (JObj l) p
| carries_data l p :
    truthy_val (assoc "error" l) = false ->
    assoc "data" l = Some p -> truthy p = true -> isArray p = false ->
    carries (JObj l) p
| carries_itself p :
    isArray p = false ->
    truthy_val (get (Some p) "error") = false ->
    truthy_val (get (Some p) "data") = false ->
    carries p p.

(** The values of the type [KEFSource]. *)
Definition KEFSource : list string :=
  ["wifi"; "bluetooth"; "tv"; "optical"; "coaxial"; "analog"; "usb"].

(** The model names that the scan of a speaker can produce. *)
Definition model_names : list string :=
  ["LS50 Wireless II"; "LS50 Wireless"; "LSX II"; "LSX II LT"; "LSX";
   "LS60 Wireless"; "XIO"].

(** The spellings of a page title that the title mapping knows. *)
Definition title_aliases : list string :=
  ["LS50 Wireless II"; "LS50WII"; "LS50W2"; "LS50 Wireless"; "LS50W";
   "LSX II"; "LSX2"; "LSXII"; "LSX II LT"; "LSX2LT"; "LSX";
   "LS60 Wireless"; "LS60"; "XIO"].

(** An answer of the speaker as a settled promise. *)
Definition settled (answer : reply) : outcome json :=
  match answer with
  | Replied body => Return body
  | Failed m => Throw (Error m)
  end.

(** The reads of [getSpeakerInfo], in the order of the source. *)
Definition info_paths : list string :=
  ["settings:/kef/host/serialNumber"; "settings:/kef/host/firmwareVersion";
   "settings:/kef/host/speakerName"; "settings:/deviceName";
   "settings:/system/deviceName"].

(** What the speaker answers to the reads of [paths], sent one after the other. *)
Fixpoint answers (d : Transport.device) (h : list request) (paths : list string)
  : list reply :=
  match paths with
  | [] => []
  | p :: paths' => d h (GetData p) :: answers d (h ++ [GetData p]) paths'
  end.

(** The name that one answer offers, if any: the first truthy of
    [speakerName], [deviceName] and [string_], other than the default. *)
Definition usable_name (result : outcome json) : option json :=
  match KEFSpeaker.first_element result with
  | Some e =>
      match js_or (js_or (get e "speakerName") (get e "deviceName")) (get e "string_") with
      | Some v =>
          if truthy v && negb (strict_eq (Some v) (Some (JStr "KEF Speaker")))
          then Some v else None
      | None => None
      end
  | None => None
  end.

Fixpoint first_usable (results : list (outcome json)) : option json :=
  match results with
  | [] => None
  | r :: rest =>
      match usable_name r with
      | Some v => Some v
      | None => first_usable rest
      end
  end.

(** The scan before its first step. *)
Definition fresh_scan : KEFSpeaker.scan := KEFSpeaker.mkScan KEFSpeaker.unknown_info false.

End SpeakerSpec.

Module PlaybackSpec.

Import Playback.

(** The session once the speaker has received [l] as well. *)
Definition after (s : session) (l : list wire) : session :=
  mkSession (fields_of s) (player_at s) (received s ++ l).

(** The read of the player state. *)
Definition player_read : wire := Value (GetData KEFSpeaker.playerData).

Definition pause_or_read (w : wire) : Prop := w = player_read \/ w = Activate "pause".

End PlaybackSpec.

Module DeviceSpec.

Import KEFBaseDevice.

(** The timer runs at the interval that the closure of [startPolling] holds,
    which is the normal interval or the retry interval, and the retry
    interval while the device is unavailable. *)
Definition timer_ok (d : device) : Prop :=
  pollInterval d = Some (currentInterval (closure d)) /\
  (currentInterval (closure d) = normalInterval (closure d) \/
   currentInterval (closure d) = retryInterval) /\
  (isAvailable d = false -> currentInterval (closure d) = retryInterval).

(** The same, with the normal interval known. *)
Definition timer_at (normal : Z) (d : device) : Prop :=
  timer_ok d /\ normalInterval (closure d) = normal.

(** The block of [poll] that brings the device back. *)
Definition recover : method unit :=
  set_isAvailable true ;;;
  await setAvailable ;;;
  set_failureCount 0 ;;;
  p <- gets closure ;;
  when (negb (currentInterval p =? normalInterval p)%Z)
    (set_currentInterval (normalInterval p) ;;;
     restart_timer (normalInterval p)).

(** The device once the platform has received the calls [l] as well. *)
Definition heard (l : list homey_call) (d : device) : device :=
  mkDevice (speaker d) (pollInterval d) (isAvailable d) (modelId d)
    (albumArtImage d) (currentAlbumArtUrl d) (Spec.with_calls l (platform d)) (closure d).

(** The calls by which a snapshot is reported. *)
Inductive reports (id : string) (settings : KEFSpeaker.KEFSettings) : homey_call -> Prop :=
| reports_onoff b :
    reports id settings (setCapabilityValue "onoff" (Plain (Some (JBool b))))
| reports_volume v :
    KEFSpeaker.volume settings = Some v ->
    reports id settings (setCapabilityValue "volume_set" (Percent v))
| reports_source s :
    KEFSpeaker.settings_source settings = Some s ->
    s <> "standby" -> KEFModels.isSourceSupported id s = true ->
    reports id settings (setCapabilityValue "source_input" (Plain (Some (JStr s)))).

(** The calls by which the playback state is displayed: a text is never
    [undefined] and, when it is falsy, it is the empty string. *)
Inductive displays : homey_call -> Prop :=
| displays_playing v : displays (setCapabilityValue "speaker_playing" (Plain v))
| displays_text cap text :
    In cap ["speaker_artist"; "speaker_track"; "speaker_album"] ->
    truthy text = true \/ text = JStr "" ->
    displays (setCapabilityValue cap (Plain (Some text)))
| displays_repeat mode :
    displays (setCapabilityValue "speaker_repeat" (Plain (Some (JStr mode))))
| displays_shuffle b :
    displays (setCapabilityValue "speaker_shuffle" (Plain (Some (JBool b)))).

(** A call that says nothing about availability. *)
Definition routine (c : homey_call) : Prop :=
  match c with
  | setAvailable | setUnavailable _ => False
  | _ => True
  end.

(** The device is marked available and has made only routine calls since
    [base]. *)
Definition quietly_available (base : list homey_call) (d : device) : Prop :=
  isAvailable d = true /\
  exists l, calls (platform d) = (base ++ l)%list /\ Forall routine l.

(** The state in which [startPolling] leaves the timer and its closure. *)
Definition restarted (d : device) : Prop :=
  pollInterval d = Some (currentInterval (closure d)) /\
  failureCount (closure d) = 0%Z /\
  normalInterval (closure d) = normal_interval_of (polling_interval (platform d)) /\
  currentInterval (closure d) =
    (if isAvailable d then normalInterval (closure d) else retryInterval).

(** [new KEFSpeaker(ip, port)] *)
Definition fresh_client (endpoint : Transport.device) : KEFSpeaker.client :=
  KEFSpeaker.mkClient KEFSpeaker.new (mkTransport endpoint []).

(** The catch block of [onSettings]. *)
Definition reconnect_failed : method unit :=
  set_isAvailable false ;;;
  await_catch (setUnavailable "Cannot connect to speaker with new settings") ;;;
  startPolling.

(** The device with another client, and with one more platform call. *)
Definition with_speaker (c : KEFSpeaker.client) (d : device) : device :=
  mkDevice c (pollInterval d) (isAvailable d) (modelId d) (albumArtImage d)
    (currentAlbumArtUrl d) (platform d) (closure d).


End DeviceSpec.

(* ===================================================================== *)
(** ** Reasoning about methods *)
(* ===================================================================== *)

Section Triples.

Context {St : Type}.

  (** [m] keeps [I], whether it returns or throws. *)
Definition preserves (I : St -> Prop) {A} (m : js St A) : Prop :=
    forall s, I s -> I (snd (m s)).

  (** From [P], [m] returns (it does not throw) and establishes [Q]. *)
Definition ensures (P : St -> Prop) {A} (m : js St A) (Q : St -> Prop) : Prop :=
    forall s, P s -> exists a, fst (m s) = Return a /\ Q (snd (m s)).

Variable I : St -> Prop.

Lemma preserves_ret {A} (a : A) : preserves I (ret a).
  Proof. intros s H; exact H. Qed.

Lemma preserves_throw {A} (e : exn) : preserves I (@throw St A e).
  Proof. intros s H; exact H. Qed.

Lemma preserves_gets {A} (f : St -> A) : preserves I (gets f).
  Proof. intros s H; exact H. Qed.

Lemma preserves_modify (f : St -> St) :
    (forall s, I s -> I (f s)) -> preserves I (modify f).
  Proof. intros Hf s H. apply Hf, H. Qed.

Lemma preserves_bind {A B} (m : js St A) (k : A -> js St B) :
    preserves I m -> (forall a, preserves I (k a)) -> preserves I (bind m k).
  Proof.
    intros Hm Hk s H. unfold bind. specialize (Hm s H).
    destruct (m s) as [[a|e] s']; simpl in *; [apply Hk; exact Hm | exact Hm].
  Qed.

Lemma preserves_try_catch {A} (m : js St A) (h : exn -> js St A) :
    preserves I m -> (forall e, preserves I (h e)) -> preserves I (try_catch m h).
  Proof.
    intros Hm Hh s H. unfold try_catch. specialize (Hm s H).
    destruct (m s) as [[a|e] s']; simpl in *; [exact Hm | apply Hh; exact Hm].
  Qed.

Lemma preserves_when (c : bool) (m : js St unit) :
    preserves I m -> preserves I (when c m).
  Proof. intros Hm. destruct c; [exact Hm | apply preserves_ret]. Qed.

Lemma ensures_ret {A} (a : A) : ensures I (ret a) I.
  Proof. intros s H. exists a. split; [reflexivity | exact H]. Qed.

Lemma ensures_gets {A} (f : St -> A) : ensures I (gets f) I.
  Proof. intros s H. exists (f s). split; [reflexivity | exact H]. Qed.

Lemma ensures_modify (f : St -> St) (Q : St -> Prop) :
    (forall s, I s -> Q (f s)) -> ensures I (modify f) Q.
  Proof. intros Hf s H. exists tt. split; [reflexivity | apply Hf, H]. Qed.

Lemma ensures_bind {A B} (m : js St A) (k : A -> js St B) (J Q : St -> Prop) :
    ensures I m J -> (forall a, ensures J (k a) Q) -> ensures I (bind m k) Q.
  Proof.
    intros Hm Hk s H. unfold bind. destruct (Hm s H) as (a & Ha & HJ).
    destruct (m s) as [r s']. simpl in Ha, HJ. subst r. apply Hk, HJ.
  Qed.

Lemma ensures_seq {A B} (m : js St A) (k : A -> js St B) :
  ensures I m I -> (forall a, ensures I (k a) I) -> ensures I (bind m k) I.
Proof. apply ensures_bind. Qed.

(** A value read from the state may be used to choose what runs next. *)
Lemma ensures_gets_bind {A B} (f : St -> A) (k : A -> js St B) (Q : St -> Prop) :
    (forall s, I s -> ensures (fun s' => s' = s) (k (f s)) Q) ->
    ensures I (bind (gets f) k) Q.
  Proof. intros Hk s H. unfold bind, gets. apply (Hk s H s). reflexivity. Qed.

Lemma ensures_try_catch {A} (m : js St A) (h : exn -> js St A) :
    preserves I m -> (forall e, ensures I (h e) I) -> ensures I (try_catch m h) I.
  Proof.
    intros Hm Hh s H. unfold try_catch. specialize (Hm s H).
    destruct (m s) as [[a|e] s']; simpl in *.
    - exists a. split; [reflexivity | exact Hm].
    - apply Hh, Hm.
  Qed.

Lemma ensures_when (c : bool) (m : js St unit) :
    ensures I m I -> ensures I (when c m) I.
  Proof. intros Hm. destruct c; [exact Hm | apply ensures_ret]. Qed.

Lemma ensures_preserves {A} (m : js St A) : ensures I m I -> preserves I m.
  Proof. intros Hm s H. destruct (Hm s H) as (_ & _ & HI). exact HI. Qed.

Lemma ensures_weaken {A} (m : js St A) (P Q : St -> Prop) :
    (forall s, P s -> I s) -> ensures I m Q -> ensures P m Q.
  Proof. intros HP Hm s H. apply Hm, HP, H. Qed.

End Triples.

Create HintDb frame.

#[export] Hint Resolve preserves_ret preserves_throw preserves_gets
  ensures_ret ensures_gets : frame.

Ltac preserve_step :=
  first
    [ apply preserves_bind; [| intros ?]
    | apply preserves_try_catch; [| intros ?]
    | apply preserves_when
    | match goal with
      | |- preserves _ (if ?b then _ else _) => destruct b
      | |- preserves _ (match ?x with _ => _ end) => destruct x
      end ].

Ltac preserve := repeat (solve [auto with frame] || preserve_step).

Ltac ensure_step :=
  first
    [ apply ensures_seq; [| intros ?]
    | apply ensures_try_catch; [| intros ?]
    | apply ensures_when
    | match goal with
      | |- ensures _ (if ?b then _ else _) _ => destruct b
      | |- ensures _ (match ?x with _ => _ end) _ => destruct x
      end ].

Ltac ensure := repeat (solve [auto with frame] || ensure_step).

(** *** What the methods of the client leave alone *)

Section ClientFrames.

Variable I : KEFSpeaker.client -> Prop.

Hypothesis I_send : forall f t r,
    I (KEFSpeaker.mkClient f t) -> I (KEFSpeaker.mkClient f (send r t)).

Lemma request_preserves r : preserves I (KEFSpeaker.request r).
  Proof.
    intros [f t] H. unfold KEFSpeaker.request. cbn.
    destruct (speaker_at t (sent t) r); cbn; apply I_send, H.
  Qed.

#[local] Hint Resolve request_preserves : frame.

Lemma getData_preserves p : preserves I (KEFSpeaker.getData p).
  Proof. unfold KEFSpeaker.getData. preserve. Qed.

Lemma setData_preserves p v : preserves I (KEFSpeaker.setData p v).
  Proof. unfold KEFSpeaker.setData. preserve. Qed.

Lemma call_toLowerCase_preserves v : preserves I (KEFSpeaker.call_toLowerCase v).
  Proof. unfold KEFSpeaker.call_toLowerCase. preserve. Qed.

#[local] Hint Resolve getData_preserves setData_preserves
    call_toLowerCase_preserves : frame.

Lemma getPowerState_preserves : preserves I KEFSpeaker.getPowerState.
  Proof. unfold KEFSpeaker.getPowerState. preserve. Qed.

Lemma getVolume_preserves : preserves I KEFSpeaker.getVolume.
  Proof. unfold KEFSpeaker.getVolume. preserve. Qed.

#[local] Hint Resolve getVolume_preserves : frame.

Lemma getMuted_preserves : preserves I KEFSpeaker.getMuted.
  Proof. unfold KEFSpeaker.getMuted. preserve. Qed.

Lemma setVolume_preserves coerce v : preserves I (KEFSpeaker.setVolume coerce v).
  Proof. unfold KEFSpeaker.setVolume. preserve. Qed.

Lemma isPlaying_preserves : preserves I KEFSpeaker.isPlaying.
  Proof. unfold KEFSpeaker.isPlaying. preserve. Qed.

Lemma getAlbumArtUrl_preserves : preserves I KEFSpeaker.getAlbumArtUrl.
  Proof. unfold KEFSpeaker.getAlbumArtUrl. preserve. Qed.

Lemma getSubwooferGain_preserves : preserves I KEFSpeaker.getSubwooferGain.
  Proof. unfold KEFSpeaker.getSubwooferGain. preserve. Qed.

Lemma setSource_preserves s : preserves I (KEFSpeaker.setSource s).
  Proof. unfold KEFSpeaker.setSource. preserve. Qed.

Lemma setPowerState_preserves on : preserves I (KEFSpeaker.setPowerState on).
  Proof. unfold KEFSpeaker.setPowerState, KEFSpeaker.setSource. preserve. Qed.

#[local] Hint Resolve getPowerState_preserves getMuted_preserves
    isPlaying_preserves getSubwooferGain_preserves : frame.

  (** The remaining methods also write [lastActiveSource]. *)
Hypothesis I_source : forall s, preserves I (KEFSpeaker.set_lastActiveSource s).

#[local] Hint Resolve I_source : frame.

Lemma getSource_preserves : preserves I KEFSpeaker.getSource.
  Proof. unfold KEFSpeaker.getSource. preserve. Qed.

#[local] Hint Resolve getSource_preserves : frame.

Lemma testConnection_preserves : preserves I KEFSpeaker.testConnection.
  Proof. unfold KEFSpeaker.testConnection. preserve. Qed.

Lemma getPlaybackInfo_preserves : preserves I KEFSpeaker.getPlaybackInfo.
  Proof. unfold KEFSpeaker.getPlaybackInfo. preserve. Qed.

Lemma getAllSettings_preserves : preserves I KEFSpeaker.getAllSettings.
  Proof.
    unfold KEFSpeaker.getAllSettings, KEFSpeaker.read_volume_mute,
      KEFSpeaker.read_dsp.
    preserve.
  Qed.

End ClientFrames.

(** *** Responses *)

Lemma first_element_falsy body k :
  truthy_val (js_and (Some body) (index0 body)) = false ->
  Spec.reported k body = None.
Proof.
  unfold Spec.reported, js_and. simpl.
  destruct body as [ | b | q | s | l | l ]; simpl; try reflexivity.
  - destruct s; simpl; [reflexivity | discriminate].
  - destruct l as [|e l]; simpl; [reflexivity|].
    destruct e; simpl; intros H; try reflexivity; discriminate.
  - destruct (assoc "0" l) as [e|]; [|reflexivity].
    destruct e; simpl; intros H; try reflexivity; discriminate.
Qed.

Lemma first_element_reported body k :
  get (index0 body) k = Spec.reported k body.
Proof. unfold Spec.reported. destruct (index0 body); reflexivity. Qed.

Lemma falsy_has_no_field (v : jsval) k : truthy_val v = false -> get v k = None.
Proof.
  destruct v as [[ | b | q | s | l | l ]|]; simpl; try reflexivity; discriminate.
Qed.

Lemma first_field_truthy body k :
  truthy_val (KEFSpeaker.first_field body k) = truthy_val (Spec.reported k body).
Proof.
  unfold KEFSpeaker.first_field.
  destruct (truthy_val (js_and (Some body) (index0 body))) eqn:E.
  - unfold js_and at 1. rewrite E. apply f_equal, first_element_reported.
  - rewrite (first_element_falsy _ k E). unfold js_and at 1. rewrite E. exact E.
Qed.

Lemma last_write_snoc path h v :
  Spec.last_write path (h ++ [SetData path v]) = Some v.
Proof.
  induction h as [|r h IH]; simpl.
  - rewrite String.eqb_refl. reflexivity.
  - rewrite IH. reflexivity.
Qed.

(** *** Numbers *)

Lemma Qle_bool_inject a b : Qle_bool (inject_Z a) (inject_Z b) = (a <=? b)%Z.
Proof. unfold Qle_bool, inject_Z. simpl. rewrite !Z.mul_1_r. reflexivity. Qed.

Lemma clamp_integer (r : Z) :
  Math_min (Fin 100) (Math_max (Fin 0) (Fin (inject_Z r)))
  = Fin (inject_Z (Spec.clamp 0 100 r)).
Proof.
  unfold Spec.clamp, Math_max. cbn [num_leb].
  change 0%Q with (inject_Z 0). rewrite Qle_bool_inject.
  destruct (Z.leb_spec 0 r) as [H|H].
  - unfold Math_min. cbn [num_leb]. change 100%Q with (inject_Z 100).
    rewrite Qle_bool_inject.
    destruct (Z.leb_spec 100 r) as [H'|H'].
    + rewrite Z.min_l, Z.max_r by lia. reflexivity.
    + rewrite Z.min_r, Z.max_r by lia. reflexivity.
  - unfold Math_min. cbn [num_leb]. change (Qle_bool 100 (inject_Z 0)) with false.
    cbn iota. rewrite Z.min_r, Z.max_l by lia. reflexivity.
Qed.

Lemma clamp_volume_number coerce (v : Q) :
  KEFSpeaker.clamp_volume coerce (JNum v)
  = Fin (inject_Z (Spec.clamp 0 100 (Spec.round_half_up v))).
Proof. unfold KEFSpeaker.clamp_volume. cbn [ToNumber Math_round]. apply clamp_integer. Qed.

Lemma round_half_up_integer (z : Z) : Spec.round_half_up (inject_Z z) = z.
Proof.
  unfold Spec.round_half_up.
  assert (Hlo : (inject_Z (Qfloor (inject_Z z + (1 # 2))) <= inject_Z z + (1 # 2))%Q)
    by apply Qfloor_le.
  assert (Hhi : (inject_Z z + (1 # 2) < inject_Z (Qfloor (inject_Z z + (1 # 2)) + 1))%Q)
    by apply Qlt_floor.
  set (r := Qfloor (inject_Z z + (1 # 2))) in *.
  assert (H1 : (r <= z)%Z).
  { destruct (Z_le_gt_dec r z) as [H|H]; [exact H|].
    assert (H' : (inject_Z (z + 1) <= inject_Z r)%Q) by (rewrite <- Zle_Qle; lia).
    rewrite inject_Z_plus in H'. change (inject_Z 1) with 1%Q in H'. lra. }
  assert (H2 : (z < r + 1)%Z).
  { destruct (Z_lt_le_dec z (r + 1)) as [H|H]; [exact H|].
    assert (H' : (inject_Z (r + 1) <= inject_Z z)%Q) by (rewrite <- Zle_Qle; lia).
    lra. }
  lia.
Qed.

Lemma round_half_up_nearest (v : Q) (m : Z) :
  (Qabs (v - inject_Z (Spec.round_half_up v)) <= Qabs (v - inject_Z m))%Q.
Proof.
  unfold Spec.round_half_up. set (r := Qfloor (v + (1 # 2))).
  assert (Hlo : (inject_Z r <= v + (1 # 2))%Q) by apply Qfloor_le.
  assert (Hhi : (v + (1 # 2) < inject_Z (r + 1))%Q) by apply Qlt_floor.
  rewrite inject_Z_plus in Hhi. change (inject_Z 1) with 1%Q in Hhi.
  assert (Habs : (Qabs (v - inject_Z r) <= 1 # 2)%Q).
  { apply Qabs_Qle_condition. split; lra. }
  destruct (Z.eq_dec m r) as [->|Hne]; [apply Qle_refl|].
  apply Qle_trans with (1 # 2)%Q; [exact Habs|].
  destruct (Z_lt_le_dec m r) as [Hlt|Hge].
  - assert (H1 : (inject_Z m + 1 <= inject_Z r)%Q).
    { change 1%Q with (inject_Z 1). rewrite <- inject_Z_plus, <- Zle_Qle. lia. }
    apply Qle_trans with (v - inject_Z m)%Q; [lra | apply Qle_Qabs].
  - assert (H1 : (inject_Z r + 1 <= inject_Z m)%Q).
    { change 1%Q with (inject_Z 1). rewrite <- inject_Z_plus, <- Zle_Qle. lia. }
    apply Qle_trans with (- (v - inject_Z m))%Q; [lra |].
    rewrite <- Qabs_opp. apply Qle_Qabs.
Qed.

(* ===================================================================== *)
(** ** Volume *)
(* ===================================================================== *)

(** What [getVolume] does with each answer of the speaker. *)
Lemma getVolume_cases (c : KEFSpeaker.client) :
  KEFSpeaker.getVolume c =
  let c' := KEFSpeaker.mkClient (KEFSpeaker.this c)
              (send (GetData "player:volume") (KEFSpeaker.http c)) in
  match speaker_at (KEFSpeaker.http c) (sent (KEFSpeaker.http c))
          (GetData "player:volume") with
  | Failed m => (Throw (Error ("Failed to get volume: Error: " ++ m)), c')
  | Replied body =>
      (Return match Spec.reported "i32_" body with
              | Some v => v
              | None => JNum 0
              end, c')
  end.
Proof.
  unfold KEFSpeaker.getVolume, try_catch, KEFSpeaker.getData, bind,
    KEFSpeaker.request, ret, throw.
  destruct (speaker_at (KEFSpeaker.http c) (sent (KEFSpeaker.http c))
              (GetData "player:volume")) as [body | m]; cbn -[append];
    [|reflexivity].
  destruct (truthy_val (js_and (Some body) (index0 body))) eqn:E.
  - rewrite first_element_reported.
    destruct (Spec.reported "i32_" body); reflexivity.
  - rewrite (first_element_falsy _ "i32_" E). reflexivity.
Qed.

(** C4, as amended.  [getVolume] throws exactly when the transport call
    fails, with the message "Failed to get volume: ..."; when the speaker
    answers, it returns the [i32_] field of the first element of the
    answer, and [0] when that field is missing. *)
Theorem getVolume_outcome (c : KEFSpeaker.client) :
  let answer := speaker_at (KEFSpeaker.http c) (sent (KEFSpeaker.http c))
                  (GetData "player:volume") in
  fst (KEFSpeaker.getVolume c) =
  match answer with
  | Failed m => Throw (Error ("Failed to get volume: Error: " ++ m))
  | Replied body =>
      match Spec.reported "i32_" body with
      | Some v => Return v
      | None => Return (JNum 0)
      end
  end.
Proof.
  cbv zeta. rewrite getVolume_cases. cbv zeta.
  destruct (speaker_at (KEFSpeaker.http c) (sent (KEFSpeaker.http c))
              (GetData "player:volume")) as [body | m]; [|reflexivity].
  destruct (Spec.reported "i32_" body); reflexivity.
Qed.

(** C4, as stated, fails: a speaker that answers [[{}]] reports no volume,
    and [getVolume] returns [0] where the claim has it throw. *)
Lemma getVolume_missing_field_returns_zero :
  let c := Examples.client_of (Examples.constant_speaker (JArr [JObj []])) in
  Spec.reported "i32_" (JArr [JObj []]) = None /\
  fst (KEFSpeaker.getVolume c) = Return (JNum 0) /\
  ~ (exists e, fst (KEFSpeaker.getVolume c) = Throw e).
Proof.
  cbv zeta. split; [reflexivity|]. split; [reflexivity|].
  intros [e H]. cbv in H. discriminate H.
Qed.

(** C3.  For every rational [v], against a speaker that answers and
    returns what was written, [setVolume(v)] writes the integer
    [clamp(round(v), 0, 100)], which lies in [0, 100] and comes from the
    integer nearest to [v], and the [getVolume()] that follows returns
    it. *)
Theorem setVolume_getVolume_roundtrip coerce (d : Transport.device) (v : Q)
    (c : KEFSpeaker.client) :
  Spec.reachable d -> Spec.faithful d -> speaker_at (KEFSpeaker.http c) = d ->
  let n := Spec.clamp 0 100 (Spec.round_half_up v) in
  exists c1 c2,
    KEFSpeaker.setVolume coerce (JNum v) c = (Return tt, c1) /\
    sent (KEFSpeaker.http c1) =
      (sent (KEFSpeaker.http c)
         ++ [SetData "player:volume" (KEFSpeaker.volume_payload (Fin (inject_Z n)))])%list /\
    KEFSpeaker.getVolume c1 = (Return (JNum (inject_Z n)), c2) /\
    (0 <= n <= 100)%Z /\
    (forall m : Z,
        Qabs (v - inject_Z (Spec.round_half_up v)) <= Qabs (v - inject_Z m))%Q.
Proof.
  intros Hr Hf Hd n.
  unfold KEFSpeaker.setVolume, KEFSpeaker.setData, bind, KEFSpeaker.request, ret.
  rewrite clamp_volume_number. fold n.
  destruct (Hr (sent (KEFSpeaker.http c))
              (SetData "player:volume" (KEFSpeaker.volume_payload (Fin (inject_Z n)))))
    as [body Hbody].
  rewrite Hd, Hbody.
  eexists. eexists. split; [reflexivity|]. split; [reflexivity|].
  split.
  - rewrite getVolume_cases.
    cbn [KEFSpeaker.http KEFSpeaker.this send sent speaker_at].
    rewrite Hd, (Hf _ "player:volume" _ (last_write_snoc _ _ _)).
    reflexivity.
  - split; [unfold n, Spec.clamp; lia | intros m; apply round_half_up_nearest].
Qed.
(** *** What the mute methods and a sequence of calls leave alone *)

Section VolumeFrames.

Variable coerce : json -> number.
Variable I : KEFSpeaker.client -> Prop.
Hypothesis I_send : forall f t r,
    I (KEFSpeaker.mkClient f t) -> I (KEFSpeaker.mkClient f (send r t)).
Hypothesis I_source : forall s, preserves I (KEFSpeaker.set_lastActiveSource s).
Hypothesis I_previous : forall v, preserves I (KEFSpeaker.set_previousVolume v).
Hypothesis I_muted : forall b, preserves I (KEFSpeaker.set_isMuted b).

#[local] Hint Resolve I_previous I_muted : frame.

Lemma setMuted_preserves m : preserves I (KEFSpeaker.setMuted coerce m).
  Proof.
    pose proof (getVolume_preserves I I_send).
    pose proof (fun v => setVolume_preserves I I_send coerce v).
    unfold KEFSpeaker.setMuted. preserve.
  Qed.

Lemma toggleMute_preserves : preserves I (KEFSpeaker.toggleMute coerce).
  Proof.
    pose proof (getMuted_preserves I I_send).
    pose proof setMuted_preserves.
    unfold KEFSpeaker.toggleMute. preserve.
  Qed.

Lemma step_preserves o c : I c -> I (Trace.step coerce o c).
  Proof.
    intros H. destruct o; cbn [Trace.step].
    - apply (getPowerState_preserves I I_send), H.
    - apply (setPowerState_preserves I I_send), H.
    - apply (getSource_preserves I I_send I_source), H.
    - apply (setSource_preserves I I_send), H.
    - apply (getVolume_preserves I I_send), H.
    - apply (setVolume_preserves I I_send), H.
    - apply (getMuted_preserves I I_send), H.
    - apply setMuted_preserves, H.
    - apply toggleMute_preserves, H.
    - apply (isPlaying_preserves I I_send), H.
    - apply (getAlbumArtUrl_preserves I I_send), H.
    - apply (getPlaybackInfo_preserves I I_send I_source), H.
    - apply (getSubwooferGain_preserves I I_send), H.
    - apply (getAllSettings_preserves I I_send I_source), H.
    - apply (testConnection_preserves I I_send I_source), H.
  Qed.

Lemma run_preserves ops c : I c -> I (Trace.run coerce ops c).
  Proof.
    revert c. induction ops as [|o ops IH]; intros c H; [exact H|].
    apply IH, step_preserves, H.
  Qed.
End VolumeFrames.

Lemma run_speaker_at coerce ops c :
  speaker_at (KEFSpeaker.http (Trace.run coerce ops c)) = speaker_at (KEFSpeaker.http c).
Proof.
  apply (run_preserves coerce
           (fun c' => speaker_at (KEFSpeaker.http c') = speaker_at (KEFSpeaker.http c)));
    [ intros f t r H; exact H | intros s c' H; exact H | intros v c' H; exact H
    | intros b c' H; exact H | reflexivity ].
Qed.

Lemma setVolume_cases coerce v (c : KEFSpeaker.client) :
  KEFSpeaker.setVolume coerce v c =
  let r := SetData "player:volume"
             (KEFSpeaker.volume_payload (KEFSpeaker.clamp_volume coerce v)) in
  let c' := KEFSpeaker.mkClient (KEFSpeaker.this c) (send r (KEFSpeaker.http c)) in
  match speaker_at (KEFSpeaker.http c) (sent (KEFSpeaker.http c)) r with
  | Replied _ => (Return tt, c')
  | Failed m => (Throw (Error m), c')
  end.
Proof.
  unfold KEFSpeaker.setVolume, KEFSpeaker.setData, bind, KEFSpeaker.request, ret.
  cbv zeta.
  destruct (speaker_at (KEFSpeaker.http c) (sent (KEFSpeaker.http c)) _); reflexivity.
Qed.

Lemma getVolume_this c :
  KEFSpeaker.this (snd (KEFSpeaker.getVolume c)) = KEFSpeaker.this c.
Proof.
  rewrite getVolume_cases. cbv zeta.
  destruct (speaker_at (KEFSpeaker.http c) (sent (KEFSpeaker.http c)) _); reflexivity.
Qed.

Lemma getMuted_this c :
  KEFSpeaker.this (snd (KEFSpeaker.getMuted c)) = KEFSpeaker.this c.
Proof.
  unfold KEFSpeaker.getMuted, bind, gets, ret. rewrite getVolume_cases. cbv zeta.
  destruct (speaker_at (KEFSpeaker.http c) (sent (KEFSpeaker.http c)) _); reflexivity.
Qed.

Lemma setMuted_false_cases coerce (c : KEFSpeaker.client) :
  KEFSpeaker.setMuted coerce false c =
  let f := KEFSpeaker.this c in
  let r := SetData "player:volume"
             (KEFSpeaker.volume_payload
                (KEFSpeaker.clamp_volume coerce (KEFSpeaker.previousVolume f))) in
  let t := send r (KEFSpeaker.http c) in
  match speaker_at (KEFSpeaker.http c) (sent (KEFSpeaker.http c)) r with
  | Replied _ =>
      (Return tt,
       KEFSpeaker.mkClient
         (KEFSpeaker.mkFields (KEFSpeaker.lastActiveSource f)
            (KEFSpeaker.previousVolume f) false
            (KEFSpeaker.repeatMode f) (KEFSpeaker.shuffleMode f)) t)
  | Failed m => (Throw (Error m), KEFSpeaker.mkClient f t)
  end.
Proof.
  unfold KEFSpeaker.setMuted, bind, gets. rewrite setVolume_cases. cbv zeta.
  destruct (speaker_at (KEFSpeaker.http c) (sent (KEFSpeaker.http c)) _); reflexivity.
Qed.

Lemma setMuted_true_remembers coerce c :
  KEFSpeaker.previousVolume (KEFSpeaker.this (snd (KEFSpeaker.setMuted coerce true c)))
  = Trace.remember coerce (Trace.observed c)
      (KEFSpeaker.previousVolume (KEFSpeaker.this c)).
Proof.
  unfold KEFSpeaker.setMuted, Trace.observed, Trace.remember, bind.
  rewrite getVolume_cases. cbv zeta.
  destruct (speaker_at (KEFSpeaker.http c) (sent (KEFSpeaker.http c)) _)
    as [body|m]; [|reflexivity].
  cbn [fst]. set (v := match Spec.reported "i32_" body with Some v => v | None => JNum 0 end).
  destruct (num_gtb (ToNumber coerce v) (Fin 0)); cbn [when];
    unfold KEFSpeaker.set_previousVolume, KEFSpeaker.set_isMuted, modify, ret;
    rewrite setVolume_cases; cbv zeta;
    cbn [KEFSpeaker.http KEFSpeaker.this send sent speaker_at];
    match goal with |- context [speaker_at ?t ?h ?r] => destruct (speaker_at t h r) end;
    reflexivity.
Qed.

Lemma toggleMute_remembers coerce c :
  KEFSpeaker.previousVolume (KEFSpeaker.this (snd (KEFSpeaker.toggleMute coerce c)))
  = match KEFSpeaker.getMuted c with
    | (Return false, c') =>
        Trace.remember coerce (Trace.observed c')
          (KEFSpeaker.previousVolume (KEFSpeaker.this c))
    | _ => KEFSpeaker.previousVolume (KEFSpeaker.this c)
    end.
Proof.
  unfold KEFSpeaker.toggleMute, bind.
  pose proof (getMuted_this c) as Hthis.
  destruct (KEFSpeaker.getMuted c) as [[[|]|e] c']; cbn [snd negb] in *.
  - rewrite setMuted_false_cases. cbv zeta.
    destruct (speaker_at _ _ _); cbn; rewrite Hthis; reflexivity.
  - rewrite setMuted_true_remembers, Hthis. reflexivity.
  - rewrite Hthis. reflexivity.
Qed.

Lemma step_previousVolume coerce o c :
  KEFSpeaker.previousVolume (KEFSpeaker.this (Trace.step coerce o c))
  = Trace.last_positive coerce [o] c (KEFSpeaker.previousVolume (KEFSpeaker.this c)).
Proof.
  set (pv := KEFSpeaker.previousVolume (KEFSpeaker.this c)).
  set (I := fun c' => KEFSpeaker.previousVolume (KEFSpeaker.this c') = pv).
  assert (I_send : forall f t r,
             I (KEFSpeaker.mkClient f t) -> I (KEFSpeaker.mkClient f (send r t)))
    by (intros f t r H; exact H).
  assert (I_source : forall s, preserves I (KEFSpeaker.set_lastActiveSource s))
    by (intros s c' H; exact H).
  assert (Hc : I c) by reflexivity.
  destruct o; cbn [Trace.step Trace.last_positive].
  - apply (getPowerState_preserves I I_send), Hc.
  - apply (setPowerState_preserves I I_send), Hc.
  - apply (getSource_preserves I I_send I_source), Hc.
  - apply (setSource_preserves I I_send), Hc.
  - apply (getVolume_preserves I I_send), Hc.
  - apply (setVolume_preserves I I_send), Hc.
  - apply (getMuted_preserves I I_send), Hc.
  - destruct muted.
    + apply setMuted_true_remembers.
    + rewrite setMuted_false_cases. cbv zeta. destruct (speaker_at _ _ _); reflexivity.
  - rewrite toggleMute_remembers.
    destruct (KEFSpeaker.getMuted c) as [[[|]|e] c']; reflexivity.
  - apply (isPlaying_preserves I I_send), Hc.
  - apply (getAlbumArtUrl_preserves I I_send), Hc.
  - apply (getPlaybackInfo_preserves I I_send I_source), Hc.
  - apply (getSubwooferGain_preserves I I_send), Hc.
  - apply (getAllSettings_preserves I I_send I_source), Hc.
  - apply (testConnection_preserves I I_send I_source), Hc.
Qed.

Lemma run_previousVolume coerce ops c :
  KEFSpeaker.previousVolume (KEFSpeaker.this (Trace.run coerce ops c))
  = Trace.last_positive coerce ops c (KEFSpeaker.previousVolume (KEFSpeaker.this c)).
Proof.
  revert c. induction ops as [|o ops IH]; intros c; [reflexivity|].
  cbn [Trace.run fold_left]. fold (Trace.run coerce ops (Trace.step coerce o c)).
  rewrite IH, step_previousVolume. reflexivity.
Qed.

(** *** The remembered volume *)

Lemma remember_positive coerce obs pv :
  Spec.positive coerce pv -> Spec.positive coerce (Trace.remember coerce obs pv).
Proof.
  intros H. unfold Trace.remember. destruct obs as [v|]; [|exact H].
  destruct (num_gtb (ToNumber coerce v) (Fin 0)) eqn:E; [exact E | exact H].
Qed.

Lemma last_positive_positive coerce ops c pv :
  Spec.positive coerce pv -> Spec.positive coerce (Trace.last_positive coerce ops c pv).
Proof.
  revert c pv. induction ops as [|o ops IH]; intros c pv H; [exact H|].
  cbn [Trace.last_positive]. apply IH.
  destruct o; try exact H.
  - destruct muted; [apply remember_positive, H | exact H].
  - destruct (KEFSpeaker.getMuted c) as [[[|]|e] c'];
      [exact H | apply remember_positive, H | exact H].
Qed.

Lemma observed_integer c v :
  Spec.integer_volume (speaker_at (KEFSpeaker.http c)) ->
  Trace.observed c = Some v -> exists z : Z, v = JNum (inject_Z z).
Proof.
  intros Hd. unfold Trace.observed. rewrite getVolume_cases. cbv zeta.
  destruct (speaker_at (KEFSpeaker.http c) (sent (KEFSpeaker.http c)) _)
    as [body|m] eqn:E; cbn [fst]; [|discriminate].
  destruct (Spec.reported "i32_" body) as [w|] eqn:Ew; intros [= <-].
  - exact (Hd _ _ _ E Ew).
  - exists 0%Z. reflexivity.
Qed.

Lemma remember_integer coerce c pv :
  Spec.integer_volume (speaker_at (KEFSpeaker.http c)) ->
  Spec.positive_integer pv ->
  Spec.positive_integer (Trace.remember coerce (Trace.observed c) pv).
Proof.
  intros Hd H. unfold Trace.remember.
  destruct (Trace.observed c) as [v|] eqn:E; [|exact H].
  destruct (observed_integer c v Hd E) as [z ->].
  cbn [ToNumber num_gtb num_leb]. change 0%Q with (inject_Z 0).
  rewrite Qle_bool_inject.
  destruct (Z.leb_spec z 0); cbn [negb]; [exact H|].
  exists z. split; [reflexivity | lia].
Qed.

Lemma step_speaker_at coerce o c :
  speaker_at (KEFSpeaker.http (Trace.step coerce o c)) = speaker_at (KEFSpeaker.http c).
Proof. exact (run_speaker_at coerce [o] c). Qed.

Lemma last_positive_integer coerce ops c pv :
  Spec.integer_volume (speaker_at (KEFSpeaker.http c)) ->
  Spec.positive_integer pv ->
  Spec.positive_integer (Trace.last_positive coerce ops c pv).
Proof.
  revert c pv. induction ops as [|o ops IH]; intros c pv Hd H; [exact H|].
  cbn [Trace.last_positive]. apply IH.
  - rewrite step_speaker_at. exact Hd.
  - destruct o; try exact H.
    + destruct muted; [apply remember_integer; assumption | exact H].
    + pose proof (getMuted_preserves
                    (fun c' => speaker_at (KEFSpeaker.http c')
                               = speaker_at (KEFSpeaker.http c))
                    (fun f t r H => H) c eq_refl) as Hat.
      destruct (KEFSpeaker.getMuted c) as [[[|]|e] c']; cbn [snd] in Hat;
        [exact H | | exact H].
      apply remember_integer; [rewrite Hat; exact Hd | exact H].
Qed.

Lemma clamp_volume_integer coerce (z : Z) :
  KEFSpeaker.clamp_volume coerce (JNum (inject_Z z))
  = Fin (inject_Z (Spec.clamp 0 100 z)).
Proof. rewrite clamp_volume_number, round_half_up_integer. reflexivity. Qed.

(** C10, as amended.  The remembered previous volume of a client that
    started fresh is strictly greater than 0 after every sequence of
    calls; a mute that observes a volume that is not strictly positive
    leaves it as it was.  [setMuted(false)] writes the remembered volume
    rounded to the nearest integer and clamped into [0, 100]: against a
    speaker whose volume is an integer this is an integer between 1 and
    100, so never 0; a remembered volume below 1/2 is written as 0. *)
Theorem previousVolume_stays_positive coerce (ops : list Trace.op)
    (c0 : KEFSpeaker.client) :
  KEFSpeaker.this c0 = KEFSpeaker.new ->
  let c := Trace.run coerce ops c0 in
  num_gtb (ToNumber coerce (KEFSpeaker.previousVolume (KEFSpeaker.this c))) (Fin 0)
    = true /\
  (forall v, Trace.observed c = Some v ->
             num_gtb (ToNumber coerce v) (Fin 0) = false ->
             KEFSpeaker.previousVolume
               (KEFSpeaker.this (snd (KEFSpeaker.setMuted coerce true c)))
             = KEFSpeaker.previousVolume (KEFSpeaker.this c)) /\
  (forall q : Q,
     KEFSpeaker.previousVolume (KEFSpeaker.this c) = JNum q ->
     sent (KEFSpeaker.http (snd (KEFSpeaker.setMuted coerce false c))) =
       (sent (KEFSpeaker.http c)
          ++ [SetData "player:volume"
                (JObj [("type", JStr "i32_");
                       ("i32_",
                        JNum (inject_Z (Spec.clamp 0 100 (Spec.round_half_up q))))])])%list) /\
  (Spec.integer_volume (speaker_at (KEFSpeaker.http c0)) ->
   exists n : Z,
     (1 <= n <= 100)%Z /\
     sent (KEFSpeaker.http (snd (KEFSpeaker.setMuted coerce false c))) =
       (sent (KEFSpeaker.http c)
          ++ [SetData "player:volume"
                (JObj [("type", JStr "i32_"); ("i32_", JNum (inject_Z n))])])%list).
Proof.
  intros Hnew c. subst c.
  assert (Hpv : KEFSpeaker.previousVolume (KEFSpeaker.this (Trace.run coerce ops c0))
                = Trace.last_positive coerce ops c0 (JNum 50)).
  { rewrite run_previousVolume, Hnew. reflexivity. }
  split; [| split; [| split]].
  - rewrite Hpv. apply last_positive_positive. reflexivity.
  - intros v Hobs Hv. rewrite setMuted_true_remembers, Hobs.
    unfold Trace.remember. rewrite Hv. reflexivity.
  - intros q Hq. rewrite setMuted_false_cases. cbv zeta.
    rewrite Hq, clamp_volume_number.
    destruct (speaker_at _ _ _); reflexivity.
  - intros Hd.
    destruct (last_positive_integer coerce ops c0 (JNum 50) Hd) as (z & Hz & Hz1).
    { exists 50%Z. split; [reflexivity | lia]. }
    exists (Spec.clamp 0 100 z). split; [unfold Spec.clamp; lia |].
    rewrite setMuted_false_cases. cbv zeta. rewrite Hpv, Hz, clamp_volume_integer.
    destruct (speaker_at _ _ _); reflexivity.
Qed.

(** C2, as amended.  Against a speaker that answers and returns what was
    written, after any sequence of calls on a fresh client:
    [setMuted(true)] followed by [getMuted()] returns [true];
    [setMuted(false)] writes the most recent strictly positive volume that
    a mute has observed, or 50 when no mute has observed one, rounded and
    clamped as by [setVolume] (unchanged when it is an integer of
    [0, 100]), the speaker then reports that volume, and the mute flag is
    [false]. *)
Theorem setMuted_restores_last_positive coerce (d : Transport.device)
    (ops : list Trace.op) (c0 : KEFSpeaker.client) :
  Spec.reachable d -> Spec.faithful d ->
  speaker_at (KEFSpeaker.http c0) = d -> KEFSpeaker.this c0 = KEFSpeaker.new ->
  let c := Trace.run coerce ops c0 in
  let remembered := Trace.last_positive coerce ops c0 (JNum 50) in
  (exists c1 c2,
      KEFSpeaker.setMuted coerce true c = (Return tt, c1) /\
      KEFSpeaker.getMuted c1 = (Return true, c2)) /\
  (exists c3 c4,
      KEFSpeaker.setMuted coerce false c = (Return tt, c3) /\
      sent (KEFSpeaker.http c3) =
        (sent (KEFSpeaker.http c)
           ++ [SetData "player:volume"
                 (KEFSpeaker.volume_payload
                    (KEFSpeaker.clamp_volume coerce remembered))])%list /\
      KEFSpeaker.getVolume c3 =
        (Return (number_to_json (KEFSpeaker.clamp_volume coerce remembered)), c4) /\
      KEFSpeaker.isMuted (KEFSpeaker.this c3) = false) /\
  (forall z : Z, remembered = JNum (inject_Z z) -> (0 <= z <= 100)%Z ->
      KEFSpeaker.clamp_volume coerce remembered = Fin (inject_Z z)).
Proof.
  intros Hr Hf Hd Hnew c remembered.
  assert (Hat : speaker_at (KEFSpeaker.http c) = d).
  { unfold c. rewrite run_speaker_at. exact Hd. }
  assert (Hpv : KEFSpeaker.previousVolume (KEFSpeaker.this c) = remembered).
  { unfold c, remembered. rewrite run_previousVolume, Hnew. reflexivity. }
  clearbody c remembered. split; [|split].
  - unfold KEFSpeaker.setMuted, bind. rewrite getVolume_cases. cbv zeta.
    rewrite Hat.
    destruct (Hr (sent (KEFSpeaker.http c)) (GetData "player:volume")) as [body Hbody].
    rewrite Hbody.
    set (v := match Spec.reported "i32_" body with Some v => v | None => JNum 0 end).
    assert (Hzero : KEFSpeaker.clamp_volume coerce (JNum 0) = Fin (inject_Z 0))
      by reflexivity.
    destruct (num_gtb (ToNumber coerce v) (Fin 0)); cbn [when];
      unfold KEFSpeaker.set_previousVolume, KEFSpeaker.set_isMuted, modify, ret;
      rewrite setVolume_cases; cbv zeta;
      cbn [KEFSpeaker.http KEFSpeaker.this send sent speaker_at];
      rewrite Hat, Hzero;
      match goal with
      | |- context [d ?h ?r] => destruct (Hr h r) as [b Hb]; rewrite Hb
      end;
      (eexists; eexists; split; [reflexivity|]);
      unfold KEFSpeaker.getMuted, bind, gets, ret; rewrite getVolume_cases; cbv zeta;
      cbn [KEFSpeaker.http KEFSpeaker.this send sent speaker_at];
      rewrite Hat, (Hf _ "player:volume" _ (last_write_snoc _ _ _));
      reflexivity.
  - rewrite setMuted_false_cases. cbv zeta. rewrite Hat, Hpv.
    match goal with
    | |- context [d ?h ?r] => destruct (Hr h r) as [b Hb]; rewrite Hb
    end.
    eexists; eexists. split; [reflexivity|]. split; [reflexivity|].
    split; [|reflexivity].
    rewrite getVolume_cases. cbv zeta.
    cbn [KEFSpeaker.http KEFSpeaker.this send sent speaker_at].
    rewrite Hat, (Hf _ "player:volume" _ (last_write_snoc _ _ _)).
    reflexivity.
  - intros z -> Hz. rewrite clamp_volume_integer. unfold Spec.clamp.
    rewrite Z.min_r, Z.max_r by lia. reflexivity.
Qed.

(* ===================================================================== *)
(** ** Power, source and the snapshot *)
(* ===================================================================== *)

(** What [getSource] does with each answer of the speaker. *)
Lemma getSource_cases (c : KEFSpeaker.client) :
  KEFSpeaker.getSource c =
  let f := KEFSpeaker.this c in
  let t := send (GetData KEFSpeaker.physicalSource) (KEFSpeaker.http c) in
  match speaker_at (KEFSpeaker.http c) (sent (KEFSpeaker.http c))
          (GetData KEFSpeaker.physicalSource) with
  | Failed m =>
      (Throw (Error ("Failed to get source: Error: " ++ m)), KEFSpeaker.mkClient f t)
  | Replied body =>
      let field := Spec.reported "kefPhysicalSource" body in
      if truthy_val field then
        match field with
        | Some (JStr s) =>
            (Return (toLowerCase s),
             if toLowerCase s =? "standby" then KEFSpeaker.mkClient f t
             else KEFSpeaker.mkClient
                    (KEFSpeaker.mkFields (toLowerCase s) (KEFSpeaker.previousVolume f)
                       (KEFSpeaker.isMuted f) (KEFSpeaker.repeatMode f)
                       (KEFSpeaker.shuffleMode f)) t)
        | _ =>
            (Throw (Error "Failed to get source: TypeError: toLowerCase is not a function"),
             KEFSpeaker.mkClient f t)
        end
      else (Return "wifi", KEFSpeaker.mkClient f t)
  end.
Proof.
  unfold KEFSpeaker.getSource, try_catch, KEFSpeaker.getData, bind,
    KEFSpeaker.request, ret, throw.
  destruct (speaker_at (KEFSpeaker.http c) (sent (KEFSpeaker.http c)) _)
    as [body | m]; cbn -[append toLowerCase String.eqb]; [|reflexivity].
  rewrite first_field_truthy, first_element_reported.
  destruct (truthy_val (Spec.reported "kefPhysicalSource" body)) eqn:E; [|reflexivity].
  destruct (Spec.reported "kefPhysicalSource" body) as [[ | b | q | s | l | l ]|];
    cbn -[append toLowerCase String.eqb]; try reflexivity.
  destruct (toLowerCase s =? "standby"); reflexivity.
Qed.

Lemma getPowerState_cases (c : KEFSpeaker.client) :
  KEFSpeaker.getPowerState c =
  (Return (Spec.power_of (speaker_at (KEFSpeaker.http c) (sent (KEFSpeaker.http c))
                       (GetData KEFSpeaker.physicalSource))),
   KEFSpeaker.mkClient (KEFSpeaker.this c)
     (send (GetData KEFSpeaker.physicalSource) (KEFSpeaker.http c))).
Proof.
  unfold KEFSpeaker.getPowerState, try_catch, KEFSpeaker.getData, bind,
    KEFSpeaker.request, ret, throw, Spec.power_of.
  destruct (speaker_at (KEFSpeaker.http c) (sent (KEFSpeaker.http c)) _)
    as [body | m]; cbn -[append toLowerCase String.eqb]; [|reflexivity].
  rewrite first_field_truthy, first_element_reported.
  destruct (truthy_val (Spec.reported "kefPhysicalSource" body)) eqn:E; [|reflexivity].
  destruct (Spec.reported "kefPhysicalSource" body) as [[ | b | q | s | l | l ]|];
    reflexivity.
Qed.

Lemma getSource_sent (c : KEFSpeaker.client) :
  sent (KEFSpeaker.http (snd (KEFSpeaker.getSource c)))
  = (sent (KEFSpeaker.http c) ++ [GetData KEFSpeaker.physicalSource])%list.
Proof.
  rewrite getSource_cases. cbv zeta.
  destruct (speaker_at _ _ _) as [body|m]; [|reflexivity].
  destruct (truthy_val _); [|reflexivity].
  destruct (Spec.reported "kefPhysicalSource" body) as [[ | b | q | s | l | l ]|];
    try reflexivity.
  destruct (toLowerCase s =? "standby"); reflexivity.
Qed.

Lemma read_volume_mute_keeps settings c :
  exists s', fst (KEFSpeaker.read_volume_mute settings c) = Return s' /\
             KEFSpeaker.standby s' = KEFSpeaker.standby settings /\
             KEFSpeaker.settings_source s' = KEFSpeaker.settings_source settings.
Proof.
  unfold KEFSpeaker.read_volume_mute, try_catch, bind, ret.
  destruct (KEFSpeaker.getVolume c) as [[v|e] c1].
  - destruct (KEFSpeaker.getMuted c1) as [[m|e] c2]; eexists; cbn; auto.
  - eexists; cbn; auto.
Qed.

Lemma read_dsp_keeps settings c :
  exists s', fst (KEFSpeaker.read_dsp settings c) = Return s' /\
             KEFSpeaker.standby s' = KEFSpeaker.standby settings /\
             KEFSpeaker.settings_source s' = KEFSpeaker.settings_source settings.
Proof.
  unfold KEFSpeaker.read_dsp, try_catch, bind, ret.
  destruct (KEFSpeaker.getSubwooferGain c) as [[v|e] c1]; eexists; cbn; auto.
Qed.

Lemma getAllSettings_returns c :
  exists settings, fst (KEFSpeaker.getAllSettings c) = Return settings.
Proof.
  unfold KEFSpeaker.getAllSettings, try_catch.
  match goal with
  | |- context [match ?m c with _ => _ end] => destruct (m c) as [[s|e] c']
  end; eexists; reflexivity.
Qed.

(** C7.  [getAllSettings] always returns.  Whenever its snapshot says
    standby (power state off, or physical source "standby"), the only
    requests it has sent are the two reads of the physical source: none
    for the volume (which also serves the mute) or for the subwoofer
    gain, whose fields stay unset.  A speaker that answers the first read
    with "standby", in any letter case, yields such a snapshot. *)
Theorem getAllSettings_standby_skips_reads (c : KEFSpeaker.client) :
  (exists settings, fst (KEFSpeaker.getAllSettings c) = Return settings) /\
  (forall settings,
      fst (KEFSpeaker.getAllSettings c) = Return settings ->
      KEFSpeaker.standby settings = Some true \/
      KEFSpeaker.settings_source settings = Some "standby" ->
      sent (KEFSpeaker.http (snd (KEFSpeaker.getAllSettings c))) =
        (sent (KEFSpeaker.http c)
           ++ [GetData KEFSpeaker.physicalSource; GetData KEFSpeaker.physicalSource])%list /\
      (forall r, In r [GetData KEFSpeaker.physicalSource;
                       GetData KEFSpeaker.physicalSource] -> ~ Spec.volume_or_dsp r) /\
      KEFSpeaker.volume settings = None /\
      KEFSpeaker.muted settings = None /\
      KEFSpeaker.subwooferGain settings = None) /\
  (forall body s,
      speaker_at (KEFSpeaker.http c) (sent (KEFSpeaker.http c))
        (GetData KEFSpeaker.physicalSource) = Replied body ->
      Spec.reported "kefPhysicalSource" body = Some (JStr s) ->
      toLowerCase s = "standby" ->
      exists settings, fst (KEFSpeaker.getAllSettings c) = Return settings /\
                       KEFSpeaker.standby settings = Some true).
Proof.
  split; [apply getAllSettings_returns|].
  assert (Hnot : forall r, In r [GetData KEFSpeaker.physicalSource;
                                 GetData KEFSpeaker.physicalSource] -> ~ Spec.volume_or_dsp r).
  { intros r [<-|[<-|[]]] [H|H]; discriminate H. }
  unfold KEFSpeaker.getAllSettings, try_catch, bind, ret.
  rewrite getPowerState_cases.
  set (p := Spec.power_of _).
  set (c1 := KEFSpeaker.mkClient _ _).
  pose proof (getSource_sent c1) as Hsent.
  destruct (KEFSpeaker.getSource c1) as [[current|e] c2] eqn:Hsrc; cbn [snd] in Hsent.
  - destruct (negb (negb p) && negb (current =? "standby")) eqn:Hgo.
    + (* the reads are made: the snapshot does not say standby *)
      apply andb_prop in Hgo. destruct Hgo as [Hp Hcur].
      rewrite negb_involutive in Hp.
      split.
      * intros settings Hret Hstandby. exfalso.
        destruct (read_volume_mute_keeps
                    (KEFSpeaker.with_settings_source current
                       (KEFSpeaker.with_standby (negb p) KEFSpeaker.no_settings)) c2)
          as (s1 & Hs1 & Hst1 & Hso1).
        destruct (KEFSpeaker.read_volume_mute _ c2) as [r1 c3]. cbn [fst] in Hs1. subst r1.
        destruct (read_dsp_keeps s1 c3) as (s2 & Hs2 & Hst2 & Hso2).
        destruct (KEFSpeaker.read_dsp s1 c3) as [r2 c4]. cbn [fst] in Hs2. subst r2.
        cbn in Hret. injection Hret as <-.
        rewrite Hst2, Hst1, Hso2, Hso1 in Hstandby. cbn in Hstandby.
        rewrite Hp in Hstandby. cbn in Hstandby. destruct Hstandby as [H|H]; [discriminate H|].
        injection H as H. rewrite H in Hcur. discriminate Hcur.
      * intros body s Hbody Hrep Hlow. exfalso.
        assert (Hne : (s =? "") = false)
          by (destruct s; [discriminate Hlow | reflexivity]).
        unfold p, Spec.power_of in Hp. rewrite Hbody, Hrep in Hp.
        cbn [truthy_val truthy] in Hp. rewrite Hne, Hlow in Hp. discriminate Hp.
    + split.
      * intros settings Hret _. cbn in Hret. injection Hret as <-.
        cbn [snd]. rewrite Hsent. unfold c1. cbn [KEFSpeaker.http send sent].
        rewrite <- app_assoc. repeat split; try reflexivity. exact Hnot.
      * intros body s Hbody Hrep Hlow. eexists. split; [reflexivity|].
        assert (Hne : (s =? "") = false)
          by (destruct s; [discriminate Hlow | reflexivity]).
        cbn [KEFSpeaker.standby KEFSpeaker.with_standby].
        unfold p, Spec.power_of. rewrite Hbody, Hrep.
        cbn [truthy_val truthy]. rewrite Hne, Hlow. reflexivity.
  - split.
    + intros settings Hret _. cbn in Hret. injection Hret as <-.
      cbn [snd]. rewrite Hsent. unfold c1. cbn [KEFSpeaker.http send sent].
      rewrite <- app_assoc. repeat split; try reflexivity. exact Hnot.
    + intros body s Hbody Hrep Hlow. eexists. split; reflexivity.
Qed.

Lemma setData_cases path value (c : KEFSpeaker.client) :
  KEFSpeaker.setData path value c =
  let c' := KEFSpeaker.mkClient (KEFSpeaker.this c)
              (send (SetData path value) (KEFSpeaker.http c)) in
  match speaker_at (KEFSpeaker.http c) (sent (KEFSpeaker.http c))
          (SetData path value) with
  | Replied _ => (Return tt, c')
  | Failed m => (Throw (Error m), c')
  end.
Proof.
  unfold KEFSpeaker.setData, bind, KEFSpeaker.request, ret. cbv zeta.
  destruct (speaker_at _ _ _); reflexivity.
Qed.

Lemma setPowerState_sent on (c : KEFSpeaker.client) :
  snd (KEFSpeaker.setPowerState on c) =
  KEFSpeaker.mkClient (KEFSpeaker.this c)
    (send (SetData KEFSpeaker.physicalSource
             (KEFSpeaker.source_payload
                (if on then KEFSpeaker.lastActiveSource (KEFSpeaker.this c)
                 else "standby")))
          (KEFSpeaker.http c)).
Proof.
  unfold KEFSpeaker.setPowerState, KEFSpeaker.setSource, bind, gets.
  destruct on; rewrite setData_cases; cbv zeta; destruct (speaker_at _ _ _); reflexivity.
Qed.

(* ===================================================================== *)
(** ** Playback metadata *)
(* ===================================================================== *)

Lemma truthy_js_and a b : truthy_val (js_and a b) = truthy_val a && truthy_val b.
Proof. unfold js_and. destruct (truthy_val a) eqn:E; [reflexivity | exact E]. Qed.

(** Case analysis on every condition of a reading stage. *)
Ltac stage :=
  cbv zeta; unfold KEFSpeaker.assign_if; rewrite ?truthy_js_and;
  repeat match goal with
         | |- context [truthy_val ?x] =>
             lazymatch x with
             | context [if _ then _ else _] => fail
             | _ => idtac
             end;
             let E := fresh "E" in
             destruct (truthy_val x) eqn:E;
             repeat rewrite (falsy_has_no_field x _ E) in *;
             cbn [negb andb truthy_val
                  KEFSpeaker.title KEFSpeaker.artist KEFSpeaker.album
                  KEFSpeaker.with_title KEFSpeaker.with_artist KEFSpeaker.with_album
                  KEFSpeaker.with_duration KEFSpeaker.with_position
                  KEFSpeaker.with_albumArtUrl] in *;
             try discriminate
         end;
  try reflexivity; try congruence.

Section Stages.

Variables (track : jsval) (i : KEFSpeaker.KEFPlaybackInfo).

Let trackRoles := get track "trackRoles".
Let metaData := get (get trackRoles "mediaData") "metaData".

Lemma title_read_trackRoles :
  KEFSpeaker.title (KEFSpeaker.read_trackRoles track i)
  = if truthy_val (get trackRoles "title") then get trackRoles "title"
    else KEFSpeaker.title i.
Proof. subst trackRoles. unfold KEFSpeaker.read_trackRoles. stage. Qed.

Lemma artist_read_trackRoles :
  KEFSpeaker.artist (KEFSpeaker.read_trackRoles track i)
  = if truthy_val (get metaData "artist") then get metaData "artist"
    else KEFSpeaker.artist i.
Proof. subst metaData trackRoles. unfold KEFSpeaker.read_trackRoles. stage. Qed.

Lemma album_read_trackRoles :
  KEFSpeaker.album (KEFSpeaker.read_trackRoles track i)
  = if truthy_val (get metaData "album") then get metaData "album"
    else KEFSpeaker.album i.
Proof. subst metaData trackRoles. unfold KEFSpeaker.read_trackRoles. stage. Qed.

Lemma title_read_direct :
  KEFSpeaker.title (KEFSpeaker.read_direct track i)
  = if negb (truthy_val (KEFSpeaker.title i)) && truthy_val (get track "title")
    then get track "title" else KEFSpeaker.title i.
Proof. unfold KEFSpeaker.read_direct. stage. Qed.

Lemma artist_read_direct :
  KEFSpeaker.artist (KEFSpeaker.read_direct track i)
  = if negb (truthy_val (KEFSpeaker.artist i)) && truthy_val (get track "artist")
    then get track "artist" else KEFSpeaker.artist i.
Proof. unfold KEFSpeaker.read_direct. stage. Qed.

Lemma album_read_direct :
  KEFSpeaker.album (KEFSpeaker.read_direct track i)
  = if negb (truthy_val (KEFSpeaker.album i)) && truthy_val (get track "album")
    then get track "album" else KEFSpeaker.album i.
Proof. unfold KEFSpeaker.read_direct. stage. Qed.

Lemma title_read_nested key :
  KEFSpeaker.title (KEFSpeaker.read_nested key track i)
  = if negb (truthy_val (KEFSpeaker.title i))
       && truthy_val (get (get track key) "title")
    then get (get track key) "title" else KEFSpeaker.title i.
Proof. unfold KEFSpeaker.read_nested. stage. Qed.

Lemma artist_read_nested key :
  KEFSpeaker.artist (KEFSpeaker.read_nested key track i)
  = if negb (truthy_val (KEFSpeaker.artist i))
       && truthy_val (get (get track key) "artist")
    then get (get track key) "artist" else KEFSpeaker.artist i.
Proof. unfold KEFSpeaker.read_nested. stage. Qed.

Lemma album_read_nested key :
  KEFSpeaker.album (KEFSpeaker.read_nested key track i)
  = if negb (truthy_val (KEFSpeaker.album i))
       && truthy_val (get (get track key) "album")
    then get (get track key) "album" else KEFSpeaker.album i.
Proof. unfold KEFSpeaker.read_nested. stage. Qed.

End Stages.

Lemma position_keeps (p : KEFSpeaker.KEFPlaybackInfo -> jsval) c v i :
  (forall v i, p (KEFSpeaker.with_position v i) = p i) ->
  p (KEFSpeaker.assign_if c KEFSpeaker.with_position v i) = p i.
Proof. intros H. destruct c; [apply H | reflexivity]. Qed.

(** Four stages that start from an unset field yield the first non-empty
    candidate. *)
Lemma stages_first_non_empty (c1 c2 c3 c4 : jsval) :
  let x1 := if truthy_val c1 then c1 else None in
  let x2 := if negb (truthy_val x1) && truthy_val c2 then c2 else x1 in
  let x3 := if negb (truthy_val x2) && truthy_val c3 then c3 else x2 in
  let x4 := if negb (truthy_val x3) && truthy_val c4 then c4 else x3 in
  x4 = Spec.first_non_empty [c1; c2; c3; c4].
Proof.
  cbv zeta. cbn [Spec.first_non_empty].
  destruct (truthy_val c1) eqn:E1, (truthy_val c2) eqn:E2,
           (truthy_val c3) eqn:E3, (truthy_val c4) eqn:E4;
    repeat (progress (cbn [negb andb truthy_val]; rewrite ?E1, ?E2, ?E3, ?E4));
    reflexivity.
Qed.

Lemma title_order track i :
  KEFSpeaker.title i = None ->
  KEFSpeaker.title (KEFSpeaker.read_track track i) =
  Spec.first_non_empty
    [get (get track "trackRoles") "title"; get track "title";
     get (get track "metadata") "title"; get (get track "metaData") "title"].
Proof.
  intros Hi. unfold KEFSpeaker.read_track. cbv zeta.
  rewrite (position_keeps KEFSpeaker.title) by reflexivity.
  rewrite !title_read_nested, title_read_direct, title_read_trackRoles, Hi.
  apply stages_first_non_empty.
Qed.

Lemma artist_order track i :
  KEFSpeaker.artist i = None ->
  KEFSpeaker.artist (KEFSpeaker.read_track track i) =
  Spec.first_non_empty
    [get (get (get (get track "trackRoles") "mediaData") "metaData") "artist";
     get track "artist";
     get (get track "metadata") "artist"; get (get track "metaData") "artist"].
Proof.
  intros Hi. unfold KEFSpeaker.read_track. cbv zeta.
  rewrite (position_keeps KEFSpeaker.artist) by reflexivity.
  rewrite !artist_read_nested, artist_read_direct, artist_read_trackRoles, Hi.
  apply stages_first_non_empty.
Qed.

Lemma album_order track i :
  KEFSpeaker.album i = None ->
  KEFSpeaker.album (KEFSpeaker.read_track track i) =
  Spec.first_non_empty
    [get (get (get (get track "trackRoles") "mediaData") "metaData") "album";
     get track "album";
     get (get track "metadata") "album"; get (get track "metaData") "album"].
Proof.
  intros Hi. unfold KEFSpeaker.read_track. cbv zeta.
  rewrite (position_keeps KEFSpeaker.album) by reflexivity.
  rewrite !album_read_nested, album_read_direct, album_read_trackRoles, Hi.
  apply stages_first_non_empty.
Qed.

Lemma assoc_app k l1 l2 :
  assoc k (l1 ++ l2) = match assoc k l1 with Some v => Some v | None => assoc k l2 end.
Proof.
  induction l1 as [|[k' v] l1 IH]; cbn [assoc app]; [reflexivity|].
  destruct (k =? k'); [reflexivity | exact IH].
Qed.

Lemma silent_keys others :
  Spec.silent others ->
  assoc "trackRoles" others = None /\ assoc "title" others = None /\
  assoc "artist" others = None /\ assoc "album" others = None /\
  assoc "metadata" others = None /\ assoc "metaData" others = None.
Proof.
  intros H. unfold Spec.silent in H.
  repeat match goal with
         | H : Forall _ (_ :: _) |- _ => inversion H; clear H; subst
         end.
  repeat split; assumption.
Qed.

Lemma shape_fields sh others t a b i :
  Spec.silent others ->
  KEFSpeaker.title i = None -> KEFSpeaker.artist i = None -> KEFSpeaker.album i = None ->
  let info := KEFSpeaker.read_track (Some (Spec.track_of sh others t a b)) i in
  KEFSpeaker.title info = Spec.non_empty (Some t) /\
  KEFSpeaker.artist info = Spec.non_empty (Some a) /\
  KEFSpeaker.album info = Spec.non_empty (Some b).
Proof.
  intros Hs Ht Ha Hb info. subst info.
  destruct (silent_keys others Hs) as (K1 & K2 & K3 & K4 & K5 & K6).
  rewrite (title_order _ _ Ht), (artist_order _ _ Ha), (album_order _ _ Hb).
  unfold Spec.non_empty.
  destruct sh; cbn [Spec.track_of get]; rewrite !assoc_app, ?K1, ?K2, ?K3, ?K4, ?K5, ?K6;
    cbn [assoc Spec.tags String.eqb Ascii.eqb Bool.eqb get Spec.first_non_empty
         truthy_val andb];
    destruct (truthy t), (truthy a), (truthy b); repeat split; reflexivity.
Qed.

Lemma isPlaying_cases (c : KEFSpeaker.client) :
  KEFSpeaker.isPlaying c =
  (Return match speaker_at (KEFSpeaker.http c) (sent (KEFSpeaker.http c))
                  (GetData KEFSpeaker.playerData) with
          | Failed _ => Some (JBool false)
          | Replied body =>
              js_and (js_and (Some body) (index0 body))
                (Some (JBool (strict_eq (Spec.reported "state" body)
                                (Some (JStr "playing")))))
          end,
   KEFSpeaker.mkClient (KEFSpeaker.this c)
     (send (GetData KEFSpeaker.playerData) (KEFSpeaker.http c))).
Proof.
  unfold KEFSpeaker.isPlaying, try_catch, KEFSpeaker.getData, bind,
    KEFSpeaker.request, ret.
  destruct (speaker_at _ _ _) as [body|m]; [|reflexivity].
  rewrite first_element_reported. reflexivity.
Qed.

Lemma reported_truthy k body v :
  Spec.reported k body = Some v ->
  truthy_val (js_and (Some body) (index0 body)) = true.
Proof.
  intros H. destruct (truthy_val (js_and (Some body) (index0 body))) eqn:E;
    [reflexivity|].
  rewrite (first_element_falsy _ k E) in H. discriminate H.
Qed.

Lemma strict_eq_string (v : jsval) (s : string) :
  strict_eq v (Some (JStr s)) = true <-> v = Some (JStr s).
Proof.
  destruct v as [[ | b | q | x | l | l ]|]; cbn; split; intros H;
    try discriminate H; try reflexivity.
  - apply String.eqb_eq in H. subst. reflexivity.
  - injection H as ->. apply String.eqb_refl.
Qed.

Lemma strict_eq_string_false (v : jsval) (s : string) :
  v <> Some (JStr s) -> strict_eq v (Some (JStr s)) = false.
Proof.
  intros H. destruct (strict_eq v (Some (JStr s))) eqn:E; [|reflexivity].
  apply strict_eq_string in E. contradiction.
Qed.

(** C6.  When the read of the source returns and the player data is
    answered by [body], [getPlaybackInfo] returns an [info] such that:
    - if [body] says "stopped", [info] holds the playing flag and the
      source and nothing else (and the flag is [false] when the first read
      of the player data was answered "stopped" as well);
    - if [body] holds one track in any of the four shapes, with title [t],
      artist [a] and album [b], then title, artist and album of [info] are
      [t], [a] and [b] where these are not empty: the same for the four
      shapes;
    - for any track that is not stopped, each field is the first non-empty
      value among its four places, read in the order trackRoles, direct
      field, metadata, metaData. *)
Theorem getPlaybackInfo_metadata_shapes (c : KEFSpeaker.client) (current : string)
    (body : json) :
  let c1 := snd (KEFSpeaker.isPlaying c) in
  let c2 := snd (KEFSpeaker.getSource c1) in
  fst (KEFSpeaker.getSource c1) = Return current ->
  speaker_at (KEFSpeaker.http c2) (sent (KEFSpeaker.http c2))
    (GetData KEFSpeaker.playerData) = Replied body ->
  exists playing info,
    fst (KEFSpeaker.isPlaying c) = Return playing /\
    fst (KEFSpeaker.getPlaybackInfo c) = Return info /\
    (forall first,
       speaker_at (KEFSpeaker.http c) (sent (KEFSpeaker.http c))
         (GetData KEFSpeaker.playerData) = Replied first ->
       Spec.reported "state" first = Some (JStr "stopped") ->
       playing = Some (JBool false)) /\
    (Spec.reported "state" body = Some (JStr "stopped") ->
       info = KEFSpeaker.with_source (Some (JStr current))
                (KEFSpeaker.with_isPlaying playing KEFSpeaker.empty_info)) /\
    (forall sh others t a b,
       body = JArr [Spec.track_of sh others t a b] ->
       Spec.silent others ->
       assoc "state" others <> Some (JStr "stopped") ->
       KEFSpeaker.title info = Spec.non_empty (Some t) /\
       KEFSpeaker.artist info = Spec.non_empty (Some a) /\
       KEFSpeaker.album info = Spec.non_empty (Some b)) /\
    (forall track,
       index0 body = Some track -> truthy track = true ->
       Spec.reported "state" body <> Some (JStr "stopped") ->
       KEFSpeaker.title info =
         Spec.first_non_empty
           [get (get (Some track) "trackRoles") "title"; get (Some track) "title";
            get (get (Some track) "metadata") "title";
            get (get (Some track) "metaData") "title"] /\
       KEFSpeaker.artist info =
         Spec.first_non_empty
           [get (get (get (get (Some track) "trackRoles") "mediaData") "metaData")
              "artist";
            get (Some track) "artist";
            get (get (Some track) "metadata") "artist";
            get (get (Some track) "metaData") "artist"] /\
       KEFSpeaker.album info =
         Spec.first_non_empty
           [get (get (get (get (Some track) "trackRoles") "mediaData") "metaData")
              "album";
            get (Some track) "album";
            get (get (Some track) "metadata") "album";
            get (get (Some track) "metaData") "album"]).
Proof.
  intros c1 c2 Hsrc Hbody. subst c2 c1.
  unfold KEFSpeaker.getPlaybackInfo, try_catch, bind, ret.
  rewrite isPlaying_cases in *. cbn [fst snd] in *.
  set (playing := match speaker_at _ _ (GetData KEFSpeaker.playerData) with
                  | Replied _ => _ | Failed _ => _ end) in *.
  set (c1 := KEFSpeaker.mkClient _ _) in *.
  destruct (KEFSpeaker.getSource c1) as [[cur|e] c2]; cbn [fst snd] in *;
    [|discriminate Hsrc].
  injection Hsrc as ->.
  unfold KEFSpeaker.getData, bind, KEFSpeaker.request, ret. rewrite Hbody.
  set (nothing := KEFSpeaker.with_source _ _).
  exists playing.
  assert (Hplaying : forall first,
             speaker_at (KEFSpeaker.http c) (sent (KEFSpeaker.http c))
               (GetData KEFSpeaker.playerData) = Replied first ->
             Spec.reported "state" first = Some (JStr "stopped") ->
             playing = Some (JBool false)).
  { intros first Hfirst Hstate. unfold playing. rewrite Hfirst.
    unfold js_and at 1. rewrite (reported_truthy _ _ _ Hstate), Hstate. reflexivity. }
  destruct (truthy_val (js_and (Some body) (index0 body))) eqn:Etrack.
  - rewrite first_element_reported.
    destruct (strict_eq (Spec.reported "state" body) (Some (JStr "stopped"))) eqn:Estop.
    + (* stopped *)
      apply strict_eq_string in Estop.
      exists nothing. cbn [fst]. split; [reflexivity|]. split; [reflexivity|].
      split; [exact Hplaying|]. split; [reflexivity|]. split.
      * intros sh others t a b -> Hs Hstate. exfalso. apply Hstate.
        revert Estop. unfold Spec.reported.
        destruct sh; cbn [index0 Spec.track_of get]; rewrite assoc_app;
          destruct (assoc "state" others); cbn; intros H; congruence.
      * intros track _ _ H. contradiction.
    + exists (KEFSpeaker.read_track (index0 body) nothing). cbn [fst].
      split; [reflexivity|]. split; [reflexivity|]. split; [exact Hplaying|]. split.
      * intros H. rewrite H in Estop. cbn in Estop. discriminate Estop.
      * split.
        -- intros sh others t a b -> Hs _. cbn [index0].
           apply shape_fields; [exact Hs | reflexivity ..].
        -- intros track Htrack _ _. rewrite Htrack.
           split; [apply title_order; reflexivity|].
           split; [apply artist_order | apply album_order]; reflexivity.
  - (* no first element *)
    exists nothing. cbn [fst]. split; [reflexivity|]. split; [reflexivity|].
    split; [exact Hplaying|]. split; [reflexivity|]. split.
    + intros sh others t a b -> _ _. exfalso. destruct sh; cbn in Etrack; discriminate.
    + intros track Htrack Htruthy _. exfalso.
      unfold js_and in Etrack. destruct (truthy_val (Some body)) eqn:Ebody.
      * rewrite Htrack in Etrack. cbn in Etrack. congruence.
      * destruct body as [ | b | q | s | l | l ]; cbn in Htrack, Ebody;
          try discriminate.
        destruct s; discriminate.
Qed.

(* ===================================================================== *)
(** ** The remembered source over sequences of calls *)
(* ===================================================================== *)

Lemma getSource_remembers (c : KEFSpeaker.client) :
  KEFSpeaker.lastActiveSource (KEFSpeaker.this (snd (KEFSpeaker.getSource c)))
  = Trace.recall (Trace.source_read c) (KEFSpeaker.lastActiveSource (KEFSpeaker.this c)).
Proof.
  rewrite getSource_cases. cbv zeta. unfold Trace.source_read, Trace.recall.
  destruct (speaker_at _ _ _) as [body | m]; [| reflexivity].
  destruct (Spec.reported "kefPhysicalSource" body) as [[| b | q | s | l | l] |];
    try (destruct (truthy_val _); reflexivity).
  cbn [truthy_val truthy]. destruct (s =? ""); cbn [negb orb]; [reflexivity |].
  destruct (toLowerCase s =? "standby"); reflexivity.
Qed.

Lemma source_read_returned (c : KEFSpeaker.client) (s : string) :
  Trace.source_read c = Some s ->
  fst (KEFSpeaker.getSource c) = Return s /\ s <> "standby".
Proof.
  rewrite getSource_cases. cbv zeta. unfold Trace.source_read.
  destruct (speaker_at _ _ _) as [body | m]; [| discriminate].
  destruct (Spec.reported "kefPhysicalSource" body) as [[| b | q | x | l | l] |];
    try discriminate.
  cbn [truthy_val truthy]. destruct (x =? ""); cbn [negb orb]; [discriminate |].
  destruct (toLowerCase x =? "standby") eqn:E; [discriminate |].
  intros H. injection H as <-. split; [reflexivity |].
  apply String.eqb_neq, E.
Qed.

Lemma source_read_none (c : KEFSpeaker.client) (s : string) :
  fst (KEFSpeaker.getSource c) = Return s -> Trace.source_read c = None ->
  s = "wifi" \/ s = "standby".
Proof.
  rewrite getSource_cases. cbv zeta. unfold Trace.source_read.
  destruct (speaker_at _ _ _) as [body | m]; [| discriminate].
  destruct (Spec.reported "kefPhysicalSource" body) as [[| b | q | x | l | l] |];
    try (destruct (truthy_val _); cbn [fst]; try discriminate;
         intros H _; injection H as <-; left; reflexivity).
  cbn [truthy_val truthy]. destruct (x =? ""); cbn [negb orb fst].
  - intros H _. injection H as <-. left. reflexivity.
  - destruct (toLowerCase x =? "standby") eqn:E; [| discriminate].
    intros H _. injection H as <-. right. apply String.eqb_eq, E.
Qed.

Section LastSource.

Variable x : string.

Let I (c : KEFSpeaker.client) : Prop :=
  KEFSpeaker.lastActiveSource (KEFSpeaker.this c) = x.

Lemma last_send f t r : I (KEFSpeaker.mkClient f t) -> I (KEFSpeaker.mkClient f (send r t)).
  Proof. intros H. exact H. Qed.

  (** Once a step has established [I], what follows it keeps [I]. *)
Lemma then_keeps {A B} (m : js KEFSpeaker.client A) (k : A -> js KEFSpeaker.client B)
      (h : exn -> js KEFSpeaker.client B) (c : KEFSpeaker.client) :
  I (snd (m c)) -> (forall a, preserves I (k a)) -> (forall e, preserves I (h e)) ->
  I (snd (try_catch (bind m k) h c)).
  Proof.
    intros Hm Hk Hh. unfold try_catch, bind.
    destruct (m c) as [[a | e] c1]; cbn [snd] in Hm.
    - pose proof (Hk a c1 Hm) as H1.
      destruct (k a c1) as [[b | e] c2]; cbn [snd] in *; [exact H1 |].
      apply Hh, H1.
    - apply Hh, Hm.
  Qed.

Lemma testConnection_recalls c :
  I (snd (KEFSpeaker.getSource c)) -> I (snd (KEFSpeaker.testConnection c)).
  Proof.
    intros H. unfold KEFSpeaker.testConnection.
    apply then_keeps; [exact H | |]; intros; preserve.
  Qed.

Lemma getAllSettings_recalls c :
  I (snd (KEFSpeaker.getSource (snd (KEFSpeaker.getPowerState c)))) ->
  I (snd (KEFSpeaker.getAllSettings c)).
  Proof.
    intros H.
    pose proof (getVolume_preserves I last_send).
    pose proof (getMuted_preserves I last_send).
    pose proof (getSubwooferGain_preserves I last_send).
    unfold KEFSpeaker.getAllSettings. cbv zeta.
    unfold try_catch at 1. unfold bind at 1.
    rewrite getPowerState_cases in *. cbn [snd] in *.
    match goal with
    | |- I (snd (let (o, s') := try_catch (bind ?m ?k) ?h ?c1 in _)) =>
        pose proof (then_keeps m k h c1 H) as G;
        destruct (try_catch (bind m k) h c1) as [[a | e] c2]; cbn [snd] in *;
        apply G; intros;
        unfold KEFSpeaker.read_volume_mute, KEFSpeaker.read_dsp; preserve
    end.
  Qed.

Lemma getPlaybackInfo_recalls c :
  I (snd (KEFSpeaker.getSource (snd (KEFSpeaker.isPlaying c)))) ->
  I (snd (KEFSpeaker.getPlaybackInfo c)).
  Proof.
    intros H.
    pose proof (getData_preserves I last_send).
    unfold KEFSpeaker.getPlaybackInfo. cbv zeta.
    unfold try_catch at 1. unfold bind at 1.
    rewrite isPlaying_cases in *. cbn [snd] in *.
    match goal with
    | |- I (snd (let (o, s') := try_catch (bind ?m ?k) ?h ?c1 in _)) =>
        pose proof (then_keeps m k h c1 H) as G;
        destruct (try_catch (bind m k) h c1) as [[a | e] c2]; cbn [snd] in *;
        apply G; intros; preserve
    end.
  Qed.

End LastSource.

Lemma step_lastActiveSource coerce o c :
  KEFSpeaker.lastActiveSource (KEFSpeaker.this (Trace.step coerce o c))
  = Trace.last_source coerce [o] c (KEFSpeaker.lastActiveSource (KEFSpeaker.this c)).
Proof.
  set (x := KEFSpeaker.lastActiveSource (KEFSpeaker.this c)).
  set (I := fun c' => KEFSpeaker.lastActiveSource (KEFSpeaker.this c') = x).
  assert (I_send : forall f t r,
             I (KEFSpeaker.mkClient f t) -> I (KEFSpeaker.mkClient f (send r t)))
    by (intros f t r H; exact H).
  assert (I_previous : forall v, preserves I (KEFSpeaker.set_previousVolume v))
    by (intros v c' H; exact H).
  assert (I_muted : forall b, preserves I (KEFSpeaker.set_isMuted b))
    by (intros b c' H; exact H).
  assert (Hc : I c) by reflexivity.
  destruct o; cbn [Trace.step Trace.last_source].
  - apply (getPowerState_preserves I I_send), Hc.
  - apply (setPowerState_preserves I I_send), Hc.
  - apply getSource_remembers.
  - apply (setSource_preserves I I_send), Hc.
  - apply (getVolume_preserves I I_send), Hc.
  - apply (setVolume_preserves I I_send), Hc.
  - apply (getMuted_preserves I I_send), Hc.
  - pose proof (getVolume_preserves I I_send).
    pose proof (fun v => setVolume_preserves I I_send coerce v).
    assert (G : preserves I (KEFSpeaker.setMuted coerce muted))
      by (unfold KEFSpeaker.setMuted; preserve).
    apply G, Hc.
  - pose proof (getMuted_preserves I I_send).
    pose proof (getVolume_preserves I I_send).
    pose proof (fun v => setVolume_preserves I I_send coerce v).
    assert (G : preserves I (KEFSpeaker.toggleMute coerce))
      by (unfold KEFSpeaker.toggleMute, KEFSpeaker.setMuted; preserve).
    apply G, Hc.
  - apply (isPlaying_preserves I I_send), Hc.
  - apply (getAlbumArtUrl_preserves I I_send), Hc.
  - apply getPlaybackInfo_recalls. rewrite getSource_remembers.
    rewrite isPlaying_cases. reflexivity.
  - apply (getSubwooferGain_preserves I I_send), Hc.
  - apply getAllSettings_recalls. rewrite getSource_remembers.
    rewrite getPowerState_cases. reflexivity.
  - apply testConnection_recalls, getSource_remembers.
Qed.

Lemma run_lastActiveSource coerce ops c :
  KEFSpeaker.lastActiveSource (KEFSpeaker.this (Trace.run coerce ops c))
  = Trace.last_source coerce ops c (KEFSpeaker.lastActiveSource (KEFSpeaker.this c)).
Proof.
  revert c. induction ops as [| o ops IH]; intros c; [reflexivity |].
  cbn [Trace.run fold_left]. fold (Trace.run coerce ops (Trace.step coerce o c)).
  rewrite IH, step_lastActiveSource. reflexivity.
Qed.

(** C8, as amended.  For a speaker whose source names are ASCII strings
    and for every sequence of client calls: the remembered last active
    source is the source most recently observed by a read of [getSource]
    (made directly or by [testConnection], [getAllSettings] or
    [getPlaybackInfo]), where a read observes a source when the answer
    carries a [kefPhysicalSource] that is not empty and not "standby",
    and it is the initial one when none was observed.
    [setPowerState(false)] writes the physical source "standby" and
    leaves the fields of the client as they are, and the
    [setPowerState(true)] that follows writes the remembered source as
    the physical source.  An observed source is the one [getSource]
    returned; a [getSource] that returns without observing one returned
    "standby" or the "wifi" it gives for an answer without the field. *)
Theorem setPowerState_restores_last_source coerce (ops : list Trace.op)
    (c0 : KEFSpeaker.client) :
  Spec.ascii_sources (speaker_at (KEFSpeaker.http c0)) ->
  let c := Trace.run coerce ops c0 in
  let last :=
    Trace.last_source coerce ops c0 (KEFSpeaker.lastActiveSource (KEFSpeaker.this c0)) in
  let c1 := snd (KEFSpeaker.setPowerState false c) in
  let c2 := snd (KEFSpeaker.setPowerState true c1) in
  KEFSpeaker.lastActiveSource (KEFSpeaker.this c) = last /\
  sent (KEFSpeaker.http c1) =
    (sent (KEFSpeaker.http c)
       ++ [SetData "settings:/kef/play/physicalSource"
             (JObj [("type", JStr "kefPhysicalSource");
                    ("kefPhysicalSource", JStr "standby")])])%list /\
  KEFSpeaker.this c1 = KEFSpeaker.this c /\
  sent (KEFSpeaker.http c2) =
    (sent (KEFSpeaker.http c1)
       ++ [SetData "settings:/kef/play/physicalSource"
             (JObj [("type", JStr "kefPhysicalSource");
                    ("kefPhysicalSource", JStr last)])])%list /\
  (forall c' s,
      speaker_at (KEFSpeaker.http c') = speaker_at (KEFSpeaker.http c0) ->
      Trace.source_read c' = Some s ->
      fst (KEFSpeaker.getSource c') = Return s /\ s <> "standby") /\
  (forall c' s,
      speaker_at (KEFSpeaker.http c') = speaker_at (KEFSpeaker.http c0) ->
      fst (KEFSpeaker.getSource c') = Return s -> Trace.source_read c' = None ->
      s = "wifi" \/ s = "standby").
Proof.
  intros _ c last c1 c2.
  assert (Hlast : KEFSpeaker.lastActiveSource (KEFSpeaker.this c) = last)
    by apply run_lastActiveSource.
  subst c2 c1. rewrite !setPowerState_sent. cbn [KEFSpeaker.this KEFSpeaker.http send sent].
  rewrite Hlast.
  split; [reflexivity |]. split; [reflexivity |]. split; [reflexivity |].
  split; [reflexivity |]. split.
  - intros c' s _. apply source_read_returned.
  - intros c' s _. apply source_read_none.
Qed.

(* ===================================================================== *)
(** ** The set-source handler *)
(* ===================================================================== *)

Lemma lower_ascii_idempotent c : lower_ascii (lower_ascii c) = lower_ascii c.
Proof. destruct c as [[] [] [] [] [] [] [] []]; reflexivity. Qed.

Lemma toLowerCase_idempotent s : toLowerCase (toLowerCase s) = toLowerCase s.
Proof.
  induction s as [|c s IH]; [reflexivity|].
  cbn [toLowerCase]. rewrite lower_ascii_idempotent, IH. reflexivity.
Qed.

Lemma includes_In l s : KEFModels.includes l s = true -> In s l.
Proof.
  unfold KEFModels.includes. intros H. apply existsb_exists in H.
  destruct H as (x & Hin & Heq). apply String.eqb_eq in Heq. subst. exact Hin.
Qed.

Lemma unsupported_of_not_contained modelId value :
  ~ Spec.contains_ci (KEFModels.sources (KEFModels.getModelConfig modelId)) value ->
  KEFModels.isSourceSupported modelId value = false.
Proof.
  intros H. unfold KEFModels.isSourceSupported. cbv zeta.
  destruct (KEFModels.includes _ _) eqn:E; [|reflexivity].
  exfalso. apply H. exists (toLowerCase value).
  split; [apply includes_In, E | apply toLowerCase_idempotent].
Qed.

Lemma onCapabilitySource_unsupported value d :
  KEFModels.isSourceSupported (KEFBaseDevice.modelId d) value = false ->
  KEFBaseDevice.onCapabilitySource value d = (Throw (Error "Failed to set source"), d).
Proof.
  intros H. unfold KEFBaseDevice.onCapabilitySource, try_catch, bind, gets, throw.
  rewrite H. reflexivity.
Qed.

(** C5.  A value that the source list of the device's model does not
    contain, letter case aside, makes the set-source handler throw "Failed
    to set source" and leaves the whole device as it was: no request has
    been sent to the speaker.  So it is for "usb" on every device of model
    kef-xio. *)
Theorem onCapabilitySource_rejects_unsupported :
  (forall (d : KEFBaseDevice.device) (value : string),
      ~ Spec.contains_ci
          (KEFModels.sources (KEFModels.getModelConfig (KEFBaseDevice.modelId d)))
          value ->
      KEFBaseDevice.onCapabilitySource value d
        = (Throw (Error "Failed to set source"), d) /\
      sent (KEFSpeaker.http
              (KEFBaseDevice.speaker (snd (KEFBaseDevice.onCapabilitySource value d))))
        = sent (KEFSpeaker.http (KEFBaseDevice.speaker d))) /\
  (forall d : KEFBaseDevice.device,
      KEFBaseDevice.modelId d = "kef-xio" ->
      KEFBaseDevice.onCapabilitySource "usb" d
        = (Throw (Error "Failed to set source"), d)).
Proof.
  split.
  - intros d value H.
    rewrite (onCapabilitySource_unsupported value d
               (unsupported_of_not_contained _ _ H)).
    split; reflexivity.
  - intros d Hid. apply onCapabilitySource_unsupported. rewrite Hid. reflexivity.
Qed.

Lemma usb_not_in_xio :
  ~ Spec.contains_ci (KEFModels.sources (KEFModels.getModelConfig "kef-xio")) "usb".
Proof.
  intros (x & Hin & Hlow). cbn in Hin.
  repeat (destruct Hin as [<-|Hin]; [discriminate Hlow|]). exact Hin.
Qed.

Lemma onCapabilitySource_rejects_unsupported_witness :
  let d := Examples.paired "kef-xio" (Examples.storing_speaker 30) true JNull in
  KEFBaseDevice.onCapabilitySource "usb" d = (Throw (Error "Failed to set source"), d) /\
  sent (KEFSpeaker.http
          (KEFBaseDevice.speaker (snd (KEFBaseDevice.onCapabilitySource "usb" d))))
  = sent (KEFSpeaker.http (KEFBaseDevice.speaker d)).
Proof.
  exact (proj1 onCapabilitySource_rejects_unsupported
           (Examples.paired "kef-xio" (Examples.storing_speaker 30) true JNull) "usb"
           usb_not_in_xio).
Defined.

(* ===================================================================== *)
(** ** Album art *)
(* ===================================================================== *)

Import KEFBaseDevice.





(* ===================================================================== *)
(** ** Polling *)
(* ===================================================================== *)

(** *** What the steps of a poll leave alone *)

Section DeviceFrames.

Variable I : device -> Prop.

Hypothesis I_speaker : forall d c,
  I d -> I (mkDevice c (pollInterval d) (isAvailable d) (modelId d)
              (albumArtImage d) (currentAlbumArtUrl d) (platform d) (closure d)).

Hypothesis I_platform : forall d h,
  I d -> I (mkDevice (speaker d) (pollInterval d) (isAvailable d) (modelId d)
              (albumArtImage d) (currentAlbumArtUrl d) h (closure d)).

Hypothesis I_art : forall d u,
  I d -> I (mkDevice (speaker d) (pollInterval d) (isAvailable d) (modelId d)
              (albumArtImage d) u (platform d) (closure d)).

Lemma on_speaker_preserves {A} (m : KEFSpeaker.method A) : preserves I (on_speaker m).
Proof.
  intros d H. unfold on_speaker, lift.
  destruct (m (speaker d)) as [r c]. cbn. apply I_speaker, H.
Qed.

Lemma on_speaker_ensures {A} (m : KEFSpeaker.method A) :
  (forall c, exists a, fst (m c) = Return a) -> ensures I (on_speaker m) I.
Proof.
  intros Hm d H. unfold on_speaker, lift. destruct (Hm (speaker d)) as [a Ha].
  destruct (m (speaker d)) as [r c]. cbn in *. subst r.
  exists a. split; [reflexivity | apply I_speaker, H].
Qed.

Lemma set_platform_preserves h : preserves I (set_platform h).
Proof. intros d H. apply I_platform, H. Qed.

Lemma set_currentAlbumArtUrl_preserves u : preserves I (set_currentAlbumArtUrl u).
Proof. intros d H. apply I_art, H. Qed.

#[local] Hint Resolve set_platform_preserves set_currentAlbumArtUrl_preserves
  on_speaker_preserves : frame.

Lemma await_preserves c : preserves I (await c).
Proof. unfold await. preserve. Qed.

#[local] Hint Resolve await_preserves : frame.

Lemma await_catch_ensures c : ensures I (await_catch c) I.
Proof. unfold await_catch. ensure. Qed.

Lemma hasCapability_ensures c : ensures I (hasCapability c) I.
Proof. unfold hasCapability. ensure. Qed.

#[local] Hint Resolve await_catch_ensures hasCapability_ensures : frame.

Lemma updateCapabilities_ensures settings : ensures I (updateCapabilities settings) I.
Proof. unfold updateCapabilities. ensure. Qed.

Lemma await_catch_preserves c : preserves I (await_catch c).
Proof. apply ensures_preserves, await_catch_ensures. Qed.

Lemma hasCapability_preserves c : preserves I (hasCapability c).
Proof. apply ensures_preserves, hasCapability_ensures. Qed.

#[local] Hint Resolve await_catch_preserves hasCapability_preserves : frame.

Lemma updateMusicMetadata_ensures : ensures I updateMusicMetadata I.
Proof. unfold updateMusicMetadata. ensure. preserve. Qed.

Lemma updateAlbumArt_ensures : ensures I updateAlbumArt I.
Proof. unfold updateAlbumArt. ensure. preserve. Qed.

End DeviceFrames.

Lemma steady_speaker t n c d x :
  Spec.steady t n c d ->
  Spec.steady t n c (mkDevice x (pollInterval d) (isAvailable d) (modelId d)
                  (albumArtImage d) (currentAlbumArtUrl d) (platform d) (closure d)).
Proof. intros H; exact H. Qed.

Lemma steady_platform t n c d h :
  Spec.steady t n c d ->
  Spec.steady t n c (mkDevice (speaker d) (pollInterval d) (isAvailable d) (modelId d)
                  (albumArtImage d) (currentAlbumArtUrl d) h (closure d)).
Proof. intros H; exact H. Qed.

Lemma steady_art t n c d u :
  Spec.steady t n c d ->
  Spec.steady t n c (mkDevice (speaker d) (pollInterval d) (isAvailable d) (modelId d)
                  (albumArtImage d) u (platform d) (closure d)).
Proof. intros H; exact H. Qed.

Lemma set_failureCount_zero t n c :
  ensures (Spec.steady t n c) (set_failureCount 0)
    (fun d => Spec.steady t n c d /\ failureCount (closure d) = 0%Z).
Proof.
  intros d (Ha & Ht & Hn & Hc). exists tt. split; [reflexivity|].
  cbn. repeat split; assumption.
Qed.

(** A poll of an available device never reaches its [catch]: whatever the
    speaker answers, the device stays available, the failure counter is 0
    and the timer is untouched. *)
Lemma poll_of_available (d : device) :
  isAvailable d = true ->
  fst (poll d) = Return tt /\
  isAvailable (snd (poll d)) = true /\
  pollInterval (snd (poll d)) = pollInterval d /\
  closure (snd (poll d)) =
    mkPolling (normalInterval (closure d)) (currentInterval (closure d)) 0.
Proof.
  intros Havailable.
  set (I := Spec.steady (pollInterval d) (normalInterval (closure d))
              (currentInterval (closure d))).
  assert (Htry : ensures I poll_try
                   (fun d' => I d' /\ failureCount (closure d') = 0%Z)).
  { unfold poll_try.
    apply ensures_bind with (J := I);
      [apply on_speaker_ensures;
       [exact (steady_speaker _ _ _) | intros c; apply getAllSettings_returns] |].
    intros deviceSettings. apply ensures_gets_bind. intros s Hs.
    destruct Hs as (Ha & Hs). rewrite Ha. cbn [negb when].
    apply ensures_weaken with (I := I);
      [intros s' ->; split; assumption |].
    apply ensures_bind with (J := I); [apply ensures_ret|]. intros _.
    apply ensures_bind with (J := I);
      [apply updateCapabilities_ensures; exact (steady_platform _ _ _)|]. intros _.
    apply ensures_bind with (J := I);
      [apply updateMusicMetadata_ensures;
       [exact (steady_speaker _ _ _) | exact (steady_platform _ _ _)]|]. intros _.
    apply ensures_bind with (J := I);
      [apply updateAlbumArt_ensures;
       [exact (steady_speaker _ _ _) | exact (steady_platform _ _ _)
       | exact (steady_art _ _ _)]|]. intros _.
    apply set_failureCount_zero. }
  destruct (Htry d) as (a & Ha & (Hav & Ht & Hn & Hc) & Hf).
  { repeat split; assumption. }
  unfold poll, try_catch. destruct (poll_try d) as [r d']. cbn [fst snd] in *.
  subst r. cbn [fst snd]. destruct a.
  split; [reflexivity|]. split; [exact Hav|]. split; [exact Ht|].
  destruct (closure d') as [n' c' f']. cbn in *. subst. reflexivity.
Qed.

Lemma polls_of_available n : forall d,
  isAvailable d = true ->
  isAvailable (Spec.polls n d) = true /\
  pollInterval (Spec.polls n d) = pollInterval d /\
  normalInterval (closure (Spec.polls n d)) = normalInterval (closure d) /\
  currentInterval (closure (Spec.polls n d)) = currentInterval (closure d) /\
  (n <> O -> failureCount (closure (Spec.polls n d)) = 0%Z).
Proof.
  induction n as [|n IH]; intros d Ha.
  - cbn. split; [exact Ha|]. do 3 (split; [reflexivity|]). intros H. contradiction.
  - cbn [Spec.polls].
    destruct (poll_of_available d Ha) as (_ & Ha' & Ht & Hc).
    destruct (IH _ Ha') as (H1 & H2 & H3 & H4 & H5).
    rewrite H1, H2, H3, H4, Ht, Hc. cbn. do 4 (split; [reflexivity|]).
    intros _. destruct n as [|n']; [cbn; rewrite Hc; reflexivity | apply H5; discriminate].
Qed.

(** C1: what the code does when the speaker cannot be reached.  Every
    request fails, [getAllSettings] swallows the failure, and the [catch]
    of [poll] is not reached: after any number of polls, three among
    them, the device is still available, the failure counter is 0 and the
    timer still runs at the normal 5 s interval. *)
Theorem poll_unreachable_speaker_stays_available (n : nat) :
  let d := Spec.polls (S n) (Examples.unplugged true) in
  isAvailable (Examples.unplugged true) = true /\
  isAvailable d = true /\
  failureCount (closure d) = 0%Z /\
  currentInterval (closure d) = 5000%Z /\
  pollInterval d = Some 5000%Z.
Proof.
  cbv zeta.
  destruct (polls_of_available (S n) (Examples.unplugged true) eq_refl)
    as (H1 & H2 & H3 & H4 & H5).
  rewrite H1, H2, H4, H5 by discriminate. repeat split.
Qed.

(** An unavailable device is marked available by its first poll even
    though its speaker still cannot be reached. *)
Lemma poll_unavailable_unreachable :
  let d := snd (poll (Examples.unplugged false)) in
  isAvailable (Examples.unplugged false) = false /\
  isAvailable d = true /\
  currentInterval (closure d) = 5000%Z /\
  In setAvailable (calls (platform d)).
Proof.
  vm_compute. repeat split. left. reflexivity.
Qed.

(** The [catch] of [poll], were it reached: from an available device with
    a failure counter of 0, two runs leave the device available and the
    third makes it unavailable and sets the 30 s interval. *)
Lemma poll_catch_thrice (d : device) :
  isAvailable d = true -> failureCount (closure d) = 0%Z ->
  let d1 := snd (poll_catch d) in
  let d2 := snd (poll_catch d1) in
  let d3 := snd (poll_catch d2) in
  isAvailable d1 = true /\ isAvailable d2 = true /\ isAvailable d3 = false /\
  currentInterval (closure d3) = retryInterval /\
  pollInterval d3 =
    if (currentInterval (closure d) =? retryInterval)%Z then pollInterval d
    else Some retryInterval.
Proof.
  intros Ha Hf. destruct d as [c t a id img url h [n cur f]].
  cbn in Ha, Hf. subst a f.
  unfold poll_catch, await_catch, await, try_catch, bind, gets, set_failureCount,
    set_closure, set_isAvailable, set_platform, set_currentInterval, restart_timer,
    set_pollInterval, when, modify, throw, ret.
  cbn -[Z.eqb retryInterval].
  destruct (rejects h (calls h) _); cbn -[Z.eqb retryInterval];
    (destruct (cur =? retryInterval)%Z eqn:E; cbn -[Z.eqb retryInterval];
     repeat split; try reflexivity; apply Z.eqb_eq in E; exact E).
Qed.

(** The poll that brings an unavailable device back: once [setAvailable]
    is accepted the device is available, its failure counter is 0 and it
    polls at the normal interval again. *)
Lemma poll_of_unavailable (d : device) :
  isAvailable d = false ->
  rejects (platform d) (calls (platform d)) setAvailable = false ->
  fst (poll d) = Return tt /\
  isAvailable (snd (poll d)) = true /\
  closure (snd (poll d)) =
    mkPolling (normalInterval (closure d)) (normalInterval (closure d)) 0 /\
  pollInterval (snd (poll d)) =
    if (currentInterval (closure d) =? normalInterval (closure d))%Z
    then pollInterval d else Some (normalInterval (closure d)).
Proof.
  intros Havailable Haccept.
  set (t := if (currentInterval (closure d) =? normalInterval (closure d))%Z
            then pollInterval d else Some (normalInterval (closure d))).
  set (I := Spec.steady t (normalInterval (closure d)) (normalInterval (closure d))).
  assert (Htry : ensures (fun s => s = d) poll_try
                   (fun d' => I d' /\ failureCount (closure d') = 0%Z)).
  { unfold poll_try.
    apply ensures_bind
      with (J := fun s => isAvailable s = false /\ pollInterval s = pollInterval d /\
                          platform s = platform d /\ closure s = closure d).
    { intros s ->. unfold on_speaker, lift.
      destruct (getAllSettings_returns (speaker d)) as [a Ha].
      destruct (KEFSpeaker.getAllSettings (speaker d)) as [r c]. cbn in *. subst r.
      exists a. repeat split; assumption. }
    intros deviceSettings. apply ensures_gets_bind. intros s (Ha & Ht & Hp & Hc).
    rewrite Ha. cbn [negb when].
    apply ensures_bind with (J := I).
    { intros s' ->. destruct s as [c0 t0 a0 id img url h0 cl].
      cbn in Ha, Ht, Hp, Hc. subst a0 t0 h0 cl.
      set (pd := platform d) in *. set (cd := closure d) in *.
      cbv beta iota zeta delta
        [bind set_isAvailable modify await gets set_platform set_failureCount
         set_closure set_currentInterval restart_timer set_pollInterval when ret throw
         platform speaker pollInterval isAvailable modelId albumArtImage
         currentAlbumArtUrl closure fst snd negb].
      cbn [calls rejects]. rewrite Haccept.
      cbn [normalInterval currentInterval].
      subst t I. unfold Spec.steady.
      destruct (currentInterval cd =? normalInterval cd)%Z eqn:E;
        exists tt; cbn; repeat split; try reflexivity.
      apply Z.eqb_eq in E. exact E. }
    intros _.
    apply ensures_bind with (J := I);
      [apply updateCapabilities_ensures; exact (steady_platform _ _ _)|]. intros _.
    apply ensures_bind with (J := I);
      [apply updateMusicMetadata_ensures;
       [exact (steady_speaker _ _ _) | exact (steady_platform _ _ _)]|]. intros _.
    apply ensures_bind with (J := I);
      [apply updateAlbumArt_ensures;
       [exact (steady_speaker _ _ _) | exact (steady_platform _ _ _)
       | exact (steady_art _ _ _)]|]. intros _.
    apply set_failureCount_zero. }
  destruct (Htry d eq_refl) as (a & Ha & (Hav & Ht & Hn & Hc) & Hf).
  unfold poll, try_catch. destruct (poll_try d) as [r d']. cbn [fst snd] in *.
  subst r. cbn [fst snd]. destruct a.
  split; [reflexivity|]. split; [exact Hav|]. split; [|exact Ht].
  destruct (closure d') as [n' c' f']. cbn in *. subst. reflexivity.
Qed.

(* ===================================================================== *)
(** ** Worked instances *)
(* ===================================================================== *)

Lemma storing_speaker_reachable v0 : Spec.reachable (Examples.storing_speaker v0).
Proof.
  intros h [path | path value]; cbn.
  - destruct (Spec.last_write path h); [eexists; reflexivity|].
    destruct (path =? "player:volume"); eexists; reflexivity.
  - eexists; reflexivity.
Qed.

Lemma storing_speaker_faithful v0 : Spec.faithful (Examples.storing_speaker v0).
Proof. intros h path v H. cbn. rewrite H. reflexivity. Qed.

Lemma constant_volume_integer (z : Z) :
  Spec.integer_volume
    (Examples.constant_speaker (JArr [KEFSpeaker.volume_payload (Fin (inject_Z z))])).
Proof.
  intros h body v Hbody Hv. injection Hbody as <-. cbn in Hv.
  injection Hv as <-. exists z. reflexivity.
Qed.

(** Volume 42.6 is written as 43 and read back as 43. *)
Lemma setVolume_getVolume_roundtrip_witness :
  let c := Examples.client_of (Examples.storing_speaker 30) in
  let n := Spec.clamp 0 100 (Spec.round_half_up (213 # 5)) in
  n = 43%Z /\
  exists c1 c2,
    KEFSpeaker.setVolume Examples.no_coercion (JNum (213 # 5)) c = (Return tt, c1) /\
    sent (KEFSpeaker.http c1) =
      (sent (KEFSpeaker.http c)
         ++ [SetData "player:volume" (KEFSpeaker.volume_payload (Fin (inject_Z n)))])%list /\
    KEFSpeaker.getVolume c1 = (Return (JNum (inject_Z n)), c2) /\
    (0 <= n <= 100)%Z /\
    (forall m : Z,
        Qabs ((213 # 5) - inject_Z (Spec.round_half_up (213 # 5)))
        <= Qabs ((213 # 5) - inject_Z m))%Q.
Proof.
  split; [reflexivity|].
  exact (setVolume_getVolume_roundtrip Examples.no_coercion
           (Examples.storing_speaker 30) (213 # 5)
           (Examples.client_of (Examples.storing_speaker 30))
           (storing_speaker_reachable 30) (storing_speaker_faithful 30) eq_refl).
Defined.

(** After two mutes in a row at volume 30, the unmute writes 30. *)
Lemma setMuted_restores_last_positive_witness :
  let c0 := Examples.client_of (Examples.storing_speaker 30) in
  let c := Trace.run Examples.no_coercion Examples.mute_twice c0 in
  Trace.last_positive Examples.no_coercion Examples.mute_twice c0 (JNum 50) = JNum 30 /\
  (exists c1 c2,
      KEFSpeaker.setMuted Examples.no_coercion true c = (Return tt, c1) /\
      KEFSpeaker.getMuted c1 = (Return true, c2)) /\
  (exists c3 c4,
      KEFSpeaker.setMuted Examples.no_coercion false c = (Return tt, c3) /\
      sent (KEFSpeaker.http c3) =
        (sent (KEFSpeaker.http c)
           ++ [SetData "player:volume"
                 (KEFSpeaker.volume_payload
                    (KEFSpeaker.clamp_volume Examples.no_coercion
                       (Trace.last_positive Examples.no_coercion Examples.mute_twice c0
                          (JNum 50))))])%list /\
      KEFSpeaker.getVolume c3 =
        (Return (number_to_json
                   (KEFSpeaker.clamp_volume Examples.no_coercion
                      (Trace.last_positive Examples.no_coercion Examples.mute_twice c0
                         (JNum 50)))), c4) /\
      KEFSpeaker.isMuted (KEFSpeaker.this c3) = false).
Proof.
  split; [reflexivity|].
  pose proof (setMuted_restores_last_positive Examples.no_coercion
                (Examples.storing_speaker 30) Examples.mute_twice
                (Examples.client_of (Examples.storing_speaker 30))
                (storing_speaker_reachable 30) (storing_speaker_faithful 30)
                eq_refl eq_refl) as H.
  exact (conj (proj1 H) (proj1 (proj2 H))).
Defined.

(** C2, as stated, fails.  A speaker at volume 30 is muted twice.  The
    second, most recent mute observes volume 0, and a volume above 0 has
    been observed before, so the claim has the unmute set volume 0; the
    unmute writes 30 and the speaker is back at 30. *)
Lemma setMuted_restore_counterexample :
  let no := Examples.no_coercion in
  let c0 := Examples.client_of (Examples.storing_speaker 30) in
  let c1 := Trace.run no [Trace.OpSetMuted true] c0 in
  let c2 := Trace.run no [Trace.OpSetMuted true] c1 in
  let c3 := snd (KEFSpeaker.setMuted no false c2) in
  Trace.observed c0 = Some (JNum 30) /\
  Trace.observed c1 = Some (JNum 0) /\
  fst (KEFSpeaker.getVolume c3) = Return (JNum 30) /\
  fst (KEFSpeaker.getVolume c3) <> Return (JNum 0) /\
  fst (KEFSpeaker.getVolume c3) <> Return (JNum 50).
Proof.
  cbv zeta. split; [reflexivity|]. split; [reflexivity|]. split; [reflexivity|].
  split; intros H; vm_compute in H; discriminate H.
Qed.

Lemma falls_silent_integer : Spec.integer_volume Examples.falls_silent.
Proof.
  intros h body v Hbody Hv. unfold Examples.falls_silent in Hbody.
  destruct (Spec.last_write "player:volume" h); injection Hbody as <-; cbn in Hv;
    injection Hv as <-; eexists; reflexivity.
Qed.

(** A speaker at volume 30 is muted twice: the second mute meets volume 0
    and leaves 30 remembered, and the unmute writes 30. *)
Lemma previousVolume_stays_positive_witness :
  let c0 := Examples.client_of Examples.falls_silent in
  let c1 := Trace.run Examples.no_coercion [Trace.OpSetMuted true] c0 in
  let c := Trace.run Examples.no_coercion Examples.mute_twice c0 in
  Trace.observed c1 = Some (JNum 0) /\
  KEFSpeaker.previousVolume (KEFSpeaker.this c) = JNum 30 /\
  sent (KEFSpeaker.http (snd (KEFSpeaker.setMuted Examples.no_coercion false c))) =
    (sent (KEFSpeaker.http c)
       ++ [SetData "player:volume"
             (JObj [("type", JStr "i32_"); ("i32_", JNum 30)])])%list /\
  exists n : Z,
    (1 <= n <= 100)%Z /\
    sent (KEFSpeaker.http (snd (KEFSpeaker.setMuted Examples.no_coercion false c))) =
      (sent (KEFSpeaker.http c)
         ++ [SetData "player:volume"
               (JObj [("type", JStr "i32_"); ("i32_", JNum (inject_Z n))])])%list.
Proof.
  pose proof (previousVolume_stays_positive Examples.no_coercion Examples.mute_twice
                (Examples.client_of Examples.falls_silent) eq_refl) as H.
  cbv zeta in H. destruct H as (_ & _ & Hq & Hn).
  cbv zeta. split; [reflexivity |]. split; [reflexivity |].
  split; [exact (Hq 30%Q eq_refl) | exact (Hn falls_silent_integer)].
Defined.

(** C10, as stated, fails.  A speaker reports volume 2/5.  The mute
    remembers it, as it is strictly greater than 0, and the unmute writes
    it rounded: volume 0. *)
Lemma setMuted_false_writes_zero_counterexample :
  let no := Examples.no_coercion in
  let d := Examples.constant_speaker (JArr [KEFSpeaker.volume_payload (Fin (2 # 5))]) in
  let c0 := Examples.client_of d in
  let c1 := Trace.run no [Trace.OpSetMuted true] c0 in
  KEFSpeaker.previousVolume (KEFSpeaker.this c1) = JNum (2 # 5) /\
  num_gtb (ToNumber no (KEFSpeaker.previousVolume (KEFSpeaker.this c1))) (Fin 0) = true /\
  sent (KEFSpeaker.http (snd (KEFSpeaker.setMuted no false c1))) =
    (sent (KEFSpeaker.http c1)
       ++ [SetData "player:volume"
             (JObj [("type", JStr "i32_"); ("i32_", JNum 0)])])%list.
Proof.
  cbv zeta. repeat split.
Qed.

(** A speaker in standby is asked for its source twice and for nothing
    else. *)
Lemma getAllSettings_standby_skips_reads_witness :
  let c := Examples.client_of (Examples.reporting "standby") in
  sent (KEFSpeaker.http (snd (KEFSpeaker.getAllSettings c))) =
    [GetData KEFSpeaker.physicalSource; GetData KEFSpeaker.physicalSource].
Proof.
  exact (proj1 (proj1 (proj2 (getAllSettings_standby_skips_reads
                                (Examples.client_of (Examples.reporting "standby"))))
                 (KEFSpeaker.mkSettings None None (Some "standby") (Some true) None)
                 eq_refl (or_introl eq_refl))).
Defined.

Lemma reporting_ascii (s : string) :
  Spec.is_ascii s = true -> Spec.ascii_sources (Examples.reporting s).
Proof.
  intros Hs h body s' Hbody Hrep. injection Hbody as <-. cbn in Hrep.
  injection Hrep as <-. exact Hs.
Qed.

Lemma tv_then_nothing_ascii : Spec.ascii_sources Examples.tv_then_nothing.
Proof.
  intros [| r h] body s Hbody Hrep; cbn in Hbody; injection Hbody as <-;
    cbn in Hrep; [injection Hrep as <-; reflexivity | discriminate].
Qed.

(** A speaker on "TV": after a write of "optical", a snapshot and a
    read of the volume, "tv" is remembered; switching off and on writes
    "standby" and then "tv". *)
Lemma setPowerState_restores_last_source_witness :
  let c0 := Examples.client_of (Examples.reporting "TV") in
  let c := Trace.run Examples.no_coercion
             [Trace.OpSetSource "optical"; Trace.OpGetAllSettings; Trace.OpGetVolume] c0 in
  let c1 := snd (KEFSpeaker.setPowerState false c) in
  let c2 := snd (KEFSpeaker.setPowerState true c1) in
  KEFSpeaker.lastActiveSource (KEFSpeaker.this c) = "tv" /\
  sent (KEFSpeaker.http c1) =
    (sent (KEFSpeaker.http c)
       ++ [SetData "settings:/kef/play/physicalSource"
             (JObj [("type", JStr "kefPhysicalSource");
                    ("kefPhysicalSource", JStr "standby")])])%list /\
  KEFSpeaker.this c1 = KEFSpeaker.this c /\
  sent (KEFSpeaker.http c2) =
    (sent (KEFSpeaker.http c1)
       ++ [SetData "settings:/kef/play/physicalSource"
             (JObj [("type", JStr "kefPhysicalSource");
                    ("kefPhysicalSource", JStr "tv")])])%list.
Proof.
  pose proof (setPowerState_restores_last_source Examples.no_coercion
                [Trace.OpSetSource "optical"; Trace.OpGetAllSettings; Trace.OpGetVolume]
                (Examples.client_of (Examples.reporting "TV"))
                (reporting_ascii "TV" eq_refl)) as H.
  cbv zeta in H. destruct H as (H1 & H2 & H3 & H4 & _).
  cbv zeta. split; [exact H1 |]. split; [exact H2 |]. split; [exact H3 |]. exact H4.
Defined.

(** C8, as stated, fails.  A speaker answers the first read of its source
    with "TV" and the second with no source.  Both [getSource] calls
    return, the second one "wifi", which is then the source most recently
    observed by a successful read; switching off and on writes "tv". *)
Lemma setPowerState_fallback_read_counterexample :
  let c0 := Examples.client_of Examples.tv_then_nothing in
  let c1 := snd (KEFSpeaker.getSource c0) in
  let c2 := snd (KEFSpeaker.getSource c1) in
  let c3 := snd (KEFSpeaker.setPowerState false c2) in
  let c4 := snd (KEFSpeaker.setPowerState true c3) in
  Spec.ascii_sources Examples.tv_then_nothing /\
  fst (KEFSpeaker.getSource c0) = Return "tv" /\
  fst (KEFSpeaker.getSource c1) = Return "wifi" /\
  KEFSpeaker.lastActiveSource (KEFSpeaker.this c2) = "tv" /\
  sent (KEFSpeaker.http c4) =
    (sent (KEFSpeaker.http c3)
       ++ [SetData "settings:/kef/play/physicalSource"
             (JObj [("type", JStr "kefPhysicalSource");
                    ("kefPhysicalSource", JStr "tv")])])%list /\
  sent (KEFSpeaker.http c4) <>
    (sent (KEFSpeaker.http c3)
       ++ [SetData "settings:/kef/play/physicalSource"
             (JObj [("type", JStr "kefPhysicalSource");
                    ("kefPhysicalSource", JStr "wifi")])])%list.
Proof.
  cbv zeta. split; [exact tv_then_nothing_ascii |].
  repeat (split; [reflexivity |]).
  intros H. vm_compute in H. discriminate H.
Qed.

(** A track in the trackRoles shape. *)
Lemma getPlaybackInfo_metadata_shapes_witness :
  let c := Examples.client_of
             (Examples.constant_speaker (JArr [Examples.so_what Spec.TrackRoles])) in
  exists info,
    fst (KEFSpeaker.getPlaybackInfo c) = Return info /\
    KEFSpeaker.title info = Some (JStr "So What") /\
    KEFSpeaker.artist info = Some (JStr "Miles Davis") /\
    KEFSpeaker.album info = Some (JStr "Kind of Blue").
Proof.
  cbv zeta.
  destruct (getPlaybackInfo_metadata_shapes
              (Examples.client_of
                 (Examples.constant_speaker (JArr [Examples.so_what Spec.TrackRoles])))
              "wifi" (JArr [Examples.so_what Spec.TrackRoles]) eq_refl eq_refl)
    as (playing & info & _ & Hinfo & _ & _ & Hshape & _).
  exists info. split; [exact Hinfo|].
  apply (Hshape Spec.TrackRoles [("state", JStr "playing")]
           (JStr "So What") (JStr "Miles Davis") (JStr "Kind of Blue")).
  - reflexivity.
  - repeat constructor.
  - discriminate.
Defined.


(* ===================================================================== *)
(** ** Power, source and mute, continued *)
(* ===================================================================== *)

Import SpeakerSpec.

(** X1.  [getPowerState()] agrees with [getSource()] on the same speaker: it
    returns true exactly when [getSource()] returns a source other than
    "standby" (the "wifi" of an answer without the field included), and
    it returns false, without throwing, whenever [getSource()] throws.
    It sends one read of the physical source and changes no field of
    the client. *)
Theorem getPowerState_follows_getSource (c : KEFSpeaker.client) :
  fst (KEFSpeaker.getPowerState c) =
    Return match fst (KEFSpeaker.getSource c) with
           | Return source => negb (source =? "standby")
           | Throw _ => false
           end /\
  sent (KEFSpeaker.http (snd (KEFSpeaker.getPowerState c))) =
    (sent (KEFSpeaker.http c) ++ [GetData KEFSpeaker.physicalSource])%list /\
  KEFSpeaker.this (snd (KEFSpeaker.getPowerState c)) = KEFSpeaker.this c.
Proof.
  rewrite getPowerState_cases, getSource_cases. cbn [fst snd].
  split; [| split; reflexivity].
  unfold Spec.power_of.
  destruct (speaker_at (KEFSpeaker.http c) (sent (KEFSpeaker.http c))
              (GetData KEFSpeaker.physicalSource)) as [body | m]; cbn; [| reflexivity].
  destruct (truthy_val (Spec.reported "kefPhysicalSource" body)) eqn:E; [| reflexivity].
  destruct (Spec.reported "kefPhysicalSource" body) as [[| | | s | |] |]; reflexivity.
Qed.

(** X2.  [testConnection()] never throws: it returns true when
    [getSource()] returns and false when it throws, and it leaves the
    client as [getSource()] does.  A speaker that does not answer gives
    false; a speaker that answers gives true unless the reported
    [kefPhysicalSource] is a truthy value that is not a string. *)
Theorem testConnection_probe (c : KEFSpeaker.client) :
  let answer := speaker_at (KEFSpeaker.http c) (sent (KEFSpeaker.http c))
                  (GetData KEFSpeaker.physicalSource) in
  fst (KEFSpeaker.testConnection c) =
    Return match fst (KEFSpeaker.getSource c) with
           | Return _ => true
           | Throw _ => false
           end /\
  snd (KEFSpeaker.testConnection c) = snd (KEFSpeaker.getSource c) /\
  (forall m, answer = Failed m -> fst (KEFSpeaker.testConnection c) = Return false) /\
  (forall body, answer = Replied body ->
     fst (KEFSpeaker.testConnection c) =
       Return match Spec.reported "kefPhysicalSource" body with
              | Some (JStr _) | None => true
              | Some v => negb (truthy v)
              end).
Proof.
  cbv zeta.
  assert (E : KEFSpeaker.testConnection c =
              (Return match fst (KEFSpeaker.getSource c) with
                      | Return _ => true
                      | Throw _ => false
                      end, snd (KEFSpeaker.getSource c))).
  { unfold KEFSpeaker.testConnection, try_catch, bind, ret.
    destruct (KEFSpeaker.getSource c) as [[s | e] c']; reflexivity. }
  rewrite E. cbn [fst snd]. split; [reflexivity | split; [reflexivity |]].
  rewrite getSource_cases. cbv zeta. split.
  - intros m ->. reflexivity.
  - intros body ->.
    destruct (Spec.reported "kefPhysicalSource" body) as [[| b | q | s | l | l] |];
      cbn; try reflexivity.
    + destruct b; reflexivity.
    + destruct (Qeq_bool q 0); reflexivity.
    + destruct (s =? ""); reflexivity.
Qed.


Section SourceFrames.

Variable coerce : json -> number.

Variable I : KEFSpeaker.client -> Prop.

Hypothesis I_send : forall f t r,
    I (KEFSpeaker.mkClient f t) -> I (KEFSpeaker.mkClient f (send r t)).

Hypothesis I_getSource : preserves I KEFSpeaker.getSource.

Hypothesis I_setMuted : forall m, preserves I (KEFSpeaker.setMuted coerce m).







End SourceFrames.





Lemma round_clamp_range (x : number) :
  let vol := Math_min (Fin 100) (Math_max (Fin 0) (Math_round x)) in
  (x = NaN /\ vol = NaN) \/
  exists n : Z, (0 <= n <= 100)%Z /\ vol = Fin (inject_Z n).
Proof.
  destruct x as [q | | |]; cbv zeta.
  - right. exists (Spec.clamp 0 100 (Spec.round_half_up q)). split.
    + unfold Spec.clamp. lia.
    + cbn [Math_round]. apply clamp_integer.
  - left. split; reflexivity.
  - right. exists 100%Z. split; [lia | reflexivity].
  - right. exists 0%Z. split; [lia | reflexivity].
Qed.

(** X5.  Whatever value [setVolume] is given and whatever the speaker
    answers, it sends exactly one write of "player:volume", whose [i32_]
    is an integer of [0, 100], or null when the value is not a number
    ([NaN]). *)
Theorem setVolume_writes_in_range coerce (v : json) (c : KEFSpeaker.client) :
  exists w : json,
    sent (KEFSpeaker.http (snd (KEFSpeaker.setVolume coerce v c))) =
      (sent (KEFSpeaker.http c)
         ++ [SetData "player:volume" (JObj [("type", JStr "i32_"); ("i32_", w)])])%list /\
    ((ToNumber coerce v = NaN /\ w = JNull) \/
     exists n : Z, (0 <= n <= 100)%Z /\ w = JNum (inject_Z n)).
Proof.
  exists (number_to_json (KEFSpeaker.clamp_volume coerce v)). split.
  - rewrite setVolume_cases. cbv zeta.
    destruct (speaker_at _ _ _); reflexivity.
  - unfold KEFSpeaker.clamp_volume.
    destruct (round_clamp_range (ToNumber coerce v)) as [[E1 E2] | [n [Hn E]]].
    + left. rewrite E2. split; [exact E1 | reflexivity].
    + right. exists n. rewrite E. split; [exact Hn | reflexivity].
Qed.

Lemma last_write_read path h p :
  Spec.last_write path (h ++ [GetData p]) = Spec.last_write path h.
Proof.
  induction h as [| r h IH]; [reflexivity |].
  cbn. rewrite IH. reflexivity.
Qed.

Lemma getVolume_written (c : KEFSpeaker.client) (v : json) :
  Spec.faithful (speaker_at (KEFSpeaker.http c)) ->
  Spec.last_write "player:volume" (sent (KEFSpeaker.http c))
    = Some (JObj [("type", JStr "i32_"); ("i32_", v)]) ->
  KEFSpeaker.getVolume c =
    (Return v,
     KEFSpeaker.mkClient (KEFSpeaker.this c)
       (send (GetData "player:volume") (KEFSpeaker.http c))).
Proof.
  intros Hf Hw. rewrite getVolume_cases. cbv zeta.
  rewrite (Hf _ _ _ Hw). reflexivity.
Qed.

Lemma setVolume_written coerce (c : KEFSpeaker.client) (v : json) :
  Spec.reachable (speaker_at (KEFSpeaker.http c)) ->
  KEFSpeaker.setVolume coerce v c =
    (Return tt,
     KEFSpeaker.mkClient (KEFSpeaker.this c)
       (send (SetData "player:volume"
                (KEFSpeaker.volume_payload (KEFSpeaker.clamp_volume coerce v)))
          (KEFSpeaker.http c))).
Proof.
  intros Hr. rewrite setVolume_cases. cbv zeta.
  destruct (Hr (sent (KEFSpeaker.http c))
              (SetData "player:volume"
                 (KEFSpeaker.volume_payload (KEFSpeaker.clamp_volume coerce v))))
    as [body ->].
  reflexivity.
Qed.

Section Written.

Variable coerce : json -> number.

Variable d : Transport.device.

Hypothesis d_reachable : Spec.reachable d.

Hypothesis d_faithful : Spec.faithful d.

Local Abbreviation at_ f h := (KEFSpeaker.mkClient f (mkTransport d h)).

Local Abbreviation volume_read := (GetData "player:volume").

Local Abbreviation volume_write x := (SetData "player:volume" (KEFSpeaker.volume_payload x)).

Lemma getVolume_at f h x :
  Spec.last_write "player:volume" h
    = Some (JObj [("type", JStr "i32_"); ("i32_", x)]) ->
  KEFSpeaker.getVolume (at_ f h) = (Return x, at_ f (h ++ [volume_read])).
  Proof.
    intros Hw. apply (getVolume_written (at_ f h) x d_faithful Hw).
  Qed.

Lemma setVolume_at f h x :
  KEFSpeaker.setVolume coerce x (at_ f h) =
    (Return tt, at_ f (h ++ [volume_write (KEFSpeaker.clamp_volume coerce x)])).
  Proof. apply (setVolume_written coerce (at_ f h) x d_reachable). Qed.

Lemma getMuted_at f h x :
  Spec.last_write "player:volume" h
    = Some (JObj [("type", JStr "i32_"); ("i32_", x)]) ->
  KEFSpeaker.getMuted (at_ f h) =
    (Return (strict_eq (Some x) (Some (JNum 0)) && KEFSpeaker.isMuted f),
     at_ f (h ++ [volume_read])).
  Proof.
    intros Hw. unfold KEFSpeaker.getMuted, bind. rewrite (getVolume_at f h x Hw).
    reflexivity.
  Qed.

Lemma setMuted_true_at f h x :
  Spec.last_write "player:volume" h
    = Some (JObj [("type", JStr "i32_"); ("i32_", x)]) ->
  KEFSpeaker.setMuted coerce true (at_ f h) =
    (Return tt,
     at_ (KEFSpeaker.mkFields (KEFSpeaker.lastActiveSource f)
            (if num_gtb (ToNumber coerce x) (Fin 0) then x
             else KEFSpeaker.previousVolume f)
            true (KEFSpeaker.repeatMode f) (KEFSpeaker.shuffleMode f))
       ((h ++ [volume_read]) ++ [volume_write (Fin 0)])).
  Proof.
    intros Hw. unfold KEFSpeaker.setMuted, bind. rewrite (getVolume_at f h x Hw).
    assert (Hz : KEFSpeaker.clamp_volume coerce (JNum 0) = Fin 0).
    { change (JNum 0) with (JNum (inject_Z 0)). rewrite clamp_volume_integer.
      reflexivity. }
    destruct (num_gtb (ToNumber coerce x) (Fin 0)); cbn [when].
    - unfold KEFSpeaker.set_previousVolume, modify.
      cbn [KEFSpeaker.this KEFSpeaker.http KEFSpeaker.lastActiveSource
           KEFSpeaker.isMuted KEFSpeaker.repeatMode KEFSpeaker.shuffleMode].
      rewrite setVolume_at, Hz. reflexivity.
    - unfold ret. rewrite setVolume_at, Hz. reflexivity.
  Qed.

Lemma setMuted_false_at f h :
  KEFSpeaker.setMuted coerce false (at_ f h) =
    (Return tt,
     at_ (KEFSpeaker.mkFields (KEFSpeaker.lastActiveSource f)
            (KEFSpeaker.previousVolume f) false
            (KEFSpeaker.repeatMode f) (KEFSpeaker.shuffleMode f))
       (h ++ [volume_write
                (KEFSpeaker.clamp_volume coerce (KEFSpeaker.previousVolume f))])).
  Proof.
    rewrite setMuted_false_cases. cbv zeta.
    cbn [KEFSpeaker.this KEFSpeaker.http speaker_at sent].
    destruct (d_reachable h
                (SetData "player:volume"
                   (KEFSpeaker.volume_payload
                      (KEFSpeaker.clamp_volume coerce (KEFSpeaker.previousVolume f)))))
      as [body ->].
    reflexivity.
  Qed.

Lemma toggleMute_at f h x :
  Spec.last_write "player:volume" h
    = Some (JObj [("type", JStr "i32_"); ("i32_", x)]) ->
  KEFSpeaker.toggleMute coerce (at_ f h) =
    KEFSpeaker.setMuted coerce
      (negb (strict_eq (Some x) (Some (JNum 0)) && KEFSpeaker.isMuted f))
      (at_ f (h ++ [volume_read])).
  Proof.
    intros Hw. unfold KEFSpeaker.toggleMute, bind. rewrite (getMuted_at f h x Hw).
    reflexivity.
  Qed.

End Written.

Lemma positive_integer_gtb coerce (v : Z) :
  (1 <= v)%Z -> num_gtb (ToNumber coerce (JNum (inject_Z v))) (Fin 0) = true.
Proof.
  intros Hv. cbn. change 0%Q with (inject_Z 0). rewrite Qle_bool_inject.
  destruct (v <=? 0)%Z eqn:E; [apply Z.leb_le in E; lia | reflexivity].
Qed.

Lemma positive_integer_nonzero (v : Z) :
  (1 <= v)%Z -> Qeq_bool (inject_Z v) 0 = false.
Proof.
  intros Hv. destruct (Qeq_bool (inject_Z v) 0) eqn:E; [| reflexivity].
  apply Qeq_bool_iff in E. unfold Qeq in E. cbn in E. lia.
Qed.

(** X6.  Against a speaker that answers and returns what was written,
    at a volume [v] of [1, 100]: a first [toggleMute()] leaves the volume
    at 0 and [getMuted()] true, and a second one brings the volume back
    to [v] and [getMuted()] to false. *)
Theorem toggleMute_twice_restores coerce (c0 : KEFSpeaker.client) (v : Z) :
  Spec.reachable (speaker_at (KEFSpeaker.http c0)) ->
  Spec.faithful (speaker_at (KEFSpeaker.http c0)) ->
  (1 <= v <= 100)%Z ->
  let c := snd (KEFSpeaker.setVolume coerce (JNum (inject_Z v)) c0) in
  exists c1 c2,
    KEFSpeaker.toggleMute coerce c = (Return tt, c1) /\
    fst (KEFSpeaker.getVolume c1) = Return (JNum 0) /\
    fst (KEFSpeaker.getMuted c1) = Return true /\
    KEFSpeaker.toggleMute coerce c1 = (Return tt, c2) /\
    fst (KEFSpeaker.getVolume c2) = Return (JNum (inject_Z v)) /\
    fst (KEFSpeaker.getMuted c2) = Return false.
Proof.
  intros Hr Hf Hv. cbv zeta.
  destruct c0 as [f [d h]]. cbn [KEFSpeaker.http speaker_at] in Hr, Hf.
  rewrite (setVolume_at coerce d Hr). cbn [snd].
  rewrite clamp_volume_integer.
  replace (Spec.clamp 0 100 v) with v by (unfold Spec.clamp; lia).
  pose proof (positive_integer_gtb coerce v (proj1 Hv)) as Hpos.
  pose proof (positive_integer_nonzero v (proj1 Hv)) as Hnz.
  set (h1 := (h ++ [SetData "player:volume"
                      (KEFSpeaker.volume_payload (Fin (inject_Z v)))])%list).
  assert (W1 : Spec.last_write "player:volume" h1
               = Some (JObj [("type", JStr "i32_"); ("i32_", JNum (inject_Z v))]))
    by apply last_write_snoc.
  assert (W2 : Spec.last_write "player:volume" (h1 ++ [GetData "player:volume"])
               = Some (JObj [("type", JStr "i32_"); ("i32_", JNum (inject_Z v))]))
    by (rewrite last_write_read; exact W1).
  rewrite (toggleMute_at coerce d Hf f h1 _ W1).
  cbn [strict_eq]. rewrite Hnz. cbn [andb negb].
  rewrite (setMuted_true_at coerce d Hr Hf f _ _ W2). rewrite Hpos.
  set (h2 := (_ ++ [SetData "player:volume" (KEFSpeaker.volume_payload (Fin 0))])%list).
  assert (W3 : Spec.last_write "player:volume" h2
               = Some (JObj [("type", JStr "i32_"); ("i32_", JNum 0)]))
    by apply last_write_snoc.
  set (f1 := KEFSpeaker.mkFields _ _ _ _ _).
  eexists _, _. split; [reflexivity |].
  rewrite (getVolume_at d Hf f1 h2 _ W3).
  rewrite (getMuted_at d Hf f1 h2 _ W3).
  rewrite (toggleMute_at coerce d Hf f1 h2 _ W3).
  cbn [fst strict_eq KEFSpeaker.isMuted f1 andb negb Qeq_bool].
  split; [reflexivity |]. split; [reflexivity |].
  rewrite (setMuted_false_at coerce d Hr f1).
  cbn [KEFSpeaker.previousVolume f1]. rewrite clamp_volume_integer.
  replace (Spec.clamp 0 100 v) with v by (unfold Spec.clamp; lia).
  split; [reflexivity |].
  set (h3 := (_ ++ [SetData "player:volume" _])%list).
  assert (W4 : Spec.last_write "player:volume" h3
               = Some (JObj [("type", JStr "i32_"); ("i32_", JNum (inject_Z v))]))
    by apply last_write_snoc.
  rewrite (getVolume_at d Hf _ h3 _ W4).
  rewrite (getMuted_at d Hf _ h3 _ W4).
  cbn [fst strict_eq]. rewrite Hnz. split; reflexivity.
Qed.

Lemma step_unmuted coerce o c :
  o <> Trace.OpSetMuted true -> o <> Trace.OpToggleMute ->
  unmuted c -> unmuted (Trace.step coerce o c).
Proof.
  intros H1 H2 H.
  assert (I_send : forall f t r,
             unmuted (KEFSpeaker.mkClient f t) ->
             unmuted (KEFSpeaker.mkClient f (send r t)))
    by (intros f t r H0; exact H0).
  assert (I_source : forall s, preserves unmuted (KEFSpeaker.set_lastActiveSource s))
    by (intros s c' H0; exact H0).
  destruct o as [| on | | s | | v | | [|] | | | | | | |]; cbn [Trace.step];
    try congruence.
  - apply (getPowerState_preserves unmuted I_send), H.
  - apply (setPowerState_preserves unmuted I_send), H.
  - apply (getSource_preserves unmuted I_send I_source), H.
  - apply (setSource_preserves unmuted I_send), H.
  - apply (getVolume_preserves unmuted I_send), H.
  - apply (setVolume_preserves unmuted I_send), H.
  - apply (getMuted_preserves unmuted I_send), H.
  - rewrite setMuted_false_cases. cbv zeta.
    destruct (speaker_at _ _ _); [reflexivity | exact H].
  - apply (isPlaying_preserves unmuted I_send), H.
  - apply (getAlbumArtUrl_preserves unmuted I_send), H.
  - apply (getPlaybackInfo_preserves unmuted I_send I_source), H.
  - apply (getSubwooferGain_preserves unmuted I_send), H.
  - apply (getAllSettings_preserves unmuted I_send I_source), H.
  - apply (testConnection_preserves unmuted I_send I_source), H.
Qed.

Lemma getMuted_unmuted c b :
  unmuted c -> fst (KEFSpeaker.getMuted c) = Return b -> b = false.
Proof.
  unfold unmuted. intros H.
  unfold KEFSpeaker.getMuted, bind, gets, ret.
  pose proof (getVolume_this c) as Ht.
  destruct (KEFSpeaker.getVolume c) as [[v | e] c']; cbn [fst snd] in *.
  - rewrite Ht, H, andb_false_r. congruence.
  - discriminate.
Qed.

(** X7.  On a new client, after any sequence of calls that contains
    neither [setMuted(true)] nor [toggleMute()], the mute flag is false
    and [getMuted()] can only return false, whatever volume the speaker
    reports, 0 included. *)
Theorem getMuted_needs_mute coerce (ops : list Trace.op) (c0 : KEFSpeaker.client) :
  KEFSpeaker.this c0 = KEFSpeaker.new ->
  (forall o, In o ops -> o <> Trace.OpSetMuted true /\ o <> Trace.OpToggleMute) ->
  let c := Trace.run coerce ops c0 in
  KEFSpeaker.isMuted (KEFSpeaker.this c) = false /\
  (forall b, fst (KEFSpeaker.getMuted c) = Return b -> b = false).
Proof.
  intros Hnew Hops. cbv zeta.
  assert (H : unmuted (Trace.run coerce ops c0)).
  { assert (H0 : unmuted c0) by (unfold unmuted; rewrite Hnew; reflexivity).
    clear Hnew. revert c0 H0.
    induction ops as [| o ops IH]; intros c0 H0; [exact H0 |].
    cbn. apply IH.
    - intros o' Ho'. apply Hops. right. exact Ho'.
    - destruct (Hops o (or_introl eq_refl)) as [A B].
      apply step_unmuted; assumption. }
  split; [exact H | intros b; apply getMuted_unmuted, H].
Qed.

(* ===================================================================== *)
(** ** Album art and the snapshot, continued *)
(* ===================================================================== *)

Lemma getAlbumArtUrl_cases (c : KEFSpeaker.client) :
  KEFSpeaker.getAlbumArtUrl c =
  (Return match speaker_at (KEFSpeaker.http c) (sent (KEFSpeaker.http c))
                  (GetData KEFSpeaker.playerData) with
          | Failed _ => JNull
          | Replied body =>
              if negb (truthy body) then JNull
              else
                match KEFSpeaker.albumArt_playerData body with
                | None => JNull
                | Some playerData =>
                    if negb (truthy_val playerData) then JNull
                    else if strict_eq (get playerData "state") (Some (JStr "stopped"))
                    then JNull
                    else KEFSpeaker.albumArt_icon playerData
                end
          end,
   KEFSpeaker.mkClient (KEFSpeaker.this c)
     (send (GetData KEFSpeaker.playerData) (KEFSpeaker.http c))).
Proof.
  unfold KEFSpeaker.getAlbumArtUrl, try_catch, bind, KEFSpeaker.getData, bind,
    KEFSpeaker.request, ret.
  destruct (speaker_at _ _ _) as [body | m]; [| reflexivity].
  destruct (negb (truthy body)); [reflexivity |].
  destruct (KEFSpeaker.albumArt_playerData body) as [p |]; [| reflexivity].
  destruct (negb (truthy_val p)); [reflexivity |].
  destruct (strict_eq _ _); reflexivity.
Qed.

Lemma albumArt_playerData_carries body p :
  carries body p -> truthy body = true ->
  KEFSpeaker.albumArt_playerData body = Some (Some p).
Proof.
  intros H Hb. unfold KEFSpeaker.albumArt_playerData.
  destruct H as [p rest | l p rest He Hd | l p He Hd Hp Ha | p Ha He Hd].
  - reflexivity.
  - cbn. rewrite He, Hd. reflexivity.
  - cbn. rewrite He, Hd. cbn. rewrite Hp.
    destruct p; try reflexivity; discriminate.
  - rewrite Ha, He, Hd. reflexivity.
Qed.

Lemma carries_truthy body p : carries body p -> truthy p = true -> truthy body = true.
Proof. intros [] Hp; try reflexivity; exact Hp. Qed.

Lemma albumArt_icon_order (p : jsval) :
  KEFSpeaker.albumArt_icon p =
  match Spec.first_non_empty
          [get (get p "trackRoles") "icon"; get p "icon";
           get (get (get p "player") "trackRoles") "icon"] with
  | Some u => u
  | None => JNull
  end.
Proof.
  unfold KEFSpeaker.albumArt_icon. cbv zeta. rewrite !truthy_js_and. cbn.
  destruct (truthy_val (get p "trackRoles")) eqn:E1.
  - cbn. destruct (truthy_val (get (get p "trackRoles") "icon")) eqn:E2.
    + reflexivity.
    + destruct (truthy_val (get p "icon")); [reflexivity |].
      destruct (truthy_val (get p "player")) eqn:E3.
      * cbn. destruct (truthy_val (get (get p "player") "trackRoles")) eqn:E4.
        -- cbn. destruct (truthy_val (get (get (get p "player") "trackRoles") "icon"));
             reflexivity.
        -- rewrite (falsy_has_no_field _ "icon" E4). reflexivity.
      * rewrite (falsy_has_no_field _ "trackRoles" E3). reflexivity.
  - rewrite (falsy_has_no_field _ "icon" E1). cbn.
    destruct (truthy_val (get p "icon")); [reflexivity |].
    destruct (truthy_val (get p "player")) eqn:E3.
    + cbn. destruct (truthy_val (get (get p "player") "trackRoles")) eqn:E4.
      * cbn. destruct (truthy_val (get (get (get p "player") "trackRoles") "icon"));
          reflexivity.
      * rewrite (falsy_has_no_field _ "icon" E4). reflexivity.
    + rewrite (falsy_has_no_field _ "trackRoles" E3). reflexivity.
Qed.

(** X8.  [getAlbumArtUrl()] never throws.  It returns null when the
    speaker does not answer.  When the answer carries the player data as
    a bare array, as an array under [data], as an object under [data] or
    as the answer itself, the result does not depend on which: null for
    no player data or a stopped player, otherwise the first non-empty of
    [trackRoles.icon], [icon] and [player.trackRoles.icon], or null. *)
Theorem getAlbumArtUrl_tolerates_shapes (c : KEFSpeaker.client) :
  let answer := speaker_at (KEFSpeaker.http c) (sent (KEFSpeaker.http c))
                  (GetData KEFSpeaker.playerData) in
  (exists url, fst (KEFSpeaker.getAlbumArtUrl c) = Return url) /\
  (forall m, answer = Failed m -> fst (KEFSpeaker.getAlbumArtUrl c) = Return JNull) /\
  (forall body p,
      answer = Replied body -> carries body p ->
      fst (KEFSpeaker.getAlbumArtUrl c) =
        Return (if negb (truthy p) then JNull
                else if strict_eq (get (Some p) "state") (Some (JStr "stopped"))
                then JNull
                else match Spec.first_non_empty
                             [get (get (Some p) "trackRoles") "icon";
                              get (Some p) "icon";
                              get (get (get (Some p) "player") "trackRoles") "icon"] with
                     | Some url => url
                     | None => JNull
                     end)).
Proof.
  cbv zeta. rewrite getAlbumArtUrl_cases. cbn [fst].
  split; [eexists; reflexivity |]. split.
  - intros m ->. reflexivity.
  - intros body p -> H.
    destruct (truthy body) eqn:Hb.
    + cbn [negb]. rewrite (albumArt_playerData_carries body p H Hb).
      cbn [truthy_val]. rewrite albumArt_icon_order. reflexivity.
    + cbn [negb]. destruct (truthy p) eqn:Hp; [| reflexivity].
      rewrite (carries_truthy body p H Hp) in Hb. discriminate.
Qed.

Lemma getSubwooferGain_cases (c : KEFSpeaker.client) :
  KEFSpeaker.getSubwooferGain c =
  (Return match speaker_at (KEFSpeaker.http c) (sent (KEFSpeaker.http c))
                  (GetData "settings:/kef/dsp/subwooferGain") with
          | Failed _ => JNum 0
          | Replied body =>
              match Spec.reported "subwooferGain" body with
              | Some (JNum g) => JNum g
              | _ => JNum 0
              end
          end,
   KEFSpeaker.mkClient (KEFSpeaker.this c)
     (send (GetData "settings:/kef/dsp/subwooferGain") (KEFSpeaker.http c))).
Proof.
  unfold KEFSpeaker.getSubwooferGain, try_catch, bind, KEFSpeaker.getData, bind,
    KEFSpeaker.request, ret.
  destruct (speaker_at _ _ _) as [body | m]; [| reflexivity].
  destruct (truthy_val (js_and (Some body) (index0 body))) eqn:E.
  - rewrite first_element_reported.
    destruct (Spec.reported "subwooferGain" body) as [[| | g | | |] |]; reflexivity.
  - rewrite (first_element_falsy body "subwooferGain" E). reflexivity.
Qed.

Lemma getSource_speaker_at c :
  speaker_at (KEFSpeaker.http (snd (KEFSpeaker.getSource c)))
  = speaker_at (KEFSpeaker.http c).
Proof.
  apply (getSource_preserves
           (fun c' => speaker_at (KEFSpeaker.http c') = speaker_at (KEFSpeaker.http c))).
  - intros f t r H; exact H.
  - intros s c' H; exact H.
  - reflexivity.
Qed.

Lemma getSource_fields c :
  KEFSpeaker.previousVolume (KEFSpeaker.this (snd (KEFSpeaker.getSource c)))
    = KEFSpeaker.previousVolume (KEFSpeaker.this c) /\
  KEFSpeaker.isMuted (KEFSpeaker.this (snd (KEFSpeaker.getSource c)))
    = KEFSpeaker.isMuted (KEFSpeaker.this c).
Proof.
  apply (getSource_preserves
           (fun c' =>
              KEFSpeaker.previousVolume (KEFSpeaker.this c')
                = KEFSpeaker.previousVolume (KEFSpeaker.this c) /\
              KEFSpeaker.isMuted (KEFSpeaker.this c')
                = KEFSpeaker.isMuted (KEFSpeaker.this c))).
  - intros f t r H; exact H.
  - intros s c' H; exact H.
  - split; reflexivity.
Qed.

Lemma read_volume_mute_reachable settings (c : KEFSpeaker.client) :
  Spec.reachable (speaker_at (KEFSpeaker.http c)) ->
  exists v v',
    KEFSpeaker.read_volume_mute settings c =
    (Return (KEFSpeaker.with_muted
               (strict_eq (Some v') (Some (JNum 0))
                && KEFSpeaker.isMuted (KEFSpeaker.this c))
               (KEFSpeaker.with_volume v settings)),
     KEFSpeaker.mkClient (KEFSpeaker.this c)
       (send (GetData "player:volume")
          (send (GetData "player:volume") (KEFSpeaker.http c)))).
Proof.
  intros Hr.
  unfold KEFSpeaker.read_volume_mute, KEFSpeaker.getMuted, try_catch, bind, gets, ret.
  rewrite getVolume_cases. cbv zeta.
  destruct (Hr (sent (KEFSpeaker.http c)) (GetData "player:volume")) as [b1 ->].
  cbv beta iota. rewrite getVolume_cases. cbv zeta.
  cbn [KEFSpeaker.http KEFSpeaker.this sent speaker_at send].
  destruct (Hr (sent (KEFSpeaker.http c) ++ [GetData "player:volume"])%list
              (GetData "player:volume")) as [b2 ->].
  cbv beta iota. cbn [KEFSpeaker.this].
  eexists _, _. reflexivity.
Qed.

Lemma read_dsp_cases settings (c : KEFSpeaker.client) :
  exists g,
    KEFSpeaker.read_dsp settings c =
    (Return (KEFSpeaker.with_subwooferGain (JNum g) settings),
     KEFSpeaker.mkClient (KEFSpeaker.this c)
       (send (GetData "settings:/kef/dsp/subwooferGain") (KEFSpeaker.http c))).
Proof.
  unfold KEFSpeaker.read_dsp, try_catch, bind, ret.
  rewrite getSubwooferGain_cases.
  destruct (speaker_at _ _ _) as [body | m]; [| exists 0; reflexivity].
  destruct (Spec.reported "subwooferGain" body) as [[| | g | | |] |];
    try (exists 0; reflexivity).
  exists g. reflexivity.
Qed.

(** X9.  When the speaker answers every request and is on a source
    [current] other than "standby", [getAllSettings()] returns a snapshot
    with [standby = false], [source = current], a volume, a mute state
    and a numeric subwoofer gain, and sends five reads: the source twice,
    the volume twice and the gain.  The volume of the snapshot and the
    volume that decides the mute state come from two different reads. *)
Theorem getAllSettings_awake_reads (c : KEFSpeaker.client) (current : string) :
  Spec.reachable (speaker_at (KEFSpeaker.http c)) ->
  fst (KEFSpeaker.getPowerState c) = Return true ->
  fst (KEFSpeaker.getSource (snd (KEFSpeaker.getPowerState c))) = Return current ->
  current <> "standby" ->
  exists settings v v' g,
    fst (KEFSpeaker.getAllSettings c) = Return settings /\
    KEFSpeaker.standby settings = Some false /\
    KEFSpeaker.settings_source settings = Some current /\
    KEFSpeaker.volume settings = Some v /\
    KEFSpeaker.muted settings =
      Some (strict_eq (Some v') (Some (JNum 0))
            && KEFSpeaker.isMuted (KEFSpeaker.this c)) /\
    KEFSpeaker.subwooferGain settings = Some (JNum g) /\
    sent (KEFSpeaker.http (snd (KEFSpeaker.getAllSettings c))) =
      (sent (KEFSpeaker.http c)
         ++ [GetData KEFSpeaker.physicalSource; GetData KEFSpeaker.physicalSource;
             GetData "player:volume"; GetData "player:volume";
             GetData "settings:/kef/dsp/subwooferGain"])%list.
Proof.
  intros Hr Hp Hs Hn.
  unfold KEFSpeaker.getAllSettings, try_catch, bind, ret. cbv zeta.
  rewrite getPowerState_cases in Hp, Hs |- *. cbn [fst snd] in Hp, Hs.
  injection Hp as Hp. rewrite Hp. cbv beta iota.
  pose proof (getSource_sent
                (KEFSpeaker.mkClient (KEFSpeaker.this c)
                   (send (GetData KEFSpeaker.physicalSource) (KEFSpeaker.http c))))
    as Hsent.
  pose proof (getSource_speaker_at
                (KEFSpeaker.mkClient (KEFSpeaker.this c)
                   (send (GetData KEFSpeaker.physicalSource) (KEFSpeaker.http c))))
    as Hat.
  pose proof (getSource_fields
                (KEFSpeaker.mkClient (KEFSpeaker.this c)
                   (send (GetData KEFSpeaker.physicalSource) (KEFSpeaker.http c))))
    as [_ Hmu].
  destruct (KEFSpeaker.getSource _) as [[cur | e] c2]; cbn [fst snd] in *;
    [| discriminate].
  injection Hs as ->.
  assert (Hcur : (current =? "standby") = false) by (apply String.eqb_neq, Hn).
  rewrite Hcur. cbn [negb andb].
  cbn [KEFSpeaker.http KEFSpeaker.this sent speaker_at send] in Hsent, Hat, Hmu.
  assert (Hr2 : Spec.reachable (speaker_at (KEFSpeaker.http c2)))
    by (rewrite Hat; exact Hr).
  destruct (read_volume_mute_reachable
              (KEFSpeaker.with_settings_source current
                 (KEFSpeaker.with_standby false KEFSpeaker.no_settings)) c2 Hr2)
    as [v [v' ->]].
  destruct (read_dsp_cases
              (KEFSpeaker.with_muted
                 (strict_eq (Some v') (Some (JNum 0))
                  && KEFSpeaker.isMuted (KEFSpeaker.this c2))
                 (KEFSpeaker.with_volume v
                    (KEFSpeaker.with_settings_source current
                       (KEFSpeaker.with_standby false KEFSpeaker.no_settings))))
              (KEFSpeaker.mkClient (KEFSpeaker.this c2)
                 (send (GetData "player:volume")
                    (send (GetData "player:volume") (KEFSpeaker.http c2)))))
    as [g ->].
  exists (KEFSpeaker.with_subwooferGain (JNum g)
            (KEFSpeaker.with_muted
               (strict_eq (Some v') (Some (JNum 0))
                && KEFSpeaker.isMuted (KEFSpeaker.this c2))
               (KEFSpeaker.with_volume v
                  (KEFSpeaker.with_settings_source current
                     (KEFSpeaker.with_standby false KEFSpeaker.no_settings))))),
    v, v', g.
  split; [reflexivity |]. cbn.
  split; [reflexivity |]. split; [reflexivity |]. split; [reflexivity |].
  split; [rewrite Hmu; reflexivity |]. split; [reflexivity |].
  rewrite Hsent, <- !app_assoc. reflexivity.
Qed.

(* ===================================================================== *)
(** ** The model registry *)
(* ===================================================================== *)

Lemma In_includes l s : In s l -> KEFModels.includes l s = true.
Proof.
  unfold KEFModels.includes. intros H. apply existsb_exists.
  exists s. split; [exact H | apply String.eqb_refl].
Qed.

Lemma registry_sources id config :
  KEFModels.lookup id KEFModels.KEF_MODELS = Some config ->
  forallb (fun x => (toLowerCase x =? x) && KEFModels.includes KEFSource x)
    (KEFModels.sources config) = true.
Proof.
  unfold KEFModels.KEF_MODELS. cbn [KEFModels.lookup]. intros H.
  repeat match type of H with
         | (if ?b then _ else _) = _ =>
             destruct b; [injection H as <-; reflexivity |]
         end.
  discriminate.
Qed.

(** X10.  For a model id of the registry, [isSourceSupported] holds
    exactly when the source, compared in lower case, is in the model's
    own list of sources; every supported source is one of the seven
    values of [KEFSource]. *)
Theorem isSourceSupported_iff_listed (modelId source : string)
    (config : KEFModels.KEFModelConfig) :
  KEFModels.lookup modelId KEFModels.KEF_MODELS = Some config ->
  (KEFModels.isSourceSupported modelId source = true <->
   Spec.contains_ci (KEFModels.sources config) source) /\
  (KEFModels.isSourceSupported modelId source = true ->
   In (toLowerCase source) KEFSource).
Proof.
  intros H.
  pose proof (registry_sources modelId config H) as Hl.
  rewrite forallb_forall in Hl.
  assert (Hc : KEFModels.getModelConfig modelId = config)
    by (unfold KEFModels.getModelConfig; rewrite H; reflexivity).
  unfold KEFModels.isSourceSupported. cbv zeta. rewrite Hc.
  split; [split |].
  - intros Hs. apply includes_In in Hs.
    exists (toLowerCase source). split; [exact Hs | apply toLowerCase_idempotent].
  - intros [x [Hx E]]. apply In_includes.
    destruct (proj1 (andb_true_iff _ _) (Hl x Hx)) as [Hlow _].
    apply String.eqb_eq in Hlow. rewrite <- E, Hlow. exact Hx.
  - intros Hs. apply includes_In in Hs.
    destruct (proj1 (andb_true_iff _ _) (Hl _ Hs)) as [_ Hk].
    apply includes_In, Hk.
Qed.

Lemma detect_in_registry model serial :
  exists config,
    KEFModels.lookup (KEFModels.detect model serial) KEFModels.KEF_MODELS = Some config /\
    KEFModels.getModelConfig (KEFModels.detect model serial) = config.
Proof.
  unfold KEFModels.detect.
  repeat match goal with
         | |- context [if ?b then _ else _] => destruct b
         end; eexists; split; reflexivity.
Qed.

(** X11.  Whenever [detectModelFromSpeaker] returns, the id is a key of
    [KEF_MODELS] and [getModelConfig] gives the configuration stored
    under it.  It throws only when [model] or [serialNumber] is a truthy
    value that is not a string. *)
Theorem detectModelFromSpeaker_in_registry (speakerInfo : jsval) :
  match KEFModels.detectModelFromSpeaker speakerInfo with
  | Return id =>
      exists config,
        KEFModels.lookup id KEFModels.KEF_MODELS = Some config /\
        KEFModels.getModelConfig id = config
  | Throw _ =>
      exists k v,
        (k = "model" \/ k = "serialNumber") /\
        get speakerInfo k = Some v /\ truthy v = true /\ forall s, v <> JStr s
  end.
Proof.
  assert (Hbad : forall k v,
             (k = "model" \/ k = "serialNumber") ->
             get speakerInfo k = Some v -> truthy v = true ->
             (forall s, v <> JStr s) ->
             exists k v,
               (k = "model" \/ k = "serialNumber") /\
               get speakerInfo k = Some v /\ truthy v = true /\ forall s, v <> JStr s).
  { intros k v Hk Hv Ht Hs. exists k, v. auto. }
  unfold KEFModels.detectModelFromSpeaker, js_or.
  destruct (get speakerInfo "model") as [m |] eqn:Em; cbn [truthy_val];
    [destruct (truthy m) eqn:Tm;
       [destruct m as [| b | q | rawModel | l | l];
          try (apply (Hbad "model" _ (or_introl eq_refl) Em Tm); discriminate) |] |];
    (destruct (get speakerInfo "serialNumber") as [sn |] eqn:Es; cbn [truthy_val];
       [destruct (truthy sn) eqn:Ts;
          [destruct sn as [| b' | q' | rawSerial | l' | l'];
             try (apply (Hbad "serialNumber" _ (or_intror eq_refl) Es Ts);
                  discriminate) |] |]);
    apply detect_in_registry.
Qed.

(** X12.  The title mapping turns each of the fourteen spellings it
    knows into one of seven model names and passes every other page
    title through as it is, so a model taken from the title need not be
    one of the seven.  The release text and the prefix of the serial
    number give only those seven names.  Each of the seven is kept as it
    is by the title mapping and is detected by [detectModelFromSpeaker]
    as a model of the registry other than "auto-detect", whose display
    name starts with "KEF " followed by it. *)
Theorem model_names_are_detected :
  (forall t, In t title_aliases -> In (KEFSpeaker.model_of_title t) model_names) /\
  (forall t, ~ In t title_aliases -> KEFSpeaker.model_of_title t = t) /\
  (forall p m, KEFSpeaker.model_of_release p = Some m ->
               In m model_names /\ KEFSpeaker.model_of_title p = m) /\
  (forall prefix m, In (prefix, m) KEFSpeaker.modelMap -> In m model_names) /\
  (forall m, In m model_names ->
     KEFSpeaker.model_of_title m = m /\
     exists id config,
       KEFModels.detectModelFromSpeaker (Some (JObj [("model", JStr m)])) = Return id /\
       id <> "auto-detect" /\
       KEFModels.lookup id KEFModels.KEF_MODELS = Some config /\
       startsWith (KEFModels.name config) ("KEF " ++ m) = true).
Proof.
  split; [| split; [| split; [| split]]].
  - intros t H. cbn in H.
    repeat (destruct H as [<- | H]; [cbn; tauto |]). contradiction.
  - intros t H. unfold KEFSpeaker.model_of_title.
    repeat match goal with
           | |- context [if ?b then _ else _] =>
               destruct b eqn:?;
               [ exfalso; apply H;
                 repeat match goal with
                        | E : (_ || _) = true |- _ => apply orb_true_iff in E; destruct E
                        | E : (t =? _) = true |- _ => apply String.eqb_eq in E; subst t
                        end; cbn; tauto |]
           end.
    reflexivity.
  - intros p m. unfold KEFSpeaker.model_of_release.
    repeat match goal with
           | |- context [if ?b then _ else _] =>
               destruct b eqn:?;
               [ intros H; injection H as <- |]
           end; try discriminate;
      (split; [cbn; tauto |]);
      repeat match goal with
             | H : (_ || _) = true |- _ => apply orb_true_iff in H; destruct H
             | H : (p =? _) = true |- _ => apply String.eqb_eq in H; subst p
             end; reflexivity.
  - intros prefix m H. cbn in H.
    repeat (destruct H as [H | H]; [injection H as <- <-; cbn; tauto |]).
    contradiction.
  - intros m H. cbn in H.
    repeat (destruct H as [<- | H];
            [split; [reflexivity |]; eexists _, _;
             split; [reflexivity |]; split; [discriminate |];
             split; reflexivity |]).
    contradiction.
Qed.

(* ===================================================================== *)
(** ** Volume steps and the subwoofer gain *)
(* ===================================================================== *)


Lemma setVolume_as_number coerce (v : json) :
  KEFSpeaker.setVolume coerce v = KEFSpeaker.setVolume_number (ToNumber coerce v).
Proof. reflexivity. Qed.


Section StepsProperties.

Variables (plus minus : json -> number -> number).


End StepsProperties.

Lemma gain_range (x : number) :
  match Math_min (Fin 10) (Math_max (Fin (-10)) x) with
  | Fin r =>
      (-10 <= r <= 10)%Q /\
      (forall g, x = Fin g ->
         ((-10 <= g <= 10)%Q -> (r == g)%Q) /\
         ((10 <= g)%Q -> (r == 10)%Q) /\
         ((g <= -10)%Q -> (r == -10)%Q)) /\
      x <> NaN
  | NaN => x = NaN
  | _ => False
  end.
Proof.
  destruct x as [q | | |]; cbn.
  - destruct (Qle_bool (-10) q) eqn:E1; cbn.
    + apply Qle_bool_iff in E1.
      destruct (Qle_bool 10 q) eqn:E2.
      * apply Qle_bool_iff in E2. split; [split; discriminate |].
        split; [| discriminate].
        intros g Hg. injection Hg as <-. repeat split; intros; lra.
      * assert (H : (q < 10)%Q).
        { apply Qnot_le_lt. intros H. apply Qle_bool_iff in H. congruence. }
        split; [split; lra |].
        split; [| discriminate].
        intros g Hg. injection Hg as <-. repeat split; intros; lra.
    + assert (H : (q < -10)%Q).
      { apply Qnot_le_lt. intros H. apply Qle_bool_iff in H. congruence. }
      split; [split; discriminate |].
      split; [| discriminate].
      intros g Hg. injection Hg as <-. repeat split; intros; lra.
  - reflexivity.
  - split; [split; discriminate |]. split; discriminate.
  - split; [split; discriminate |]. split; discriminate.
Qed.

(** X14.  Against a speaker that answers and returns what was written,
    [getSubwooferGain()] after [setSubwooferGain(gain)] returns a number
    of [-10, 10]: [gain] itself when it lies in that interval, the nearer
    bound when it lies outside, and 0 when [gain] is not a number. *)
Theorem setSubwooferGain_getSubwooferGain_roundtrip coerce (d : Transport.device)
    (c : KEFSpeaker.client) (gain : json) :
  Spec.reachable d -> Spec.faithful d -> speaker_at (KEFSpeaker.http c) = d ->
  exists c1 c2 r,
    KEFSpeaker.setSubwooferGain coerce gain c = (Return tt, c1) /\
    KEFSpeaker.getSubwooferGain c1 = (Return (JNum r), c2) /\
    (-10 <= r <= 10)%Q /\
    (forall g, gain = JNum g ->
       ((-10 <= g <= 10)%Q -> (r == g)%Q) /\
       ((10 <= g)%Q -> (r == 10)%Q) /\
       ((g <= -10)%Q -> (r == -10)%Q)) /\
    (ToNumber coerce gain = NaN -> r = 0%Q).
Proof.
  intros Hr Hf Hd.
  unfold KEFSpeaker.setSubwooferGain. cbv zeta. rewrite setData_cases. cbv zeta.
  pose proof (gain_range (ToNumber coerce gain)) as Hx.
  set (x := Math_min (Fin 10) (Math_max (Fin (-10)) (ToNumber coerce gain))) in *.
  clearbody x.
  destruct (Hr (sent (KEFSpeaker.http c))
              (SetData "settings:/kef/dsp/subwooferGain" (KEFSpeaker.gain_payload x)))
    as [body Hbody].
  rewrite Hd, Hbody.
  set (c1 := KEFSpeaker.mkClient (KEFSpeaker.this c)
               (send (SetData "settings:/kef/dsp/subwooferGain"
                        (KEFSpeaker.gain_payload x)) (KEFSpeaker.http c))).
  pose proof (getSubwooferGain_cases c1) as Hget.
  cbn [c1 KEFSpeaker.http KEFSpeaker.this sent speaker_at send] in Hget.
  rewrite Hd in Hget.
  rewrite (Hf _ "settings:/kef/dsp/subwooferGain" (KEFSpeaker.gain_payload x))
    in Hget by apply last_write_snoc.
  fold c1 in Hget.
  exists c1, (snd (KEFSpeaker.getSubwooferGain c1)),
    (match x with Fin r => r | _ => 0 end).
  split; [reflexivity |]. split.
  { rewrite Hget. cbn. destruct x; reflexivity. }
  clear Hget c1 Hbody.
  destruct x as [r | | |]; try contradiction.
  - destruct Hx as [H1 [H2 H3]]. split; [exact H1 |]. split.
    + intros g ->. apply H2. reflexivity.
    + intros E. contradiction.
  - split; [split; discriminate |]. split; [| reflexivity].
    intros g ->. discriminate Hx.
Qed.

(* ===================================================================== *)
(** ** Speaker information *)
(* ===================================================================== *)

Lemma settle_getData path (c : KEFSpeaker.client) :
  KEFSpeaker.settle (KEFSpeaker.getData path) c =
  (Return (settled (speaker_at (KEFSpeaker.http c) (sent (KEFSpeaker.http c))
                      (GetData path))),
   KEFSpeaker.mkClient (KEFSpeaker.this c) (send (GetData path) (KEFSpeaker.http c))).
Proof.
  unfold KEFSpeaker.settle, KEFSpeaker.getData, bind, KEFSpeaker.request, ret.
  destruct (speaker_at _ _ _); reflexivity.
Qed.

Lemma getSpeakerInfo_cases web (c : KEFSpeaker.client) :
  match map settled (answers (speaker_at (KEFSpeaker.http c))
                       (sent (KEFSpeaker.http c)) info_paths) with
  | [serial; firmware; name1; name2; name3] =>
      KEFSpeaker.getSpeakerInfo web c =
      (Return (KEFSpeaker.info
                 (snd (KEFSpeaker.scan_results web serial firmware name1 name2 name3
                         (KEFSpeaker.mkScan KEFSpeaker.unknown_info false)))),
       KEFSpeaker.mkClient (KEFSpeaker.this c)
         (mkTransport (speaker_at (KEFSpeaker.http c))
            (sent (KEFSpeaker.http c) ++ map GetData info_paths)))
  | _ => False
  end.
Proof.
  cbn [answers info_paths map].
  unfold KEFSpeaker.getSpeakerInfo, bind.
  rewrite settle_getData. cbv beta iota.
  rewrite settle_getData. cbv beta iota.
  rewrite settle_getData. cbv beta iota.
  rewrite settle_getData. cbv beta iota.
  rewrite settle_getData. cbv beta iota.
  unfold send. cbn [KEFSpeaker.http KEFSpeaker.this sent speaker_at].
  unfold ret.
  match goal with
  | |- (_, KEFSpeaker.mkClient _ (mkTransport _ ?l))
       = (_, KEFSpeaker.mkClient _ (mkTransport _ ?r)) =>
      replace r with l by (rewrite <- !app_assoc; reflexivity)
  end.
  reflexivity.
Qed.

Lemma scan_web_cases web s :
  KEFSpeaker.scan_web web s =
  (Return tt,
   KEFSpeaker.mkScan
     (KEFSpeaker.mkSpeakerInfo (KEFSpeaker.info_name (KEFSpeaker.info s))
        match KEFSpeaker.page_model web with
        | Some m => if m =? "" then KEFSpeaker.info_model (KEFSpeaker.info s) else m
        | None => KEFSpeaker.info_model (KEFSpeaker.info s)
        end
        match KEFSpeaker.page_version web with
        | Some v => if v =? "" then KEFSpeaker.info_firmware (KEFSpeaker.info s)
                    else Some (JStr v)
        | None => KEFSpeaker.info_firmware (KEFSpeaker.info s)
        end
        (KEFSpeaker.info_serialNumber (KEFSpeaker.info s)))
     (KEFSpeaker.nameFound s)).
Proof.
  destruct s as [[n m f sn] nf], web as [[pm |] [pv |]];
    unfold KEFSpeaker.scan_web, bind, when, KEFSpeaker.set_info_model,
      KEFSpeaker.set_info_firmware, modify, ret; cbn;
    try destruct (pm =? ""); try destruct (pv =? ""); reflexivity.
Qed.

(** The steps after the serial number leave the model as it is. *)
Lemma scan_firmware_model r s :
  KEFSpeaker.info_model (KEFSpeaker.info (snd (KEFSpeaker.scan_firmware r s)))
  = KEFSpeaker.info_model (KEFSpeaker.info s) /\
  KEFSpeaker.info_name (KEFSpeaker.info (snd (KEFSpeaker.scan_firmware r s)))
  = KEFSpeaker.info_name (KEFSpeaker.info s) /\
  KEFSpeaker.nameFound (snd (KEFSpeaker.scan_firmware r s)) = KEFSpeaker.nameFound s /\
  fst (KEFSpeaker.scan_firmware r s) = Return tt.
Proof.
  unfold KEFSpeaker.scan_firmware.
  destruct (KEFSpeaker.first_element r) as [e |]; [| repeat split].
  unfold bind, gets, when, KEFSpeaker.set_info_firmware, modify, ret.
  destruct (_ && _); repeat split.
Qed.

Lemma scan_name_cases r s :
  KEFSpeaker.scan_name r s =
  (Return tt,
   if KEFSpeaker.nameFound s then s
   else match usable_name r with
        | Some v =>
            KEFSpeaker.mkScan
              (KEFSpeaker.mkSpeakerInfo v (KEFSpeaker.info_model (KEFSpeaker.info s))
                 (KEFSpeaker.info_firmware (KEFSpeaker.info s))
                 (KEFSpeaker.info_serialNumber (KEFSpeaker.info s))) true
        | None => s
        end).
Proof.
  unfold KEFSpeaker.scan_name, usable_name, bind, gets, ret.
  destruct (KEFSpeaker.nameFound s); cbn [negb]; [reflexivity |].
  destruct (KEFSpeaker.first_element r) as [e |]; [| reflexivity].
  destruct (js_or _ _) as [v |]; [| reflexivity].
  destruct (truthy v && _); reflexivity.
Qed.

Lemma scan_serial_model r s :
  KEFSpeaker.info_model (KEFSpeaker.info s) <> "Unknown" ->
  fst (KEFSpeaker.scan_serial r s) = Return tt /\
  KEFSpeaker.info_model (KEFSpeaker.info (snd (KEFSpeaker.scan_serial r s)))
  = KEFSpeaker.info_model (KEFSpeaker.info s).
Proof.
  intros H. apply String.eqb_neq in H.
  unfold KEFSpeaker.scan_serial.
  destruct (KEFSpeaker.first_element r) as [e |]; [| split; reflexivity].
  cbv zeta. destruct (truthy_val _); [| split; reflexivity].
  unfold bind, gets, KEFSpeaker.set_info_serialNumber, modify, ret. cbn.
  rewrite H. split; reflexivity.
Qed.

Lemma scan_serial_name r s :
  KEFSpeaker.info_name (KEFSpeaker.info (snd (KEFSpeaker.scan_serial r s)))
  = KEFSpeaker.info_name (KEFSpeaker.info s) /\
  KEFSpeaker.nameFound (snd (KEFSpeaker.scan_serial r s)) = KEFSpeaker.nameFound s.
Proof.
  unfold KEFSpeaker.scan_serial.
  destruct (KEFSpeaker.first_element r) as [e |]; [| split; reflexivity].
  cbv zeta. destruct (truthy_val _); [| split; reflexivity].
  unfold bind, gets, KEFSpeaker.set_info_serialNumber, KEFSpeaker.set_info_model,
    modify, ret. cbn.
  destruct (_ =? "Unknown"); [| split; reflexivity].
  destruct (js_or _ _) as [[| | | x | |] |]; try (split; reflexivity).
  repeat match goal with
         | |- context [if ?b then _ else _] => destruct b
         end; split; reflexivity.
Qed.

Lemma scan_names n1 n2 n3 s :
  KEFSpeaker.nameFound s = false ->
  let m := KEFSpeaker.scan_name n1 ;;; KEFSpeaker.scan_name n2 ;;;
           KEFSpeaker.scan_name n3 in
  fst (m s) = Return tt /\
  KEFSpeaker.info_name (KEFSpeaker.info (snd (m s)))
  = match first_usable [n1; n2; n3] with
    | Some v => v
    | None => KEFSpeaker.info_name (KEFSpeaker.info s)
    end /\
  KEFSpeaker.info_model (KEFSpeaker.info (snd (m s)))
  = KEFSpeaker.info_model (KEFSpeaker.info s).
Proof.
  intros H. cbv zeta. unfold bind.
  repeat (rewrite scan_name_cases; cbv beta iota).
  cbn [fst snd first_usable]. rewrite H.
  split; [reflexivity |].
  destruct (usable_name n1) as [v1 |]; cbn; [split; reflexivity |].
  rewrite H.
  destruct (usable_name n2) as [v2 |]; cbn; [split; reflexivity |].
  rewrite H.
  destruct (usable_name n3) as [v3 |]; split; reflexivity.
Qed.

Lemma scan_firmware_firmware r s v :
  KEFSpeaker.info_firmware (KEFSpeaker.info s) = Some (JStr v) -> v <> "" ->
  KEFSpeaker.info_firmware (KEFSpeaker.info (snd (KEFSpeaker.scan_firmware r s)))
  = Some (JStr v).
Proof.
  intros H Hv. unfold KEFSpeaker.scan_firmware.
  destruct (KEFSpeaker.first_element r) as [e |]; [| exact H].
  unfold bind, gets, when. rewrite H. cbn [truthy_val truthy].
  apply String.eqb_neq in Hv. rewrite Hv, andb_false_r. exact H.
Qed.

Lemma scan_serial_firmware r s :
  KEFSpeaker.info_firmware (KEFSpeaker.info (snd (KEFSpeaker.scan_serial r s)))
  = KEFSpeaker.info_firmware (KEFSpeaker.info s).
Proof.
  unfold KEFSpeaker.scan_serial.
  destruct (KEFSpeaker.first_element r) as [e |]; [| reflexivity].
  cbv zeta. destruct (truthy_val _); [| reflexivity].
  unfold bind, gets, KEFSpeaker.set_info_serialNumber, KEFSpeaker.set_info_model,
    modify, ret. cbn.
  destruct (_ =? "Unknown"); [| reflexivity].
  destruct (js_or _ _) as [[| | | x | |] |]; try reflexivity.
  repeat match goal with
         | |- context [if ?b then _ else _] => destruct b
         end; reflexivity.
Qed.

Lemma scan_names_firmware n1 n2 n3 s :
  KEFSpeaker.info_firmware
    (KEFSpeaker.info (snd ((KEFSpeaker.scan_name n1 ;;; KEFSpeaker.scan_name n2 ;;;
                            KEFSpeaker.scan_name n3) s)))
  = KEFSpeaker.info_firmware (KEFSpeaker.info s).
Proof.
  unfold bind. repeat (rewrite scan_name_cases; cbv beta iota). cbn [snd].
  repeat match goal with
         | |- context [if ?b then _ else _] => destruct b; cbn
         | |- context [match usable_name ?r with _ => _ end] =>
             destruct (usable_name r); cbn
         end; reflexivity.
Qed.

(** The loop, step by step. *)
Lemma scan_results_cases web serial firmware name1 name2 name3 s :
  let s1 := snd (KEFSpeaker.scan_web web s) in
  let names := KEFSpeaker.scan_name name1 ;;; KEFSpeaker.scan_name name2 ;;;
               KEFSpeaker.scan_name name3 in
  snd (KEFSpeaker.scan_results web serial firmware name1 name2 name3 s) =
  match KEFSpeaker.scan_serial serial s1 with
  | (Throw _, s2) => s2
  | (Return _, s2) => snd (names (snd (KEFSpeaker.scan_firmware firmware s2)))
  end.
Proof.
  cbv zeta. unfold KEFSpeaker.scan_results, try_catch.
  unfold bind at 1. rewrite scan_web_cases. cbv beta iota. cbn [snd].
  set (s1 := KEFSpeaker.mkScan _ _).
  unfold bind at 1.
  destruct (KEFSpeaker.scan_serial serial s1) as [[[] | e] s2]; [| reflexivity].
  unfold bind at 1.
  pose proof (scan_firmware_model firmware s2) as [_ [_ [_ Hf]]].
  destruct (KEFSpeaker.scan_firmware firmware s2) as [[[] | e] s3]; cbn [fst snd] in *;
    [| discriminate].
  unfold bind. repeat (rewrite scan_name_cases; cbv beta iota). reflexivity.
Qed.

Lemma first_element_failed m : KEFSpeaker.first_element (settled (Failed m)) = None.
Proof. reflexivity. Qed.

(** X15.  [getSpeakerInfo()] always returns.  It sends the same five
    reads in the same order whatever the speaker answers, and changes no
    field of the client.  When none of the reads is answered the result
    is the name "KEF Speaker" with the model and the firmware version
    of the web page, "Unknown" and undefined when the page gives none. *)
Theorem getSpeakerInfo_never_fails web (c : KEFSpeaker.client) :
  let d := speaker_at (KEFSpeaker.http c) in
  let h := sent (KEFSpeaker.http c) in
  exists info,
    KEFSpeaker.getSpeakerInfo web c =
      (Return info,
       KEFSpeaker.mkClient (KEFSpeaker.this c)
         (mkTransport d (h ++ map GetData info_paths))) /\
    (Forall (fun answer => exists m, answer = Failed m) (answers d h info_paths) ->
     info =
       KEFSpeaker.mkSpeakerInfo (JStr "KEF Speaker")
         match KEFSpeaker.page_model web with
         | Some m => if m =? "" then "Unknown" else m
         | None => "Unknown"
         end
         match KEFSpeaker.page_version web with
         | Some v => if v =? "" then None else Some (JStr v)
         | None => None
         end
         None).
Proof.
  cbv zeta. pose proof (getSpeakerInfo_cases web c) as H.
  cbn [answers info_paths map] in H. rewrite H.
  eexists. split; [reflexivity |].
  intros Hall. cbn [answers info_paths] in Hall.
  repeat match goal with
         | Hall : Forall _ (_ :: _) |- _ =>
             let Hm := fresh "Hm" in
             let m := fresh "m" in
             apply Forall_cons_iff in Hall; destruct Hall as [[m Hm] Hall];
             rewrite Hm
         end.
  rewrite scan_results_cases. cbv zeta. rewrite scan_web_cases. cbn [snd].
  unfold KEFSpeaker.scan_serial, KEFSpeaker.scan_firmware.
  rewrite !first_element_failed. unfold ret at 1 2. cbv beta iota. cbn [snd].
  unfold bind. repeat (rewrite scan_name_cases; cbv beta iota).
  unfold usable_name. rewrite !first_element_failed. cbn.
  reflexivity.
Qed.

(** X16.  In the result of [getSpeakerInfo()] a model found on the web
    page wins over the serial number and the firmware answer, and a
    version found on the page wins over the firmware answer.  The name
    is the first usable one of the three name reads, in their order, or
    "KEF Speaker" when there is none; it is also "KEF Speaker" when
    the step of the serial number throws, which ends the scan. *)
Theorem getSpeakerInfo_priorities web (c : KEFSpeaker.client) :
  let d := speaker_at (KEFSpeaker.http c) in
  let h := sent (KEFSpeaker.http c) in
  let serial := settled (d h (GetData "settings:/kef/host/serialNumber")) in
  let name1 :=
    settled (d (h ++ [GetData "settings:/kef/host/serialNumber";
                      GetData "settings:/kef/host/firmwareVersion"])%list
               (GetData "settings:/kef/host/speakerName")) in
  let name2 :=
    settled (d (h ++ [GetData "settings:/kef/host/serialNumber";
                      GetData "settings:/kef/host/firmwareVersion";
                      GetData "settings:/kef/host/speakerName"])%list
               (GetData "settings:/deviceName")) in
  let name3 :=
    settled (d (h ++ [GetData "settings:/kef/host/serialNumber";
                      GetData "settings:/kef/host/firmwareVersion";
                      GetData "settings:/kef/host/speakerName";
                      GetData "settings:/deviceName"])%list
               (GetData "settings:/system/deviceName")) in
  exists info,
    fst (KEFSpeaker.getSpeakerInfo web c) = Return info /\
    (forall m, KEFSpeaker.page_model web = Some m -> m <> "" -> m <> "Unknown" ->
               KEFSpeaker.info_model info = m) /\
    (forall v, KEFSpeaker.page_version web = Some v -> v <> "" ->
               KEFSpeaker.info_firmware info = Some (JStr v)) /\
    KEFSpeaker.info_name info =
      match fst (KEFSpeaker.scan_serial serial
                   (snd (KEFSpeaker.scan_web web fresh_scan))) with
      | Throw _ => JStr "KEF Speaker"
      | Return _ =>
          match first_usable [name1; name2; name3] with
          | Some v => v
          | None => JStr "KEF Speaker"
          end
      end.
Proof.
  cbv zeta. pose proof (getSpeakerInfo_cases web c) as H.
  cbn [answers info_paths map] in H. rewrite <- !app_assoc in H. cbn [app] in H.
  rewrite H. clear H. cbn [fst].
  eexists. split; [reflexivity |].
  rewrite scan_results_cases. cbv zeta.
  set (serial := settled (_ _ (GetData "settings:/kef/host/serialNumber"))).
  set (firmware := settled (_ _ (GetData "settings:/kef/host/firmwareVersion"))).
  set (name1 := settled (_ _ (GetData "settings:/kef/host/speakerName"))).
  set (name2 := settled (_ _ (GetData "settings:/deviceName"))).
  set (name3 := settled (_ _ (GetData "settings:/system/deviceName"))).
  fold fresh_scan.
  set (s1 := snd (KEFSpeaker.scan_web web fresh_scan)).
  assert (Hs1 : s1 = snd (KEFSpeaker.scan_web web fresh_scan)) by reflexivity.
  rewrite scan_web_cases in Hs1. cbn [snd fresh_scan KEFSpeaker.info KEFSpeaker.nameFound
    KEFSpeaker.unknown_info KEFSpeaker.info_name KEFSpeaker.info_model
    KEFSpeaker.info_firmware KEFSpeaker.info_serialNumber] in Hs1.
  pose proof (scan_serial_name serial s1) as [Hn2 Hf2].
  pose proof (scan_serial_firmware serial s1) as Hfw2.
  pose proof (fun H => scan_serial_model serial s1 H) as Hm2.
  destruct (KEFSpeaker.scan_serial serial s1) as [[[] | e] s2]; cbn [fst snd] in *.
  - pose proof (scan_firmware_model firmware s2) as [Hm3 [Hn3 [Hf3 _]]].
    pose proof (fun v => scan_firmware_firmware firmware s2 v) as Hfw3.
    set (s3 := snd (KEFSpeaker.scan_firmware firmware s2)) in *.
    assert (Hnf : KEFSpeaker.nameFound s3 = false).
    { rewrite Hf3, Hf2, Hs1. reflexivity. }
    pose proof (scan_names name1 name2 name3 s3 Hnf) as Hnames. cbv zeta in Hnames.
    destruct Hnames as [_ [Hname Hmodel]].
    pose proof (scan_names_firmware name1 name2 name3 s3) as Hfw4.
    split; [| split].
    + intros m Hm Hne Hu. rewrite Hmodel, Hm3.
      assert (E : KEFSpeaker.info_model (KEFSpeaker.info s1) = m).
      { rewrite Hs1. cbn. rewrite Hm. apply String.eqb_neq in Hne. rewrite Hne.
        reflexivity. }
      destruct (Hm2 ltac:(rewrite E; exact Hu)) as [_ ->]. exact E.
    + intros v Hv Hne. rewrite Hfw4. apply Hfw3; [| exact Hne].
      rewrite Hfw2, Hs1. cbn. rewrite Hv. apply String.eqb_neq in Hne. rewrite Hne.
      reflexivity.
    + rewrite Hname, Hn3, Hn2, Hs1. reflexivity.
  - split; [| split].
    + intros m Hm Hne Hu.
      assert (E : KEFSpeaker.info_model (KEFSpeaker.info s1) = m).
      { rewrite Hs1. cbn. rewrite Hm. apply String.eqb_neq in Hne. rewrite Hne.
        reflexivity. }
      destruct (Hm2 ltac:(rewrite E; exact Hu)) as [Hbad _]. discriminate Hbad.
    + intros v Hv Hne. rewrite Hfw2, Hs1. cbn. rewrite Hv.
      apply String.eqb_neq in Hne. rewrite Hne. reflexivity.
    + rewrite Hn2, Hs1. reflexivity.
Qed.

(* ===================================================================== *)
(** ** Playback control *)
(* ===================================================================== *)

Import Playback PlaybackSpec.

Section ControlProperties.

Variable render : json -> string.

Lemma control_command_cases control s :
  control_command render control s =
  (match player_at s (received s) (Activate control) with
   | Failed m => Throw (Error m)
   | Replied body =>
       if truthy_val (js_and (Some body) (get (Some body) "error")) then
         Throw (Error (message_of render
                         (js_or (get (get (Some body) "error") "message")
                                (Some (JStr "Operation failed")))))
       else Return tt
   end,
   after s [Activate control]).
  Proof.
    unfold control_command, try_catch, bind, activate, throw, ret, after.
    destruct (player_at s (received s) (Activate control)) as [body | m];
      [| reflexivity].
    destruct (truthy_val _); reflexivity.
  Qed.

Lemma on_client_getData path s :
  on_client (KEFSpeaker.getData path) s =
  (match player_at s (received s) (Value (GetData path)) with
   | Replied body => Return body
   | Failed m => Throw (Error m)
   end,
   after s [Value (GetData path)]).
  Proof.
    unfold on_client, lift, accessors, absorb, KEFSpeaker.getData, bind,
      KEFSpeaker.request, ret, after.
    cbn [KEFSpeaker.http KEFSpeaker.this speaker_at sent send map].
    rewrite app_nil_r.
    destruct (player_at s (received s) (Value (GetData path))); reflexivity.
  Qed.

Lemma after_after s l1 l2 : after (after s l1) l2 = after s (l1 ++ l2).
  Proof. unfold after. cbn. rewrite app_assoc. reflexivity. Qed.

(** X17.  A playback control command sends one activation.  It throws
    when the speaker does not answer, and also when the speaker answers
    with a body whose [error] is truthy: with the [message] of that
    error, or "Operation failed" when it has none.  Otherwise it
    returns. *)
Theorem control_errors_are_promoted (control : string) (s : session) :
  let answer := player_at s (received s) (Activate control) in
  let run := control_command render control s in
  snd run = after s [Activate control] /\
  (forall m, answer = Failed m -> fst run = Throw (Error m)) /\
  (forall body, answer = Replied body ->
     truthy_val (get (Some body) "error") = false -> fst run = Return tt) /\
  (forall body e, answer = Replied body ->
     get (Some body) "error" = Some e -> truthy e = true ->
     (forall msg, get (Some e) "message" = Some (JStr msg) -> msg <> "" ->
                  fst run = Throw (Error msg)) /\
     (truthy_val (get (Some e) "message") = false ->
      fst run = Throw (Error "Operation failed"))).
  Proof.
    cbv zeta. rewrite control_command_cases. cbn [fst snd].
    split; [reflexivity |]. split; [| split].
    - intros m ->. reflexivity.
    - intros body -> H. rewrite truthy_js_and, H, andb_false_r. reflexivity.
    - intros body e -> He Ht.
      assert (Hb : truthy body = true).
      { destruct body; try discriminate He. reflexivity. }
      rewrite truthy_js_and, He. cbn [truthy_val]. rewrite Hb, Ht. cbn [andb].
      split.
      + intros msg Hm Hne. rewrite Hm. unfold js_or. cbn [truthy_val truthy].
        apply String.eqb_neq in Hne. rewrite Hne. reflexivity.
      + intros Hm. unfold js_or. rewrite Hm. reflexivity.
  Qed.

Lemma play_cases s :
  play render s =
  let s1 := after s [player_read] in
  match player_at s (received s) player_read with
  | Failed _ => sendPauseCommand render s1
  | Replied body =>
      if truthy_val (js_and (Some body) (index0 body))
         && (strict_eq (Spec.reported "state" body) (Some (JStr "paused"))
             || strict_eq (Spec.reported "state" body) (Some (JStr "stopped")))
      then
        match sendPauseCommand render s1 with
        | (Return _, s2) => (Return tt, s2)
        | (Throw _, s2) => sendPauseCommand render s2
        end
      else (Return tt, s1)
  end.
  Proof.
    cbv zeta. unfold play, try_catch. unfold bind at 1.
    rewrite on_client_getData. fold player_read.
    destruct (player_at s (received s) player_read) as [body | m]; [| reflexivity].
    rewrite first_element_reported.
    destruct (truthy_val (js_and (Some body) (index0 body))); cbn [andb];
      [| reflexivity].
    destruct (_ || _); [| reflexivity].
    destruct (sendPauseCommand render _) as [[[] | e] s2]; reflexivity.
  Qed.

Lemma play_sends s :
  exists l,
    received (snd (play render s)) = (received s ++ player_read :: l)%list /\
    (l = [] \/ l = [Activate "pause"] \/ l = [Activate "pause"; Activate "pause"]).
  Proof.
    rewrite play_cases. cbv zeta. unfold sendPauseCommand.
    destruct (player_at s (received s) player_read) as [body | m].
    - destruct (_ && _).
      + rewrite control_command_cases.
        destruct (match player_at _ _ _ with Failed _ => _ | Replied _ => _ end).
        * exists [Activate "pause"]. rewrite after_after. cbn. auto.
        * rewrite control_command_cases. cbn [snd]. rewrite !after_after.
          exists [Activate "pause"; Activate "pause"]. cbn. auto.
      + exists []. cbn. auto.
    - rewrite control_command_cases. cbn [snd]. rewrite after_after.
      exists [Activate "pause"]. cbn. auto.
  Qed.

(** X18.  [play()] reads the player state and then sends at most two
    commands, each of them the "pause" control: none when the speaker
    reports "playing", at least one when it reports "paused" or
    "stopped", and, when the state cannot be read, exactly what
    [sendPauseCommand()] does.  It never sends the "play" control. *)
Theorem play_only_toggles (s : session) :
  let answer := player_at s (received s) player_read in
  (exists l,
      received (snd (play render s)) = (received s ++ player_read :: l)%list /\
      (l = [] \/ l = [Activate "pause"] \/ l = [Activate "pause"; Activate "pause"])) /\
  (forall body, answer = Replied body ->
     Spec.reported "state" body = Some (JStr "playing") ->
     play render s = (Return tt, after s [player_read])) /\
  (forall body st, answer = Replied body ->
     Spec.reported "state" body = Some (JStr st) ->
     st = "paused" \/ st = "stopped" ->
     exists l, received (snd (play render s))
                 = (received s ++ player_read :: Activate "pause" :: l)%list) /\
  (forall m, answer = Failed m ->
     play render s = sendPauseCommand render (after s [player_read])).
  Proof.
    cbv zeta. split; [exact (play_sends s) |].
    rewrite play_cases. cbv zeta. unfold sendPauseCommand.
    split; [| split].
    - intros body -> H. rewrite H. cbn. rewrite andb_false_r. reflexivity.
    - intros body st -> H Hst. rewrite H.
      rewrite (reported_truthy "state" body _ H). cbn [andb].
      assert (E : strict_eq (Some (JStr st)) (Some (JStr "paused"))
                  || strict_eq (Some (JStr st)) (Some (JStr "stopped")) = true).
      { destruct Hst as [-> | ->]; reflexivity. }
      rewrite E. rewrite control_command_cases.
      destruct (match player_at _ _ _ with Failed _ => _ | Replied _ => _ end).
      + exists []. rewrite after_after. reflexivity.
      + rewrite control_command_cases. cbn [snd]. rewrite !after_after.
        exists [Activate "pause"]. reflexivity.
    - intros m ->. reflexivity.
  Qed.

Lemma on_client_isPlaying s :
  on_client KEFSpeaker.isPlaying s =
  (Return match player_at s (received s) player_read with
          | Failed _ => Some (JBool false)
          | Replied body =>
              js_and (js_and (Some body) (index0 body))
                (Some (JBool (strict_eq (Spec.reported "state" body)
                                (Some (JStr "playing")))))
          end,
   after s [player_read]).
  Proof.
    unfold on_client, lift. rewrite isPlaying_cases.
    unfold accessors, absorb, after.
    cbn [KEFSpeaker.http KEFSpeaker.this speaker_at sent send map].
    rewrite app_nil_r. reflexivity.
  Qed.

Lemma play_received s :
  exists l, received (snd (play render s)) = (received s ++ l)%list /\
            Forall pause_or_read l.
  Proof.
    destruct (play_sends s) as [l [H Hl]].
    exists (player_read :: l). split; [exact H |].
    constructor; [left; reflexivity |].
    destruct Hl as [-> | [-> | ->]];
      repeat (constructor; [right; reflexivity |]); constructor.
  Qed.

(** X19.  [togglePlayPause()] always returns, whatever the speaker
    answers: a failed command is not reported.  It reads the player
    state first and then sends only reads of the player state and
    "pause" controls. *)
Theorem togglePlayPause_swallows_failures (s : session) :
  fst (togglePlayPause render s) = Return tt /\
  exists l,
    received (snd (togglePlayPause render s)) = (received s ++ player_read :: l)%list /\
    Forall pause_or_read l.
  Proof.
    unfold togglePlayPause, try_catch, bind. rewrite on_client_isPlaying.
    set (s1 := after s [player_read]).
    destruct (truthy_val _).
    - unfold pause, sendPauseCommand. rewrite control_command_cases.
      split.
      + destruct (match player_at _ _ _ with Failed _ => _ | Replied _ => _ end)
          as [[] | e]; reflexivity.
      + exists [Activate "pause"]. split.
        * destruct (match player_at _ _ _ with Failed _ => _ | Replied _ => _ end)
            as [[] | e]; unfold ret; cbn [snd]; unfold s1; rewrite after_after;
            reflexivity.
        * constructor; [right; reflexivity | constructor].
    - destruct (play_received s1) as [l [H Hl]].
      destruct (play render s1) as [[[] | e] s2]; cbv beta iota; unfold ret;
        cbn [fst snd] in *;
        (split; [reflexivity |]); exists l;
        (split; [rewrite H; unfold s1; cbn; rewrite <- app_assoc; reflexivity
                | exact Hl]).
  Qed.

(** X20.  The listener of "speaker_playing" runs [play()] for a truthy
    value and [pause()] otherwise and leaves the session as that command
    does.  An error of the command whose message contains "Operation not
    supported" is swallowed and the listener returns; every other error
    is thrown again as it is. *)
Theorem speaker_playing_tolerates_unsupported (value : json) (s : session) :
  let command := if truthy value then play render else pause render in
  snd (speaker_playing render value s) = snd (command s) /\
  (forall e, fst (speaker_playing render value s) = Throw e ->
     fst (command s) = Throw e /\
     str_includes (exn_message e) "Operation not supported" = false) /\
  (forall e, fst (command s) = Throw e ->
     str_includes (exn_message e) "Operation not supported" = true ->
     fst (speaker_playing render value s) = Return tt) /\
  (forall body err msg,
     truthy value = false ->
     player_at s (received s) (Activate "pause") = Replied body ->
     get (Some body) "error" = Some err -> truthy err = true ->
     get (Some err) "message" = Some (JStr msg) ->
     str_includes msg "Operation not supported" = true ->
     speaker_playing render value s = (Return tt, after s [Activate "pause"])).
  Proof.
    cbv zeta.
    assert (Hne : forall m, str_includes m "Operation not supported" = true ->
                            (m =? "") = false).
    { intros m H. destruct m; [discriminate H | reflexivity]. }
    assert (E : speaker_playing render value s =
                match (if truthy value then play render else pause render) s with
                | (Return a, s') => (Return a, s')
                | (Throw e, s') =>
                    if negb (exn_message e =? "")
                       && str_includes (exn_message e) "Operation not supported"
                    then (Return tt, s') else (Throw e, s')
                end).
    { unfold speaker_playing, try_catch.
      destruct (truthy value);
        [destruct (play render s) as [[[] | e] s']
        | destruct (pause render s) as [[[] | e] s']];
        try reflexivity; destruct (_ && _); reflexivity. }
    split; [| split; [| split]].
    - rewrite E.
      destruct ((if truthy value then play render else pause render) s)
        as [[[] | e] s']; try reflexivity.
      destruct (_ && _); reflexivity.
    - intros e. rewrite E.
      destruct ((if truthy value then play render else pause render) s)
        as [[[] | e'] s']; cbn [fst]; [discriminate |].
      destruct (str_includes (exn_message e') "Operation not supported") eqn:Ei.
      + rewrite (Hne _ Ei). cbn. discriminate.
      + rewrite andb_false_r. cbn. intros H. injection H as <-. auto.
    - intros e. rewrite E.
      destruct ((if truthy value then play render else pause render) s)
        as [[[] | e'] s']; cbn [fst]; [discriminate |].
      intros H Hi. injection H as ->. rewrite Hi, (Hne _ Hi). reflexivity.
    - intros body err msg Hv Hb He Ht Hm Hi. rewrite E, Hv.
      unfold pause, sendPauseCommand. rewrite control_command_cases, Hb.
      assert (Hbody : truthy body = true).
      { destruct body; try discriminate He. reflexivity. }
      rewrite truthy_js_and, He. cbn [truthy_val]. rewrite Hbody, Ht. cbn [andb].
      rewrite Hm. unfold js_or. cbn [truthy_val truthy]. rewrite (Hne _ Hi).
      cbn [negb message_of exn_message]. rewrite Hi, (Hne _ Hi). reflexivity.
  Qed.

End ControlProperties.

(* ===================================================================== *)
(** ** Polling, continued *)
(* ===================================================================== *)

Import KEFBaseDevice DeviceSpec.

Lemma timer_speaker n d x :
  timer_at n d ->
  timer_at n (mkDevice x (pollInterval d) (isAvailable d) (modelId d)
                (albumArtImage d) (currentAlbumArtUrl d) (platform d) (closure d)).
Proof. intros H; exact H. Qed.

Lemma timer_platform n d h :
  timer_at n d ->
  timer_at n (mkDevice (speaker d) (pollInterval d) (isAvailable d) (modelId d)
                (albumArtImage d) (currentAlbumArtUrl d) h (closure d)).
Proof. intros H; exact H. Qed.

Lemma timer_art n d u :
  timer_at n d ->
  timer_at n (mkDevice (speaker d) (pollInterval d) (isAvailable d) (modelId d)
                (albumArtImage d) u (platform d) (closure d)).
Proof. intros H; exact H. Qed.

Lemma set_failureCount_timer n k : preserves (timer_at n) (set_failureCount k).
Proof. intros d H. exact H. Qed.

Lemma recover_timer n : preserves (timer_at n) recover.
Proof.
  intros d [[Ht [Hc Hu]] Hn]. destruct d as [c t a id img url h [nrm cur f]].
  cbn in Ht, Hc, Hu, Hn.
  unfold recover, await, bind, gets, set_failureCount, set_closure, set_isAvailable,
    set_platform, set_currentInterval, restart_timer, set_pollInterval, when, modify,
    throw, ret.
  cbn -[Z.eqb retryInterval].
  destruct (rejects h (calls h) setAvailable); cbn -[Z.eqb retryInterval].
  - unfold timer_at, timer_ok. cbn -[retryInterval].
    repeat split; try assumption; try discriminate.
  - destruct (cur =? nrm)%Z eqn:E; cbn -[Z.eqb retryInterval];
      unfold timer_at, timer_ok; cbn -[retryInterval].
    + apply Z.eqb_eq in E. repeat split; try assumption; try discriminate.
    + repeat split; try assumption; try discriminate; try (left; reflexivity).
Qed.

Lemma poll_catch_timer n : preserves (timer_at n) poll_catch.
Proof.
  intros d [[Ht [Hc Hu]] Hn]. destruct d as [c t a id img url h [nrm cur f]].
  cbn in Ht, Hc, Hu, Hn.
  unfold poll_catch, await_catch, await, try_catch, bind, gets, set_failureCount,
    set_closure, set_isAvailable, set_platform, set_currentInterval, restart_timer,
    set_pollInterval, when, modify, throw, ret.
  cbn -[Z.eqb Z.leb retryInterval maxFailures Z.add].
  destruct ((maxFailures <=? f + 1)%Z && a) eqn:Ec;
    cbn -[Z.eqb Z.leb retryInterval maxFailures Z.add].
  - destruct (rejects h (calls h) _); cbn -[Z.eqb Z.leb retryInterval maxFailures Z.add];
      (destruct (cur =? retryInterval)%Z eqn:E;
       cbn -[Z.eqb Z.leb retryInterval maxFailures Z.add];
       unfold timer_at, timer_ok; cbn -[retryInterval];
       [apply Z.eqb_eq in E; repeat split; try assumption; try (intros _; exact E)
       | repeat split; try assumption; try reflexivity; right; reflexivity]).
  - unfold timer_at, timer_ok. cbn -[retryInterval]. repeat split; assumption.
Qed.

Lemma poll_try_timer n : preserves (timer_at n) poll_try.
Proof.
  pose proof (recover_timer n) as Hrec. unfold recover in Hrec.
  pose proof (fun s => ensures_preserves _ _
                         (updateCapabilities_ensures (timer_at n) (timer_platform n) s))
    as Hcap.
  pose proof (ensures_preserves _ _
                (updateMusicMetadata_ensures (timer_at n) (timer_speaker n)
                   (timer_platform n))) as Hmeta.
  pose proof (ensures_preserves _ _
                (updateAlbumArt_ensures (timer_at n) (timer_speaker n)
                   (timer_platform n) (timer_art n))) as Hart.
  pose proof (fun A (m : KEFSpeaker.method A) =>
                on_speaker_preserves (timer_at n) (timer_speaker n) m) as Hsp.
  pose proof (set_failureCount_timer n) as Hfc.
  unfold poll_try.
  apply preserves_bind; [apply Hsp |]. intros deviceSettings.
  apply preserves_bind; [apply preserves_gets |]. intros available.
  apply preserves_bind; [apply preserves_when; exact Hrec |]. intros _.
  apply preserves_bind; [apply Hcap |]. intros _.
  apply preserves_bind; [apply Hmeta |]. intros _.
  apply preserves_bind; [apply Hart |]. intros _.
  apply Hfc.
Qed.

Lemma poll_timer n : preserves (timer_at n) poll.
Proof.
  unfold poll. apply preserves_try_catch; [apply poll_try_timer |].
  intros _. apply poll_catch_timer.
Qed.

Lemma startPolling_timer d :
  timer_at (normal_interval_of (polling_interval (platform d))) (snd (startPolling d)).
Proof.
  destruct d as [c t a id img url h cl].
  unfold startPolling, bind, gets, set_closure, set_pollInterval, modify.
  cbn -[normal_interval_of retryInterval].
  unfold timer_at, timer_ok. cbn -[normal_interval_of retryInterval].
  destruct a; repeat split; auto; discriminate.
Qed.

Lemma poll_catch_returns d : fst (poll_catch d) = Return tt.
Proof.
  destruct d as [c t a id img url h [nrm cur f]].
  unfold poll_catch, await_catch, await, try_catch, bind, gets, set_failureCount,
    set_closure, set_isAvailable, set_platform, set_currentInterval, restart_timer,
    set_pollInterval, when, modify, throw, ret.
  cbn -[Z.eqb Z.leb retryInterval maxFailures Z.add].
  destruct ((maxFailures <=? f + 1)%Z && a);
    cbn -[Z.eqb Z.leb retryInterval maxFailures Z.add]; [| reflexivity].
  destruct (rejects h (calls h) _); cbn -[Z.eqb Z.leb retryInterval maxFailures Z.add];
    destruct (cur =? retryInterval)%Z; reflexivity.
Qed.

(** X21.  After [startPolling] and any number of polls, whatever the
    speaker and the platform answer: the next poll returns, the timer
    runs at the current interval of the closure, the normal interval is
    still the one computed from the setting when polling started, the
    current interval is the normal or the retry interval, and it is the
    retry interval whenever the device is marked unavailable. *)
Theorem poll_keeps_timer (d0 : device) (n : nat) :
  let d := Spec.polls n (snd (startPolling d0)) in
  fst (poll d) = Return tt /\
  pollInterval d = Some (currentInterval (closure d)) /\
  normalInterval (closure d) = normal_interval_of (polling_interval (platform d0)) /\
  (currentInterval (closure d) = normalInterval (closure d) \/
   currentInterval (closure d) = retryInterval) /\
  (isAvailable d = false -> currentInterval (closure d) = retryInterval).
Proof.
  cbv zeta.
  assert (H : timer_at (normal_interval_of (polling_interval (platform d0)))
                (Spec.polls n (snd (startPolling d0)))).
  { generalize (startPolling_timer d0). generalize (snd (startPolling d0)).
    induction n as [| n IH]; intros d H; [exact H |].
    cbn [Spec.polls]. apply IH, poll_timer, H. }
  destruct H as [[H1 [H2 H3]] H4].
  split; [| auto].
  unfold poll, try_catch.
  destruct (poll_try _) as [[[] | e] d']; [reflexivity | apply poll_catch_returns].
Qed.

Section CallFrames.

Variable ok : homey_call -> Prop.

Variable I : device -> Prop.

Hypothesis I_call : forall d c,
  ok c -> I d ->
  I (mkDevice (speaker d) (pollInterval d) (isAvailable d) (modelId d)
       (albumArtImage d) (currentAlbumArtUrl d)
       (mkHomey (capabilities_of (platform d)) (polling_interval (platform d))
          (calls (platform d) ++ [c]) (rejects (platform d)))
       (closure d)).

Lemma await_calls c : ok c -> preserves I (await c).
  Proof.
    intros Hc d H. unfold await, bind, gets, set_platform, modify, throw, ret.
    pose proof (I_call d c Hc H) as H'.
    destruct (rejects (platform d) (calls (platform d)) c); exact H'.
  Qed.

Lemma await_catch_calls c : ok c -> ensures I (await_catch c) I.
  Proof.
    intros Hc. unfold await_catch. apply ensures_try_catch.
    - apply await_calls, Hc.
    - intros e. apply ensures_ret.
  Qed.

  (** The steps of a poll make routine calls only. *)

Hypothesis ok_routine : forall c, routine c -> ok c.

Hypothesis I_speaker : forall d c,
  I d -> I (mkDevice c (pollInterval d) (isAvailable d) (modelId d)
              (albumArtImage d) (currentAlbumArtUrl d) (platform d) (closure d)).

Hypothesis I_art : forall d u,
  I d -> I (mkDevice (speaker d) (pollInterval d) (isAvailable d) (modelId d)
              (albumArtImage d) u (platform d) (closure d)).

Lemma await_routine c : routine c -> preserves I (await c).
  Proof. intros H. apply await_calls, ok_routine, H. Qed.

Lemma await_catch_routine c : routine c -> ensures I (await_catch c) I.
  Proof. intros H. apply await_catch_calls, ok_routine, H. Qed.

Lemma await_catch_routine' c : routine c -> preserves I (await_catch c).
  Proof. intros H. apply ensures_preserves, await_catch_routine, H. Qed.

Lemma on_speaker_calls {A} (m : KEFSpeaker.method A) : preserves I (on_speaker m).
  Proof.
    intros d H. unfold on_speaker, lift.
    destruct (m (speaker d)) as [r c]. cbn. apply I_speaker, H.
  Qed.

Lemma set_currentAlbumArtUrl_calls u : preserves I (set_currentAlbumArtUrl u).
  Proof. intros d H. apply I_art, H. Qed.

#[local] Hint Resolve on_speaker_calls set_currentAlbumArtUrl_calls : frame.

#[local] Hint Extern 1 (preserves _ (await _)) =>
  apply await_routine; exact Logic.I : frame.

#[local] Hint Extern 1 (ensures _ (await_catch _) _) =>
  apply await_catch_routine; exact Logic.I : frame.

#[local] Hint Extern 1 (preserves _ (await_catch _)) =>
  apply await_catch_routine'; exact Logic.I : frame.

#[local] Hint Extern 1 (ensures _ (hasCapability _) _) =>
  unfold hasCapability; apply ensures_gets : frame.

#[local] Hint Extern 1 (preserves _ (hasCapability _)) =>
  unfold hasCapability; apply preserves_gets : frame.

Lemma updateCapabilities_calls settings : ensures I (updateCapabilities settings) I.
  Proof. unfold updateCapabilities. ensure. Qed.

Lemma updateMusicMetadata_calls : ensures I updateMusicMetadata I.
  Proof. unfold updateMusicMetadata. ensure. preserve. Qed.

Lemma updateAlbumArt_calls : ensures I updateAlbumArt I.
  Proof. unfold updateAlbumArt. ensure. preserve. Qed.

End CallFrames.

Lemma heard_nil d : heard [] d = d.
Proof.
  destruct d as [c t a id img url [caps int cl rj] clo]. unfold heard, Spec.with_calls.
  cbn. rewrite app_nil_r. reflexivity.
Qed.

(** X22.  [updateCapabilities] always returns and changes nothing but
    the calls made to the platform.  Each call sets "onoff", or sets
    "volume_set" to the volume of the snapshot, or sets "source_input"
    to the source of the snapshot; the source is reported only when it
    is not "standby" and is supported by the model of the device. *)
Theorem updateCapabilities_reports_snapshot (settings : KEFSpeaker.KEFSettings)
    (d : device) :
  exists l,
    updateCapabilities settings d = (Return tt, heard l d) /\
    Forall (reports (modelId d) settings) l.
Proof.
  set (ok := reports (modelId d) settings).
  set (I := fun d' => exists l, d' = heard l d /\ Forall ok l).
  assert (I_call : forall d' c,
             ok c -> I d' ->
             I (mkDevice (speaker d') (pollInterval d') (isAvailable d') (modelId d')
                  (albumArtImage d') (currentAlbumArtUrl d')
                  (mkHomey (capabilities_of (platform d'))
                     (polling_interval (platform d'))
                     (calls (platform d') ++ [c]) (rejects (platform d')))
                  (closure d'))).
  { intros d' c Hc [l [-> Hl]]. exists (l ++ [c])%list. split.
    - unfold heard, Spec.with_calls. cbn. rewrite app_assoc. reflexivity.
    - apply Forall_app. split; [exact Hl | constructor; [exact Hc | constructor]]. }
  assert (Hid : forall d', I d' -> modelId d' = modelId d).
  { intros d' [l [-> _]]. reflexivity. }
  assert (H : ensures I (updateCapabilities settings) I).
  { unfold updateCapabilities.
    apply ensures_seq; [apply ensures_gets |]. intros onoff.
    apply ensures_seq.
    { apply ensures_when, (await_catch_calls ok I I_call). constructor. }
    intros _.
    apply ensures_seq; [apply ensures_gets |]. intros volume_set.
    apply ensures_seq.
    { destruct (KEFSpeaker.volume settings) as [v |] eqn:Ev; [| apply ensures_ret].
      apply ensures_when, (await_catch_calls ok I I_call). constructor. exact Ev. }
    intros _.
    apply ensures_seq; [apply ensures_gets |]. intros source_input.
    apply ensures_gets_bind. intros s Hs.
    apply ensures_weaken with (I := I); [intros s' ->; exact Hs |].
    destruct (KEFSpeaker.settings_source settings) as [src |] eqn:Es;
      [| apply ensures_ret].
    destruct (source_input && (negb (src =? "standby")
                               && KEFModels.isSourceSupported (modelId s) src)) eqn:Ec;
      [| apply ensures_ret].
    cbn [when]. apply (await_catch_calls ok I I_call).
    apply andb_true_iff in Ec. destruct Ec as [_ Ec].
    apply andb_true_iff in Ec. destruct Ec as [E1 E2].
    constructor.
    - exact Es.
    - apply String.eqb_neq. destruct (src =? "standby"); [discriminate | reflexivity].
    - rewrite <- (Hid s Hs). exact E2. }
  destruct (H d) as [[] [Hr [l [Hd Hl]]]].
  { exists []. split; [symmetry; apply heard_nil | constructor]. }
  exists l. split; [| exact Hl].
  destruct (updateCapabilities settings d) as [r d']. cbn in Hr, Hd. subst. reflexivity.
Qed.

Lemma js_or_text (v : jsval) :
  exists text, js_or v (Some (JStr "")) = Some text /\
               (truthy text = true \/ text = JStr "").
Proof.
  unfold js_or. destruct (truthy_val v) eqn:E.
  - destruct v as [j |]; [| discriminate E]. exists j. split; [reflexivity | left; exact E].
  - exists (JStr ""). split; [reflexivity | right; reflexivity].
Qed.

(** X23.  [updateMusicMetadata] always returns, whatever the speaker
    answers and whatever the platform rejects.  The calls it adds set
    "speaker_playing", a text capability to a non-empty value or to the
    empty string (never to null or undefined), "speaker_repeat" to a
    string or "speaker_shuffle" to a boolean. *)
Theorem updateMusicMetadata_degrades_to_empty (d : device) :
  fst (updateMusicMetadata d) = Return tt /\
  exists l,
    calls (platform (snd (updateMusicMetadata d))) = (calls (platform d) ++ l)%list /\
    Forall displays l.
Proof.
  set (I := fun d' => exists l, calls (platform d') = (calls (platform d) ++ l)%list /\
                                Forall displays l).
  assert (I_call : forall d' c,
             displays c -> I d' ->
             I (mkDevice (speaker d') (pollInterval d') (isAvailable d') (modelId d')
                  (albumArtImage d') (currentAlbumArtUrl d')
                  (mkHomey (capabilities_of (platform d'))
                     (polling_interval (platform d'))
                     (calls (platform d') ++ [c]) (rejects (platform d')))
                  (closure d'))).
  { intros d' c Hc [l [E Hl]]. exists (l ++ [c])%list. split.
    - cbn. rewrite E, app_assoc. reflexivity.
    - apply Forall_app. split; [exact Hl | constructor; [exact Hc | constructor]]. }
  assert (I_speaker : forall d' c,
             I d' ->
             I (mkDevice c (pollInterval d') (isAvailable d') (modelId d')
                  (albumArtImage d') (currentAlbumArtUrl d') (platform d')
                  (closure d'))).
  { intros d' c H. exact H. }
  pose proof (fun c Hc => ensures_preserves I _ (await_catch_calls displays I I_call c Hc))
    as Hawait.
  pose proof (fun A (m : KEFSpeaker.method A) => on_speaker_preserves I I_speaker m)
    as Hsp.
  assert (Htext : forall cap v,
             In cap ["speaker_artist"; "speaker_track"; "speaker_album"] ->
             preserves I (await_catch (setCapabilityValue cap
                                         (Plain (js_or v (Some (JStr ""))))))).
  { intros cap v Hcap. destruct (js_or_text v) as [text [-> Ht]].
    apply Hawait, displays_text; assumption. }
  assert (H : ensures I updateMusicMetadata I).
  { unfold updateMusicMetadata. apply ensures_try_catch; [| intros e; apply ensures_ret].
    apply preserves_bind; [apply Hsp |]. intros playbackInfo.
    apply preserves_bind; [apply preserves_gets |]. intros c1.
    apply preserves_bind; [apply preserves_when, Hawait, displays_playing |]. intros _.
    apply preserves_bind; [apply preserves_gets |]. intros c2.
    apply preserves_bind; [apply preserves_when, Htext; cbn; tauto |]. intros _.
    apply preserves_bind; [apply preserves_gets |]. intros c3.
    apply preserves_bind; [apply preserves_when, Htext; cbn; tauto |]. intros _.
    apply preserves_bind; [apply preserves_gets |]. intros c4.
    apply preserves_bind; [apply preserves_when, Htext; cbn; tauto |]. intros _.
    apply preserves_bind; [apply preserves_gets |]. intros c5.
    apply preserves_bind.
    { apply preserves_when, preserves_bind; [apply Hsp |]. intros mode.
      apply Hawait, displays_repeat. }
    intros _.
    apply preserves_bind; [apply preserves_gets |]. intros c6.
    apply preserves_when, preserves_bind; [apply Hsp |]. intros mode.
    apply Hawait, displays_shuffle. }
  destruct (H d) as [[] [Hr Hd]].
  { exists []. split; [rewrite app_nil_r; reflexivity | constructor]. }
  split; [exact Hr | exact Hd].
Qed.

Lemma quietly_call base d c :
  routine c -> quietly_available base d ->
  quietly_available base
    (mkDevice (speaker d) (pollInterval d) (isAvailable d) (modelId d)
       (albumArtImage d) (currentAlbumArtUrl d)
       (mkHomey (capabilities_of (platform d)) (polling_interval (platform d))
          (calls (platform d) ++ [c]) (rejects (platform d)))
       (closure d)).
Proof.
  intros Hc [Ha [l [E Hl]]]. split; [exact Ha |].
  exists (l ++ [c])%list. split.
  - cbn. rewrite E, app_assoc. reflexivity.
  - apply Forall_app. split; [exact Hl | constructor; [exact Hc | constructor]].
Qed.

Lemma poll_quietly base (d : device) :
  quietly_available base d -> quietly_available base (snd (poll d)).
Proof.
  set (I := quietly_available base).
  assert (I_speaker : forall d c,
             I d -> I (mkDevice c (pollInterval d) (isAvailable d) (modelId d)
                         (albumArtImage d) (currentAlbumArtUrl d) (platform d)
                         (closure d)))
    by (intros d' c H; exact H).
  assert (I_art : forall d u,
             I d -> I (mkDevice (speaker d) (pollInterval d) (isAvailable d) (modelId d)
                         (albumArtImage d) u (platform d) (closure d)))
    by (intros d' u H; exact H).
  assert (Htry : ensures I poll_try I).
  { unfold poll_try.
    apply ensures_seq;
      [apply (on_speaker_ensures I I_speaker); intros c; apply getAllSettings_returns |].
    intros deviceSettings. apply ensures_gets_bind. intros s Hs.
    destruct Hs as [Ha Hs]. rewrite Ha. cbn [negb when].
    apply ensures_weaken with (I := I); [intros s' ->; split; assumption |].
    apply ensures_seq; [apply ensures_ret |]. intros _.
    apply ensures_seq;
      [apply (updateCapabilities_calls routine I (quietly_call base) (fun c H => H)) |].
    intros _.
    apply ensures_seq;
      [apply (updateMusicMetadata_calls routine I (quietly_call base) (fun c H => H)
                I_speaker) |].
    intros _.
    apply ensures_seq;
      [apply (updateAlbumArt_calls routine I (quietly_call base) (fun c H => H)
                I_speaker I_art) |].
    intros _.
    intros s0 Hs0. exists tt. split; [reflexivity | exact Hs0]. }
  intros H. destruct (Htry d H) as [[] [Hr Hd]].
  unfold poll, try_catch. destruct (poll_try d) as [r d']. cbn [fst snd] in *.
  subst r. exact Hd.
Qed.

Lemma polls_quietly base n : forall d,
  quietly_available base d -> quietly_available base (Spec.polls n d).
Proof.
  induction n as [| n IH]; intros d H; [exact H |].
  cbn [Spec.polls]. apply IH, poll_quietly, H.
Qed.

(** X24.  When a device marked unavailable polls and the platform
    rejects [setAvailable] (below the failure limit), the poll returns
    with the device marked available in memory, one more failure
    counted, and the timer and the current interval left as they were.
    In every later poll the device stays marked available at that
    interval and neither [setAvailable] nor [setUnavailable] is called
    again. *)
Theorem rejected_setAvailable_is_not_retried (d : device) (n : nat) :
  isAvailable d = false ->
  rejects (platform d) (calls (platform d)) setAvailable = true ->
  (failureCount (closure d) + 1 < maxFailures)%Z ->
  let d1 := snd (poll d) in
  let dn := Spec.polls n d1 in
  fst (poll d) = Return tt /\
  isAvailable d1 = true /\
  calls (platform d1) = (calls (platform d) ++ [setAvailable])%list /\
  failureCount (closure d1) = (failureCount (closure d) + 1)%Z /\
  currentInterval (closure d1) = currentInterval (closure d) /\
  pollInterval d1 = pollInterval d /\
  isAvailable dn = true /\
  currentInterval (closure dn) = currentInterval (closure d) /\
  pollInterval dn = pollInterval d /\
  exists l, calls (platform dn) = (calls (platform d1) ++ l)%list /\
            Forall routine l.
Proof.
  intros Ha Hrej Hf. cbv zeta.
  assert (H1 : fst (poll d) = Return tt /\
               isAvailable (snd (poll d)) = true /\
               calls (platform (snd (poll d)))
                 = (calls (platform d) ++ [setAvailable])%list /\
               failureCount (closure (snd (poll d)))
                 = (failureCount (closure d) + 1)%Z /\
               currentInterval (closure (snd (poll d))) = currentInterval (closure d) /\
               pollInterval (snd (poll d)) = pollInterval d).
  { destruct d as [c0 t a id img url h [nrm cur f]].
    cbn in Ha, Hrej, Hf. subst a.
    assert (E : (maxFailures <=? f + 1)%Z = false) by (apply Z.leb_gt; exact Hf).
    assert (Hp : poll (mkDevice c0 t false id img url h (mkPolling nrm cur f)) =
                 (Return tt,
                  mkDevice (snd (KEFSpeaker.getAllSettings c0)) t true id img url
                    (mkHomey (capabilities_of h) (polling_interval h)
                       (calls h ++ [setAvailable]) (rejects h))
                    (mkPolling nrm cur (f + 1)))).
    { unfold poll, try_catch, poll_try. unfold bind at 1. unfold on_speaker, lift.
      cbn [speaker].
      destruct (getAllSettings_returns c0) as [settings Hs].
      destruct (KEFSpeaker.getAllSettings c0) as [r c]. cbn [fst] in Hs. subst r.
      cbv beta iota zeta delta
        [bind set_isAvailable modify await gets set_platform set_failureCount
         set_closure set_currentInterval restart_timer set_pollInterval when ret throw
         platform speaker pollInterval isAvailable modelId albumArtImage
         currentAlbumArtUrl closure fst snd negb].
      cbn [calls rejects capabilities_of polling_interval]. rewrite Hrej.
      cbv beta iota.
      unfold poll_catch, bind, gets, set_failureCount, set_closure, modify.
      cbn -[Z.leb Z.add maxFailures].
      rewrite E. reflexivity. }
    rewrite Hp. cbn. repeat split; reflexivity. }
  destruct H1 as (R1 & R2 & R3 & R4 & R5 & R6).
  repeat (split; [assumption |]).
  destruct (polls_of_available n (snd (poll d)) R2) as (P1 & P2 & _ & P4 & _).
  split; [exact P1 |]. split; [rewrite P4; exact R5 |]. split; [rewrite P2; exact R6 |].
  assert (Hq : quietly_available (calls (platform (snd (poll d)))) (snd (poll d))).
  { split; [exact R2 |]. exists []. split; [rewrite app_nil_r; reflexivity | constructor]. }
  destruct (polls_quietly _ n _ Hq) as [_ Hl]. exact Hl.
Qed.

(* ===================================================================== *)
(** ** Settings *)
(* ===================================================================== *)

Section Partial.

Context {St : Type}.

(** [m] ends in [Q] whenever it returns. *)
Definition returns_in (Q : St -> Prop) {A} (m : js St A) : Prop :=
  forall s a, fst (m s) = Return a -> Q (snd (m s)).

Lemma returns_in_bind (Q : St -> Prop) {A B} (m : js St A) (k : A -> js St B) :
  (forall a, returns_in Q (k a)) -> returns_in Q (bind m k).
  Proof.
    intros Hk s b. unfold bind. destruct (m s) as [[a | e] s']; cbn.
    - apply Hk.
    - discriminate.
  Qed.

Lemma returns_in_throw (Q : St -> Prop) {A} (e : exn) : returns_in Q (@throw St A e).
  Proof. intros s a H. discriminate H. Qed.

Lemma try_catch_ends_in (Q : St -> Prop) {A} (m : js St A) (h : exn -> js St A) :
  returns_in Q m ->
  (forall e s, exists a, fst (h e s) = Return a /\ Q (snd (h e s))) ->
  forall s, exists a, fst (try_catch m h s) = Return a /\ Q (snd (try_catch m h s)).
  Proof.
    intros Hm Hh s. unfold try_catch.
    pose proof (Hm s) as Hs.
    destruct (m s) as [[a | e] s']; cbn in *.
    - exists a. split; [reflexivity | apply (Hs a eq_refl)].
    - apply Hh.
  Qed.

End Partial.

Lemma startPolling_restarted d :
  fst (startPolling d) = Return tt /\ restarted (snd (startPolling d)).
Proof.
  destruct d as [c t a id img url h cl].
  unfold startPolling, bind, gets, set_closure, set_pollInterval, modify.
  cbn -[normal_interval_of retryInterval]. unfold restarted.
  cbn -[normal_interval_of retryInterval]. repeat split; reflexivity.
Qed.

Lemma startPolling_cases d :
  startPolling d =
  (Return tt,
   let normal := normal_interval_of (polling_interval (platform d)) in
   let current := if isAvailable d then normal else retryInterval in
   mkDevice (speaker d) (Some current) (isAvailable d) (modelId d) (albumArtImage d)
     (currentAlbumArtUrl d) (platform d) (mkPolling normal current 0)).
Proof. destruct d as [c t a id img url h cl]. reflexivity. Qed.

Lemma testConnection_cases c :
  KEFSpeaker.testConnection c =
  (Return match fst (KEFSpeaker.getSource c) with
          | Return _ => true
          | Throw _ => false
          end, snd (KEFSpeaker.getSource c)).
Proof.
  unfold KEFSpeaker.testConnection, try_catch, bind, ret.
  destruct (KEFSpeaker.getSource c) as [[s | e] c']; reflexivity.
Qed.

Lemma reconnect_failed_cases d :
  reconnect_failed d =
  (Return tt,
   let h := platform d in
   let normal := normal_interval_of (polling_interval h) in
   mkDevice (speaker d) (Some retryInterval) false (modelId d) (albumArtImage d)
     (currentAlbumArtUrl d)
     (mkHomey (capabilities_of h) (polling_interval h)
        (calls h ++ [setUnavailable "Cannot connect to speaker with new settings"])
        (rejects h))
     (mkPolling normal retryInterval 0)).
Proof.
  destruct d as [c t a id img url h cl].
  unfold reconnect_failed, await_catch, await, try_catch, bind, gets, set_isAvailable,
    set_platform, modify, throw, ret.
  cbn -[normal_interval_of retryInterval startPolling].
  destruct (rejects h (calls h) _); rewrite startPolling_cases; reflexivity.
Qed.

Lemma reconnect_failed_restarted e s :
  exists a, fst ((fun _ : exn => reconnect_failed) e s) = Return a /\
            restarted (snd ((fun _ : exn => reconnect_failed) e s)).
Proof.
  cbv beta. rewrite reconnect_failed_cases. exists tt. split; [reflexivity |].
  unfold restarted. cbn -[normal_interval_of retryInterval]. repeat split; reflexivity.
Qed.

(** X25.  [onSettings] always returns, so a change of settings is
    never refused.  After a change of the address polling has been
    started again (failure counter 0, timer at the normal interval when
    the device is available and at the retry interval otherwise); when
    the new endpoint does not answer
    the connection test, the device is marked unavailable with one
    [setUnavailable] call, polls at the retry interval, and one request
    has been sent to the new endpoint.  A change of the polling interval
    alone restarts polling; any other change leaves the device as it
    is. *)
Theorem onSettings_is_accepted (changedKeys : list string) (endpoint : Transport.device)
    (web : KEFSpeaker.page) (d : device) :
  let d' := snd (onSettings changedKeys endpoint web d) in
  let address :=
    KEFModels.includes changedKeys "ip" || KEFModels.includes changedKeys "port" in
  fst (onSettings changedKeys endpoint web d) = Return tt /\
  (address = true ->
     restarted d' /\
     (forall m, endpoint [] (GetData KEFSpeaker.physicalSource) = Failed m ->
        isAvailable d' = false /\
        pollInterval d' = Some retryInterval /\
        sent (KEFSpeaker.http (speaker d')) = [GetData KEFSpeaker.physicalSource] /\
        calls (platform d') =
          (calls (platform d)
             ++ [setUnavailable "Cannot connect to speaker with new settings"])%list)) /\
  (address = false -> KEFModels.includes changedKeys "polling_interval" = true ->
     d' = snd (startPolling d)) /\
  (address = false -> KEFModels.includes changedKeys "polling_interval" = false ->
     d' = d).
Proof.
  cbv zeta. unfold onSettings.
  destruct (KEFModels.includes changedKeys "ip" || KEFModels.includes changedKeys "port").
  - set (d0 := mkDevice (KEFSpeaker.mkClient KEFSpeaker.new (mkTransport endpoint []))
                  None (isAvailable d) (modelId d) (albumArtImage d)
                  (currentAlbumArtUrl d) (platform d) (closure d)).
    match goal with
    | |- context [(stop_polling ;;; set_speaker ?x ;;; ?T) d] =>
        change ((stop_polling ;;; set_speaker x ;;; T) d) with (T d0)
    end.
    match goal with
    | |- context [try_catch ?m ?h d0] =>
        assert (Hm : returns_in restarted m);
        [| pose proof (try_catch_ends_in restarted m h Hm reconnect_failed_restarted d0)
            as [[] [Hr Hq]]]
    end.
    { apply returns_in_bind. intros [|]; [| apply returns_in_throw].
      do 4 (apply returns_in_bind; intros ?).
      intros s0 r0 _. apply startPolling_restarted. }
    split; [exact Hr |]. split; [| split; discriminate].
    intros _. split; [exact Hq |].
    intros m Hfail. clear Hr Hq Hm.
    match goal with
    | |- context [try_catch ?body ?h d0] =>
        assert (E : try_catch body h d0 =
                    reconnect_failed
                      (mkDevice
                         (KEFSpeaker.mkClient KEFSpeaker.new
                            (mkTransport endpoint [GetData KEFSpeaker.physicalSource]))
                         None (isAvailable d) (modelId d) (albumArtImage d)
                         (currentAlbumArtUrl d) (platform d) (closure d)))
    end.
    { unfold try_catch. unfold bind at 1. unfold on_speaker, lift.
      rewrite testConnection_cases, getSource_cases. cbv zeta.
      subst d0. cbn [speaker KEFSpeaker.http KEFSpeaker.this speaker_at sent].
      rewrite Hfail. reflexivity. }
    rewrite E, reconnect_failed_cases. cbn. repeat split; reflexivity.
  - split; [| split; [discriminate |]].
    + destruct (KEFModels.includes changedKeys "polling_interval"); [| reflexivity].
      unfold bind, stop_polling, set_pollInterval, modify. cbv beta iota.
      rewrite startPolling_cases. reflexivity.
    + split; intros _ H; rewrite H; [| reflexivity].
      unfold bind, stop_polling, set_pollInterval, modify. cbv beta iota.
      rewrite !startPolling_cases. destruct d; reflexivity.
Qed.

(* ===================================================================== *)
(** ** Capability handlers and the flow action *)
(* ===================================================================== *)



(** X27.  The handlers of "speaker_repeat" and "speaker_shuffle"
    always return and send nothing to the speaker.  A repeat value is
    stored only when it is one of "none", "track" and "playlist"; a
    shuffle value only when it is a boolean, as "all" or "none";
    anything else is ignored.  [getRepeatMode()] and [getShuffleMode()]
    then return the stored mode. *)
Theorem repeat_and_shuffle_stay_local (value : jsval) (d : device) :
  let f := KEFSpeaker.this (speaker d) in
  let mode :=
    match value with
    | Some (JStr m) => if KEFModels.includes validModes m then m else KEFSpeaker.repeatMode f
    | _ => KEFSpeaker.repeatMode f
    end in
  let shuffle :=
    match value with
    | Some (JBool b) => if b then "all" else "none"
    | _ => KEFSpeaker.shuffleMode f
    end in
  onCapabilityRepeat value d =
    (Return tt,
     with_speaker
       (KEFSpeaker.mkClient
          (KEFSpeaker.mkFields (KEFSpeaker.lastActiveSource f) (KEFSpeaker.previousVolume f)
             (KEFSpeaker.isMuted f) mode (KEFSpeaker.shuffleMode f))
          (KEFSpeaker.http (speaker d))) d) /\
  onCapabilityShuffle value d =
    (Return tt,
     with_speaker
       (KEFSpeaker.mkClient
          (KEFSpeaker.mkFields (KEFSpeaker.lastActiveSource f) (KEFSpeaker.previousVolume f)
             (KEFSpeaker.isMuted f) (KEFSpeaker.repeatMode f) shuffle)
          (KEFSpeaker.http (speaker d))) d) /\
  fst (on_speaker KEFSpeaker.getRepeatMode (snd (onCapabilityRepeat value d)))
    = Return mode /\
  fst (on_speaker KEFSpeaker.getShuffleMode (snd (onCapabilityShuffle value d)))
    = Return shuffle.
Proof.
  cbv zeta.
  assert (Hsame : with_speaker (speaker d) d = d) by (destruct d; reflexivity).
  assert (Hf : forall c,
             KEFSpeaker.mkClient
               (KEFSpeaker.mkFields (KEFSpeaker.lastActiveSource (KEFSpeaker.this c))
                  (KEFSpeaker.previousVolume (KEFSpeaker.this c))
                  (KEFSpeaker.isMuted (KEFSpeaker.this c))
                  (KEFSpeaker.repeatMode (KEFSpeaker.this c))
                  (KEFSpeaker.shuffleMode (KEFSpeaker.this c))) (KEFSpeaker.http c) = c)
    by (intros [[] ?]; reflexivity).
  assert (Hr : onCapabilityRepeat value d =
    (Return tt,
     with_speaker
       (KEFSpeaker.mkClient
          (KEFSpeaker.mkFields (KEFSpeaker.lastActiveSource (KEFSpeaker.this (speaker d)))
             (KEFSpeaker.previousVolume (KEFSpeaker.this (speaker d)))
             (KEFSpeaker.isMuted (KEFSpeaker.this (speaker d)))
             match value with
             | Some (JStr m) =>
                 if KEFModels.includes validModes m then m
                 else KEFSpeaker.repeatMode (KEFSpeaker.this (speaker d))
             | _ => KEFSpeaker.repeatMode (KEFSpeaker.this (speaker d))
             end
             (KEFSpeaker.shuffleMode (KEFSpeaker.this (speaker d))))
          (KEFSpeaker.http (speaker d))) d)).
  { unfold onCapabilityRepeat, try_catch.
    destruct value as [[| b | q | m | l | l] |];
      try (unfold ret; rewrite Hf, Hsame; reflexivity).
    destruct (m =? "") eqn:Em.
    + apply String.eqb_eq in Em. subst m. unfold ret. cbn. rewrite Hf, Hsame.
      reflexivity.
    + destruct (KEFModels.includes validModes m); cbn [negb].
      * reflexivity.
      * unfold ret. rewrite Hf, Hsame. reflexivity. }
  assert (Hs : onCapabilityShuffle value d =
    (Return tt,
     with_speaker
       (KEFSpeaker.mkClient
          (KEFSpeaker.mkFields (KEFSpeaker.lastActiveSource (KEFSpeaker.this (speaker d)))
             (KEFSpeaker.previousVolume (KEFSpeaker.this (speaker d)))
             (KEFSpeaker.isMuted (KEFSpeaker.this (speaker d)))
             (KEFSpeaker.repeatMode (KEFSpeaker.this (speaker d)))
             match value with
             | Some (JBool b) => if b then "all" else "none"
             | _ => KEFSpeaker.shuffleMode (KEFSpeaker.this (speaker d))
             end)
          (KEFSpeaker.http (speaker d))) d)).
  { unfold onCapabilityShuffle, try_catch.
    destruct value as [[| b | q | m | l | l] |];
      try (unfold ret; rewrite Hf, Hsame; reflexivity).
    reflexivity. }
  rewrite Hr, Hs. repeat split; reflexivity.
Qed.



Section FlowProperties.

Variable translate : string -> string.

Variable replace : string -> string -> string -> string.

Lemma onCapabilitySource_throws (value : string) (d : device) (e : exn) :
  fst (onCapabilitySource value d) = Throw e -> e = Error "Failed to set source".
Proof.
  unfold onCapabilitySource, try_catch.
  match goal with |- context [let (_, _) := ?m d in _] =>
    destruct (m d) as [[[] | e'] d'] end; cbn; congruence.
Qed.

(** X29.  Whenever [onCapabilitySource] throws, the flow action
    "set_source" throws the translation of
    "errors.source_change_failed" and leaves the device as the handler
    does.  This includes a source that the model does not support: the
    handler has replaced the "not supported" error by "Failed to set
    source", so the message for an unsupported source is not
    produced. *)
Theorem set_source_reports_generic_failure (id : string) (d : device) :
  (forall e, fst (onCapabilitySource id d) = Throw e ->
     App.set_source translate replace id d =
       (Throw (Error (translate "errors.source_change_failed")),
        snd (onCapabilitySource id d))) /\
  (KEFModels.isSourceSupported (modelId d) id = false ->
     App.set_source translate replace id d =
       (Throw (Error (translate "errors.source_change_failed")), d)).
Proof.
  assert (H1 : forall e, fst (onCapabilitySource id d) = Throw e ->
     App.set_source translate replace id d =
       (Throw (Error (translate "errors.source_change_failed")),
        snd (onCapabilitySource id d))).
  { intros e He. pose proof (onCapabilitySource_throws id d e He) as ->.
    unfold App.set_source, try_catch. unfold bind at 1.
    destruct (onCapabilitySource id d) as [o d']. cbn in He. subst o.
    reflexivity. }
  split; [exact H1 |].
  intros Hs.
  assert (E : onCapabilitySource id d = (Throw (Error "Failed to set source"), d)).
  { unfold onCapabilitySource, try_catch.
    unfold bind at 1. unfold gets at 1. cbn [fst snd]. rewrite Hs. reflexivity. }
  rewrite (H1 (Error "Failed to set source")); rewrite E; reflexivity.
Qed.

End FlowProperties.

(* ===================================================================== *)
(** ** Instances of the further properties *)
(* ===================================================================== *)

(** "TV" on an LSX II: supported, as "tv" is in its list. *)
Lemma isSourceSupported_iff_listed_witness :
  KEFModels.isSourceSupported "kef-lsx2" "TV" = true <->
  Spec.contains_ci
    ["wifi"; "bluetooth"; "tv"; "optical"; "analog"; "usb"] "TV".
Proof.
  exact (proj1 (isSourceSupported_iff_listed "kef-lsx2" "TV" _ eq_refl)).
Defined.



(** At volume 42, two toggles go to 0 and back to 42. *)
Lemma toggleMute_twice_restores_witness :
  let c0 := Examples.client_of (Examples.storing_speaker 30) in
  let c := snd (KEFSpeaker.setVolume Examples.no_coercion (JNum (inject_Z 42)) c0) in
  exists c1 c2,
    KEFSpeaker.toggleMute Examples.no_coercion c = (Return tt, c1) /\
    fst (KEFSpeaker.getVolume c1) = Return (JNum 0) /\
    fst (KEFSpeaker.getMuted c1) = Return true /\
    KEFSpeaker.toggleMute Examples.no_coercion c1 = (Return tt, c2) /\
    fst (KEFSpeaker.getVolume c2) = Return (JNum (inject_Z 42)) /\
    fst (KEFSpeaker.getMuted c2) = Return false.
Proof.
  exact (toggleMute_twice_restores Examples.no_coercion
           (Examples.client_of (Examples.storing_speaker 30)) 42
           (storing_speaker_reachable 30) (storing_speaker_faithful 30)
           ltac:(lia)).
Defined.

(** A speaker at volume 0 that was never muted through the client is not
    reported as muted. *)
Lemma getMuted_needs_mute_witness :
  let c0 := Examples.client_of (Examples.storing_speaker 0) in
  let c := Trace.run Examples.no_coercion [Trace.OpGetVolume; Trace.OpSetMuted false] c0 in
  KEFSpeaker.isMuted (KEFSpeaker.this c) = false /\
  (forall b, fst (KEFSpeaker.getMuted c) = Return b -> b = false).
Proof.
  apply (getMuted_needs_mute Examples.no_coercion
           [Trace.OpGetVolume; Trace.OpSetMuted false]
           (Examples.client_of (Examples.storing_speaker 0)) eq_refl).
  intros o [<- | [<- | []]]; split; discriminate.
Defined.

(** A speaker on "wifi" at volume 30. *)
Lemma getAllSettings_awake_reads_witness :
  let c := Examples.client_of (Examples.storing_speaker 30) in
  exists settings v v' g,
    fst (KEFSpeaker.getAllSettings c) = Return settings /\
    KEFSpeaker.standby settings = Some false /\
    KEFSpeaker.settings_source settings = Some "wifi" /\
    KEFSpeaker.volume settings = Some v /\
    KEFSpeaker.muted settings =
      Some (strict_eq (Some v') (Some (JNum 0))
            && KEFSpeaker.isMuted (KEFSpeaker.this c)) /\
    KEFSpeaker.subwooferGain settings = Some (JNum g) /\
    sent (KEFSpeaker.http (snd (KEFSpeaker.getAllSettings c))) =
      [GetData KEFSpeaker.physicalSource; GetData KEFSpeaker.physicalSource;
       GetData "player:volume"; GetData "player:volume";
       GetData "settings:/kef/dsp/subwooferGain"].
Proof.
  exact (getAllSettings_awake_reads
           (Examples.client_of (Examples.storing_speaker 30)) "wifi"
           (storing_speaker_reachable 30) eq_refl eq_refl ltac:(discriminate)).
Defined.

(** A gain of 12 is stored and read back as a number of [-10, 10]. *)
Lemma setSubwooferGain_getSubwooferGain_roundtrip_witness :
  let c := Examples.client_of (Examples.storing_speaker 30) in
  exists c1 c2 r,
    KEFSpeaker.setSubwooferGain Examples.no_coercion (JNum 12) c = (Return tt, c1) /\
    KEFSpeaker.getSubwooferGain c1 = (Return (JNum r), c2) /\
    (r == 10)%Q.
Proof.
  destruct (setSubwooferGain_getSubwooferGain_roundtrip Examples.no_coercion
              (Examples.storing_speaker 30)
              (Examples.client_of (Examples.storing_speaker 30)) (JNum 12)
              (storing_speaker_reachable 30) (storing_speaker_faithful 30) eq_refl)
    as (c1 & c2 & r & H1 & H2 & _ & H3 & _).
  exists c1, c2, r. split; [exact H1 |]. split; [exact H2 |].
  apply (proj1 (proj2 (H3 12%Q eq_refl))). discriminate.
Defined.

(** An unavailable LSX II whose platform rejects [setAvailable]: after
    one poll and two more it is marked available without any further
    [setAvailable]. *)
Lemma rejected_setAvailable_is_not_retried_witness :
  let d :=
    mkDevice (Examples.client_of (Examples.storing_speaker 30)) (Some retryInterval)
      false "kef-lsx2" true JNull
      (mkHomey Examples.player_capabilities (Some 5%Z) []
         (fun _ c => match c with setAvailable => true | _ => false end))
      (mkPolling 5000 retryInterval 0) in
  let d1 := snd (poll d) in
  let dn := Spec.polls 2 d1 in
  calls (platform d1) = [setAvailable] /\
  isAvailable dn = true /\
  pollInterval dn = Some retryInterval /\
  exists l, calls (platform dn) = (setAvailable :: l)%list /\ Forall routine l.
Proof.
  cbv zeta.
  pose proof
    (rejected_setAvailable_is_not_retried
       (mkDevice (Examples.client_of (Examples.storing_speaker 30)) (Some retryInterval)
          false "kef-lsx2" true JNull
          (mkHomey Examples.player_capabilities (Some 5%Z) []
             (fun _ c => match c with setAvailable => true | _ => false end))
          (mkPolling 5000 retryInterval 0))
       2 eq_refl eq_refl ltac:(reflexivity)) as H.
  cbv zeta in H.
  destruct H as (_ & _ & Hc & _ & _ & _ & Ha & _ & Ht & l & Hl & Hr).
  split; [exact Hc |]. split; [exact Ha |]. split; [exact Ht |].
  exists l. split; [| exact Hr]. rewrite Hl, Hc. reflexivity.
Defined.

